(** * Ephemeral chat: ratchet session and transport framer

    A shallow embedding of the secure-messaging core:
    - [cryptoWorker.js]: the [DoubleRatchet] class, [encryptMessage],
      [decryptMessage], the keep-alive tick and the [cleanup] operation;
    - the network manager with peer verification ([padPacket],
      [removePacketPadding], [handleIncomingData] and the handlers it calls,
      the reconnect timer), together with the older framer without a
      length prefix;
    - around them: the timeouts, [initialize], [setTransportMode] and
      [cleanup] of the network manager; the RPC handler of the worker with
      [sealFile] and [openFile]; the crypto bridge that posts the requests
      and settles their promises; the logger that shares the worker's file;
      the rate limiter that the caller of [seal] consults.

    Byte buffers ([Uint8Array], [Buffer]) are lists of integers.  Key buffers
    live in an explicit heap so that [sodium.memzero] acts on the buffer a
    reference points to, not on a copy.  A call into [libsodium-wrappers]
    is the library's check of its arguments (a [TypeError] on [null],
    [undefined], a plain [Array], a buffer of the wrong length), written
    out, followed by the primitive; the primitives, the clock,
    [Math.random] and the JSON codec are interfaces (classes) whose laws are
    stated where a theorem relies on them.  A small executable instance
    runs the model on concrete states.  Numbers that are floats in the
    source (timestamps, jitter) are integers here. *)

From stdpp Require Import gmap strings list pretty.
From Stdlib Require Import ZArith Lia Sorted.

Local Open Scope nat_scope.

Abbreviation bytes := (list Z).

(** ** JavaScript exceptions and results *)

Inductive Exn : Type :=
  | Error (msg : string)      (* [throw new Error(msg)] in the source *)
  | SodiumError (msg : string)(* an error thrown by a libsodium primitive *)
  | TypeError
  | RangeError
  | SyntaxError.

Inductive Result (A : Type) : Type :=
  | Ok (a : A)
  | Throw (e : Exn).
Arguments Ok {A} a.
Arguments Throw {A} e.

(** ** The framer of the network manager *)

Module Framer.

Definition PACKET_SIZE : nat := 256.

(** [Math.ceil(a / b)] on non-negative integers. *)
Definition ceil_div (a b : nat) : nat := (a + (b - 1)) / b.

(** [buf.writeUInt32BE(value, 0)] on a fresh 4-byte buffer: a [RangeError]
    unless [0 <= value < 2^32]. *)
Definition writeUInt32BE (value : nat) : Result bytes :=
  let v := Z.of_nat value in
  if decide (v < 2 ^ 32)%Z then
    Ok [ Z.land (Z.shiftr v 24) 255; Z.land (Z.shiftr v 16) 255;
         Z.land (Z.shiftr v 8) 255; Z.land v 255 ]
  else Throw RangeError.

(** [buf.readUInt32BE(0)]; a [RangeError] when fewer than 4 bytes remain. *)
Definition readUInt32BE (data : bytes) : Result Z :=
  match data with
  | b0 :: b1 :: b2 :: b3 :: _ =>
      Ok (b0 * 2 ^ 24 + b1 * 2 ^ 16 + b2 * 2 ^ 8 + b3)%Z
  | _ => Throw RangeError
  end.

(** [Buffer.concat(list, totalLength)]: the concatenation, cut or
    zero-filled to [totalLength]. *)
Definition Buffer_concat (bufs : list bytes) (totalLength : nat) : bytes :=
  resize totalLength 0%Z (concat bufs).

(** [Buffer.alloc(n, 0)] *)
Definition Buffer_alloc (n : nat) : bytes := replicate n 0%Z.

(** [data.slice(start, end)] *)
Definition slice (data : bytes) (start stop : nat) : bytes :=
  take (stop - start) (drop start data).

Definition padPacket (data : bytes) : Result bytes :=
  match writeUInt32BE (length data) with
  | Throw e => Throw e
  | Ok lengthBuffer =>
      let totalLength := 4 + length data in
      let paddedLength := ceil_div totalLength PACKET_SIZE * PACKET_SIZE in
      let paddingLength := paddedLength - totalLength in
      let padding := Buffer_alloc paddingLength in
      Ok (Buffer_concat [lengthBuffer; data; padding] paddedLength)
  end.

Definition removePacketPadding (data : bytes) : Result bytes :=
  if decide (length data < 4) then
    Throw (Error "Invalid packet: too short for length prefix")
  else
    match readUInt32BE data with
    | Throw e => Throw e
    | Ok len =>
        if decide (Z.of_nat (length data - 4) < len)%Z then
          Throw (Error "Invalid packet: length prefix exceeds data size")
        else Ok (slice data 4 (4 + Z.to_nat len))
    end.

End Framer.

(** ** The older framer: padding without a length prefix *)

Module LegacyFramer.

Definition PACKET_SIZE : nat := 256.

(** What [sodium.randombytes_buf] is called with. *)
Inductive Argument : Type :=
  | Number (n : nat)
  | Buffer (b : bytes).

(** [sodium.randombytes_buf(length)] of libsodium-wrappers returns a new
    buffer of [length] random bytes, [filled length] here, and throws a
    [TypeError] when [length] is not an unsigned integer. *)
Definition randombytes_buf (filled : nat -> bytes) (len : Argument) : Result bytes :=
  match len with
  | Number n => Ok (resize n 0%Z (filled n))
  | Buffer _ => Throw TypeError
  end.

(** [padPacket] passes the zeroed padding buffer itself and drops what the
    call returns. *)
Definition padPacket (filled : nat -> bytes) (data : bytes) : Result bytes :=
  let currentSize := length data in
  let targetSize := Framer.ceil_div currentSize PACKET_SIZE * PACKET_SIZE in
  let padding := replicate (targetSize - currentSize) 0%Z in
  match randombytes_buf filled (Buffer padding) with
  | Ok _ => Ok (data ++ padding)
  | Throw e => Throw e
  end.

End LegacyFramer.

(** ** The network manager with peer verification *)

Module Network.
Import Framer.

Abbreviation Socket := nat.

(** What [JSON.parse] returns. *)
#[warnings="-register-all"]
Inductive Json : Type :=
  | JNull
  | JBool (b : bool)
  | JNum (z : Z)
  | JStr (s : string)
  | JArr (items : list Json)
  | JObj (fields : list (string * Json)).

(** The platform codec: [Buffer.from(JSON.stringify(v))],
    [JSON.parse(buf.toString())] ([None] is a [SyntaxError]), and
    [new Uint8Array(v)] for a parsed property ([None] is [undefined]). *)
Class Wire := {
  JSON_stringify : Json -> bytes;
  JSON_parse : bytes -> option Json;
  Uint8Array_of : option Json -> bytes;
}.

(** [sodium.crypto_auth] and [sodium.crypto_auth_verify]. *)
Class Auth := {
  crypto_auth : bytes -> bytes -> bytes;
  crypto_auth_verify : bytes -> bytes -> bytes -> bool;
}.

Record Verification := {
  challenge : bytes;
  timeout : nat;
}.

Record VerifiedPeer := {
  verifiedAt : Z;
  verifiedChallenge : bytes;
}.

Record NetworkManager := {
  sockets : gset Socket;
  verifiedPeers : gmap Socket VerifiedPeer;
  pendingVerifications : gmap Socket Verification;
  isConnected : bool;
  reconnectTimer : bool;       (* a reconnect is scheduled *)
  connectionTimeout : bool;    (* the connection timeout is armed *)
  roomPSK : option bytes;
}.

(** What a handler does to the outside world, in order. *)
Inductive Effect : Type :=
  | SocketWrite (socket : Socket) (frame : bytes)
  | OnMessage (message : Json)
  | ClearTimeout (timer : nat)
  | ScheduleReconnect          (* [setTimeout] of the reconnect callback, 5000 ms *)
  | SwarmRejoin                (* the call [this.swarm.rejoin()] *)
  | Console (text : string).

(** [value.key] on a parsed value: a [TypeError] on [null], [undefined]
    ([None]) when the property is absent. *)
Definition get_prop (value : Json) (key : string) : Result (option Json) :=
  match value with
  | JNull => Throw TypeError
  | JObj fields => Ok (snd <$> find (fun kv => bool_decide (fst kv = key)) fields)
  | _ => Ok None
  end.

(** [v === text] *)
Definition is_str (v : option Json) (text : string) : bool :=
  match v with
  | Some (JStr s) => bool_decide (s = text)
  | _ => false
  end.

Definition Array_from (b : bytes) : Json := JArr (JNum <$> b).

(** [attemptReconnect()]: arms the timer unless one is pending.  The
    callback it hands to [setTimeout] is [onReconnectTimeout] below. *)
Definition attemptReconnect (nm : NetworkManager) : NetworkManager * list Effect :=
  if reconnectTimer nm then (nm, [])
  else ({| sockets := sockets nm; verifiedPeers := verifiedPeers nm;
           pendingVerifications := pendingVerifications nm;
           isConnected := isConnected nm; reconnectTimer := true;
           connectionTimeout := connectionTimeout nm; roomPSK := roomPSK nm |},
        [ScheduleReconnect]).

(** The callback [attemptReconnect] hands to [setTimeout], run when the
    timer fires.  [swarm] tells whether [this.swarm] is set and [rejoin] is
    the outcome of [this.swarm.rejoin()]; an exception of that call ends up
    in the [catch], and the [finally] block resets the timer field
    whatever happened. *)
Definition onReconnectTimeout (nm : NetworkManager) (swarm : bool)
    (rejoin : Result unit) : NetworkManager * list Effect :=
  let attempt :=
    if swarm && negb (isConnected nm) then
      Console "Attempting to reconnect..." :: SwarmRejoin ::
        match rejoin with
        | Ok _ => []
        | Throw _ => [Console "Reconnection attempt failed:"]
        end
    else [] in
  ({| sockets := sockets nm; verifiedPeers := verifiedPeers nm;
      pendingVerifications := pendingVerifications nm;
      isConnected := isConnected nm; reconnectTimer := false;
      connectionTimeout := connectionTimeout nm; roomPSK := roomPSK nm |},
   attempt).

Definition handlePeerDisconnect (nm : NetworkManager) (socket : Socket)
  : NetworkManager * list Effect :=
  let remaining := sockets nm ∖ {[socket]} in
  let nm1 := {| sockets := remaining; verifiedPeers := verifiedPeers nm;
                pendingVerifications := pendingVerifications nm;
                isConnected := isConnected nm; reconnectTimer := reconnectTimer nm;
                connectionTimeout := connectionTimeout nm; roomPSK := roomPSK nm |} in
  let '(nm2, effs) :=
    if decide (size remaining = 0) then
      attemptReconnect
        {| sockets := remaining; verifiedPeers := verifiedPeers nm;
           pendingVerifications := pendingVerifications nm;
           isConnected := false; reconnectTimer := reconnectTimer nm;
           connectionTimeout := connectionTimeout nm; roomPSK := roomPSK nm |}
    else (nm1, []) in
  ({| sockets := sockets nm2; verifiedPeers := verifiedPeers nm2;
      pendingVerifications := pendingVerifications nm2;
      isConnected := isConnected nm2; reconnectTimer := reconnectTimer nm2;
      connectionTimeout := false; roomPSK := roomPSK nm2 |}, effs).

Section Handlers.
Context {wire : Wire} {auth : Auth}.

(** [socket.write(this.padPacket(Buffer.from(JSON.stringify(obj))))]; the
    enclosing [try] turns an exception into a console line. *)
Definition write_padded (socket : Socket) (obj : Json) (failure : string)
  : list Effect :=
  match padPacket (JSON_stringify obj) with
  | Ok frame => [SocketWrite socket frame]
  | Throw _ => [Console failure]
  end.

(** [verifyPeer(socket, challenge, response)]; the [challenge] argument is
    not read, the stored one is. *)
Definition verifyPeer (nm : NetworkManager) (socket : Socket)
    (challenge_ : option Json) (response : option Json) (now : Z)
  : bool * NetworkManager * list Effect :=
  match pendingVerifications nm !! socket with
  | None => (false, nm, [Console "No pending verification for peer"])
  | Some verification =>
      let nm1 := {| sockets := sockets nm; verifiedPeers := verifiedPeers nm;
                    pendingVerifications := delete socket (pendingVerifications nm);
                    isConnected := isConnected nm; reconnectTimer := reconnectTimer nm;
                    connectionTimeout := connectionTimeout nm; roomPSK := roomPSK nm |} in
      let cleared := ClearTimeout (timeout verification) in
      match roomPSK nm with
      | None => (false, nm1, [cleared; Console "Peer verification failed:"])
      | Some psk =>
          if crypto_auth_verify (Uint8Array_of response) (challenge verification) psk then
            let nm2 := {| sockets := sockets nm1 ∪ {[socket]};
                          verifiedPeers :=
                            <[socket := {| verifiedAt := now;
                                           verifiedChallenge := challenge verification |}]>
                              (verifiedPeers nm1);
                          pendingVerifications := pendingVerifications nm1;
                          isConnected := true; reconnectTimer := reconnectTimer nm1;
                          connectionTimeout := connectionTimeout nm1;
                          roomPSK := roomPSK nm1 |} in
            match padPacket (JSON_stringify
                               (JObj [("type", JStr "verification_success");
                                      ("timestamp", JNum now)])) with
            | Ok frame => (true, nm2, [cleared; SocketWrite socket frame])
            | Throw _ => (false, nm2, [cleared; Console "Peer verification failed:"])
            end
          else (false, nm1, [cleared])
      end
  end.

Definition handleVerificationChallenge (nm : NetworkManager) (socket : Socket)
    (challenge : option Json) : list Effect :=
  match roomPSK nm with
  | None => [Console "Failed to handle verification challenge:"]
  | Some psk =>
      let response := crypto_auth (Uint8Array_of challenge) psk in
      write_padded socket
        (JObj [("type", JStr "verification_response");
               ("response", Array_from response)])
        "Failed to handle verification challenge:"
  end.

Definition handleKeepAlive (socket : Socket) (now : Z) : list Effect :=
  write_padded socket
    (JObj [("type", JStr "keepalive_ack"); ("timestamp", JNum now)])
    "Failed to handle keep-alive:".

(** The decoded [message] of an inbound frame and its [type] property;
    an exception on the way ends up in the handler's [catch]. *)
Definition decode_frame (data : bytes) : Result (Json * option Json) :=
  match removePacketPadding data with
  | Throw e => Throw e
  | Ok unpadded =>
      match JSON_parse unpadded with
      | None => Throw SyntaxError
      | Some message =>
          match get_prop message "type" with
          | Throw e => Throw e
          | Ok ty => Ok (message, ty)
          end
      end
  end.

Definition prop_or_undefined (message : Json) (key : string) : option Json :=
  match get_prop message key with
  | Ok v => v
  | Throw _ => None
  end.

Definition handleIncomingData (nm : NetworkManager) (data : bytes)
    (socket : Socket) (now : Z) : NetworkManager * list Effect :=
  match decode_frame data with
  | Throw _ => (nm, [Console "Failed to process incoming data:"])
  | Ok (message, ty) =>
      if is_str ty "verification_challenge" then
        (nm, handleVerificationChallenge nm socket (prop_or_undefined message "challenge"))
      else if is_str ty "verification_response" then
        let '(isValid, nm1, effs) :=
          verifyPeer nm socket (prop_or_undefined message "challenge")
            (prop_or_undefined message "response") now in
        if isValid then (nm1, effs)
        else
          let '(nm2, effs2) := handlePeerDisconnect nm1 socket in
          (nm2, effs ++ Console "Invalid verification response" :: effs2)
      else if decide (verifiedPeers nm !! socket = None) then
        (nm, [Console "Received message from unverified peer"])
      else if is_str ty "keepalive" then
        (nm, handleKeepAlive socket now)
      else (nm, [OnMessage message])
  end.

(** The ['connection'] handler of the swarm: stores the pending
    verification and sends the challenge.  [challenge] is the output of
    [sodium.randombytes_buf(32)], [timer] the armed timeout. *)
Definition onConnection (nm : NetworkManager) (socket : Socket)
    (challenge : bytes) (timer : nat) : NetworkManager * list Effect :=
  let nm1 := {| sockets := sockets nm; verifiedPeers := verifiedPeers nm;
                pendingVerifications :=
                  <[socket := {| Network.challenge := challenge; timeout := timer |}]>
                    (pendingVerifications nm);
                isConnected := isConnected nm; reconnectTimer := reconnectTimer nm;
                connectionTimeout := connectionTimeout nm; roomPSK := roomPSK nm |} in
  (nm1, write_padded socket
          (JObj [("type", JStr "verification_challenge");
                 ("challenge", Array_from challenge)])
          "Failed to handle new connection:").

(** [obj.key = v] on an object. *)
Fixpoint set_prop (fields : list (string * Json)) (key : string) (v : Json)
  : list (string * Json) :=
  match fields with
  | [] => [(key, v)]
  | (k, x) :: rest =>
      if bool_decide (k = key) then (k, v) :: rest else (k, x) :: set_prop rest key v
  end.

(** [addJitter(timestamp)], with [jitter] the value of
    [(Math.random() * JITTER_MAX * 2) - JITTER_MAX]. *)
Definition addJitter (timestamp jitter : Z) : Z := (timestamp + jitter)%Z.

(** [broadcastKeepAlive()]; the sockets accept the write. *)
Definition broadcastKeepAlive (nm : NetworkManager) (now jitter : Z) : Result (list Effect) :=
  match padPacket (JSON_stringify
                     (JObj [("type", JStr "keepalive");
                            ("timestamp", JNum (addJitter now jitter))])) with
  | Throw e => Throw e
  | Ok keepAlive => Ok ((fun socket => SocketWrite socket keepAlive) <$> elements (sockets nm))
  end.

(** [sendMessage(message)] for a message object; the sockets accept the
    write. *)
Definition sendMessage (nm : NetworkManager) (message : list (string * Json))
    (now jitter : Z) : Result (list Effect) :=
  if negb (isConnected nm) then Throw (Error "Not connected to any peers")
  else
    let stamped := set_prop message "timestamp" (JNum (addJitter now jitter)) in
    match padPacket (JSON_stringify (JObj stamped)) with
    | Throw e => Throw e
    | Ok messageBuffer =>
        Ok ((fun socket => SocketWrite socket messageBuffer) <$> elements (sockets nm))
    end.

(** Every frame among the effects has a length that is a multiple of 256. *)
Definition padded_writes (effs : list Effect) : Prop :=
  forall socket frame, SocketWrite socket frame ∈ effs -> length frame mod 256 = 0.

(** Whether an inbound frame decodes to a verification message. *)
Definition is_verification_frame (data : bytes) : bool :=
  match decode_frame data with
  | Ok (_, ty) => is_str ty "verification_challenge" || is_str ty "verification_response"
  | Throw _ => false
  end.

Definition delivers (e : Effect) : bool :=
  match e with OnMessage _ => true | _ => false end.

Definition writes (e : Effect) : bool :=
  match e with SocketWrite _ _ => true | _ => false end.

End Handlers.

End Network.

(** ** The crypto worker: ratchet state, encryption, decryption *)

Module Worker.

Definition RATCHET_MESSAGES : nat := 100.
Definition JITTER_MAX : Z := 250.

(** A reference to a [Uint8Array] in the worker's heap. *)
Abbreviation ref := nat.

(** The plaintext as [JSON.stringify] sees it: a text, or the bytes of a
    [Uint8Array] (the keep-alive filler). *)
Inductive Content : Type :=
  | Text (s : string)
  | Payload (b : bytes).

(** The object that is serialised and encrypted.  The timestamp is in
    milliseconds, the counter is a natural number.  [dhKey] is what
    [JSON.parse] made of the property: the [Array] of numbers that
    [Array.from] left there, or [None] when the parsed object has no
    truthy [dhKey]. *)
Record Message := {
  content : Content;
  timestamp : Z;
  counter : nat;
  dhKey : option bytes;
}.

(** The wire envelope: three arrays of numbers. *)
Record Envelope := {
  nonce : bytes;
  cipher : bytes;
  sig : bytes;
}.

(** *** The library

    [libsodium-wrappers] checks the arguments of a call before it runs the
    primitive: an argument that has to be a buffer of a given length is a
    [TypeError] when it is [null], [undefined], a plain [Array] or a buffer
    of another length.  The checks are written out below ([sized],
    [kx_client_session_keys], [kdf_derive_from_key], [aead_encrypt],
    [aead_decrypt], [sign_detached], [sign_verify_detached], [memcmp]);
    the primitives behind them are an interface. *)

Definition crypto_kx_PUBLICKEYBYTES : nat := 32.
Definition crypto_kx_SECRETKEYBYTES : nat := 32.
Definition crypto_kdf_KEYBYTES : nat := 32.
Definition crypto_aead_xchacha20poly1305_ietf_NPUBBYTES : nat := 24.
Definition crypto_aead_xchacha20poly1305_ietf_KEYBYTES : nat := 32.
Definition crypto_aead_xchacha20poly1305_ietf_ABYTES : nat := 16.
Definition crypto_sign_BYTES : nat := 64.
Definition crypto_sign_PUBLICKEYBYTES : nat := 32.
Definition crypto_sign_SECRETKEYBYTES : nat := 64.

(** The primitives, as functions of buffer contents that have passed the
    checks.  [crypto_kx_keypair] and [randombytes_buf] read the generator
    at a draw position.  [None] is where the library throws: the key
    agreement on a public key it refuses, the key derivation on a context
    it does not take (it documents contexts of 8 bytes), the AEAD on a
    ciphertext that does not open under the key. *)
Class Sodium := {
  crypto_kx_keypair : nat -> bytes * bytes;  (* publicKey, privateKey *)
  crypto_kx_client_session_keys :
    bytes -> bytes -> bytes -> option (bytes * bytes);  (* sharedRx, sharedTx *)
  crypto_kdf_derive_from_key : nat -> nat -> string -> bytes -> option bytes;
  randombytes_buf : nat -> nat -> bytes;
  crypto_aead_xchacha20poly1305_ietf_encrypt : bytes -> bytes -> bytes -> bytes;
  crypto_aead_xchacha20poly1305_ietf_decrypt : bytes -> bytes -> bytes -> option bytes;
  crypto_sign_detached : bytes -> bytes -> bytes;
  crypto_sign_verify_detached : bytes -> bytes -> bytes -> bool;
}.

(** The host: the clock and [Math.random] at a draw position, and the
    codec [sodium.from_string(JSON.stringify(m))] /
    [JSON.parse(sodium.to_string(buf))], typed: a plaintext parses to a
    message object or does not parse ([None], a [SyntaxError]). *)
Class Host := {
  Date_now : nat -> Z;
  Math_random_times : nat -> Z -> Z;  (* Math.random() * n *)
  JSON_stringify : Message -> bytes;
  JSON_parse : bytes -> option Message;
}.

Record KeyPair := {
  publicKey : ref;
  privateKey : ref;
}.

(** The object [crypto_kx_client_session_keys] returns. *)
Record SessionKeys := {
  sharedRx : ref;
  sharedTx : ref;
}.

(** [sharedSecret[name]]: [undefined] ([None]) for a property the object
    does not have. *)
Definition property (sharedSecret : SessionKeys) (name : string) : option ref :=
  if String.eqb name "sharedRx" then Some (sharedRx sharedSecret)
  else if String.eqb name "sharedTx" then Some (sharedTx sharedSecret)
  else None.

(** The ratchet.  A key field refers to a buffer, or is [None]: [null],
    or [undefined] where one was assigned -- the library refuses both
    alike and both are falsy.  [seenMessages] holds the ids
    [`${counter}-${timestamp}`]; a counter has no ['-'] in it, so the id
    determines the pair and the set is kept as a set of pairs. *)
Record DoubleRatchet := {
  rootKey : option ref;
  sendingKey : option ref;
  receivingKey : option ref;
  dhKeyPair : option KeyPair;
  remotePublicKey : option ref;
  messagesSent : nat;
  messagesReceived : nat;
  seenMessages : gset (nat * Z);
}.

(** The constructor. *)
Definition new_DoubleRatchet : DoubleRatchet :=
  {| rootKey := None; sendingKey := None; receivingKey := None;
     dhKeyPair := None; remotePublicKey := None;
     messagesSent := 0; messagesReceived := 0; seenMessages := ∅ |}.

(** The worker's global state: the heap of byte buffers, the singleton
    [ratchet], the number of draws made from the generator and the clock,
    and whether the keep-alive interval is armed. *)
Record World := {
  heap : list bytes;
  ratchet : DoubleRatchet;
  draws : nat;
  keepAliveInterval : bool;
}.

(** The worker when its script has run: a new ratchet, no interval. *)
Definition started : World :=
  {| heap := []; ratchet := new_DoubleRatchet; draws := 0;
     keepAliveInterval := false |}.

Definition with_heap (h : list bytes) (w : World) : World :=
  {| heap := h; ratchet := ratchet w; draws := draws w;
     keepAliveInterval := keepAliveInterval w |}.
Definition with_ratchet (r : DoubleRatchet) (w : World) : World :=
  {| heap := heap w; ratchet := r; draws := draws w;
     keepAliveInterval := keepAliveInterval w |}.
Definition with_draws (n : nat) (w : World) : World :=
  {| heap := heap w; ratchet := ratchet w; draws := n;
     keepAliveInterval := keepAliveInterval w |}.
Definition with_keepAliveInterval (b : bool) (w : World) : World :=
  {| heap := heap w; ratchet := ratchet w; draws := draws w;
     keepAliveInterval := b |}.

Definition set_dhKeyPair (v : option KeyPair) (r : DoubleRatchet) : DoubleRatchet :=
  {| rootKey := rootKey r; sendingKey := sendingKey r; receivingKey := receivingKey r;
     dhKeyPair := v; remotePublicKey := remotePublicKey r;
     messagesSent := messagesSent r; messagesReceived := messagesReceived r;
     seenMessages := seenMessages r |}.
Definition set_rootKey (v : option ref) (r : DoubleRatchet) : DoubleRatchet :=
  {| rootKey := v; sendingKey := sendingKey r; receivingKey := receivingKey r;
     dhKeyPair := dhKeyPair r; remotePublicKey := remotePublicKey r;
     messagesSent := messagesSent r; messagesReceived := messagesReceived r;
     seenMessages := seenMessages r |}.
Definition set_sendingKey (v : option ref) (r : DoubleRatchet) : DoubleRatchet :=
  {| rootKey := rootKey r; sendingKey := v; receivingKey := receivingKey r;
     dhKeyPair := dhKeyPair r; remotePublicKey := remotePublicKey r;
     messagesSent := messagesSent r; messagesReceived := messagesReceived r;
     seenMessages := seenMessages r |}.
Definition set_receivingKey (v : option ref) (r : DoubleRatchet) : DoubleRatchet :=
  {| rootKey := rootKey r; sendingKey := sendingKey r; receivingKey := v;
     dhKeyPair := dhKeyPair r; remotePublicKey := remotePublicKey r;
     messagesSent := messagesSent r; messagesReceived := messagesReceived r;
     seenMessages := seenMessages r |}.
Definition set_remotePublicKey (v : option ref) (r : DoubleRatchet) : DoubleRatchet :=
  {| rootKey := rootKey r; sendingKey := sendingKey r; receivingKey := receivingKey r;
     dhKeyPair := dhKeyPair r; remotePublicKey := v;
     messagesSent := messagesSent r; messagesReceived := messagesReceived r;
     seenMessages := seenMessages r |}.
Definition set_messagesSent (v : nat) (r : DoubleRatchet) : DoubleRatchet :=
  {| rootKey := rootKey r; sendingKey := sendingKey r; receivingKey := receivingKey r;
     dhKeyPair := dhKeyPair r; remotePublicKey := remotePublicKey r;
     messagesSent := v; messagesReceived := messagesReceived r;
     seenMessages := seenMessages r |}.
Definition set_messagesReceived (v : nat) (r : DoubleRatchet) : DoubleRatchet :=
  {| rootKey := rootKey r; sendingKey := sendingKey r; receivingKey := receivingKey r;
     dhKeyPair := dhKeyPair r; remotePublicKey := remotePublicKey r;
     messagesSent := messagesSent r; messagesReceived := v;
     seenMessages := seenMessages r |}.
Definition set_seenMessages (v : gset (nat * Z)) (r : DoubleRatchet) : DoubleRatchet :=
  {| rootKey := rootKey r; sendingKey := sendingKey r; receivingKey := receivingKey r;
     dhKeyPair := dhKeyPair r; remotePublicKey := remotePublicKey r;
     messagesSent := messagesSent r; messagesReceived := messagesReceived r;
     seenMessages := v |}.

(** *** Computations of the worker: state and exceptions

    A thrown exception keeps the state changes made before it. *)
Definition M (A : Type) : Type := World -> Result A * World.

Definition ret {A} (a : A) : M A := fun w => (Ok a, w).
Definition throw {A} (e : Exn) : M A := fun w => (Throw e, w).
Definition bind {A B} (m : M A) (k : A -> M B) : M B :=
  fun w => match m w with
           | (Ok a, w') => k a w'
           | (Throw e, w') => (Throw e, w')
           end.

Notation "'let!' x := m 'in' k" := (bind m (fun x => k))
  (at level 10, x name, m at level 100, k at level 200, only parsing).
Notation "'do!' m 'in' k" := (bind m (fun _ => k))
  (at level 10, m at level 100, k at level 200, only parsing).

(** [new Uint8Array(...)]: a fresh buffer. *)
Definition alloc (b : bytes) : M ref :=
  fun w => (Ok (length (heap w)), with_heap (heap w ++ [b]) w).

(** Reading a buffer handed to the library; [null] or [undefined] is a
    [TypeError]. *)
Definition deref (r : option ref) : M bytes :=
  fun w => match r with
           | Some a => match heap w !! a with
                       | Some b => (Ok b, w)
                       | None => (Throw TypeError, w)
                       end
           | None => (Throw TypeError, w)
           end.

(** An argument that has to be a buffer of [n] bytes. *)
Definition sized (n : nat) (r : option ref) : M bytes :=
  let! b := deref r in
  if decide (length b = n) then ret b else throw TypeError.

(** [sodium.memzero(key)]: zeroes the buffer in place. *)
Definition memzero (key : ref) : M unit :=
  fun w => (Ok tt, with_heap (alter (fun b => replicate (length b) 0%Z) key (heap w)) w).

Definition draw : M nat :=
  fun w => (Ok (draws w), with_draws (S (draws w)) w).

Definition this : M DoubleRatchet := fun w => (Ok (ratchet w), w).
Definition assign (f : DoubleRatchet -> DoubleRatchet) : M unit :=
  fun w => (Ok tt, with_ratchet (f (ratchet w)) w).

Definition when (c : bool) (m : M unit) : M unit := if c then m else ret tt.

(** What reaches [sodium.memcmp]: a [Uint8Array] of the ratchet (or
    [null]), or the [Array] that [JSON.parse] returned. *)
Inductive Operand : Type :=
  | Typed (r : option ref)
  | Parsed (a : bytes).

(** [sodium.memcmp(b1, b2)]: a [TypeError] unless both are [Uint8Array]s
    of one length. *)
Definition memcmp (b1 b2 : Operand) : M bool :=
  match b1, b2 with
  | Typed r1, Typed r2 =>
      let! x := deref r1 in
      let! y := deref r2 in
      if decide (length x = length y) then ret (bool_decide (x = y))
      else throw TypeError
  | _, _ => throw TypeError
  end.

Section Operations.
Context {sodium : Sodium} {host : Host}.

Definition kx_keypair : M KeyPair :=
  let! e := draw in
  let! pub := alloc (fst (crypto_kx_keypair e)) in
  let! priv := alloc (snd (crypto_kx_keypair e)) in
  ret {| publicKey := pub; privateKey := priv |}.

(** [sodium.crypto_kx_client_session_keys(clientPublicKey,
    clientSecretKey, serverPublicKey)] *)
Definition kx_client_session_keys (clientPublicKey clientSecretKey : ref)
    (serverPublicKey : option ref) : M SessionKeys :=
  let! pk := sized crypto_kx_PUBLICKEYBYTES (Some clientPublicKey) in
  let! sk := sized crypto_kx_SECRETKEYBYTES (Some clientSecretKey) in
  let! spk := sized crypto_kx_PUBLICKEYBYTES serverPublicKey in
  match crypto_kx_client_session_keys pk sk spk with
  | None => throw (SodiumError "invalid usage")
  | Some shared =>
      let! rx := alloc (fst shared) in
      let! tx := alloc (snd shared) in
      ret {| sharedRx := rx; sharedTx := tx |}
  end.

(** [sodium.crypto_kdf_derive_from_key(subkey_len, subkey_id, ctx, key)] *)
Definition kdf_derive_from_key (subkey_len subkey_id : nat) (ctx : string)
    (key : option ref) : M ref :=
  let! k := sized crypto_kdf_KEYBYTES key in
  match crypto_kdf_derive_from_key subkey_len subkey_id ctx k with
  | Some subkey => alloc subkey
  | None => throw TypeError
  end.

(** [sodium.crypto_aead_xchacha20poly1305_ietf_encrypt(message, null,
    null, npub, key)] *)
Definition aead_encrypt (message npub : bytes) (key : ref) : M bytes :=
  if decide (length npub = crypto_aead_xchacha20poly1305_ietf_NPUBBYTES) then
    let! k := sized crypto_aead_xchacha20poly1305_ietf_KEYBYTES (Some key) in
    ret (crypto_aead_xchacha20poly1305_ietf_encrypt message npub k)
  else throw TypeError.

(** [sodium.crypto_aead_xchacha20poly1305_ietf_decrypt(null, ciphertext,
    null, npub, key)] *)
Definition aead_decrypt (ciphertext npub : bytes) (key : ref) : M bytes :=
  if decide (length ciphertext < crypto_aead_xchacha20poly1305_ietf_ABYTES) then
    throw TypeError
  else if decide (length npub = crypto_aead_xchacha20poly1305_ietf_NPUBBYTES) then
    let! k := sized crypto_aead_xchacha20poly1305_ietf_KEYBYTES (Some key) in
    match crypto_aead_xchacha20poly1305_ietf_decrypt ciphertext npub k with
    | Some message => ret message
    | None => throw (SodiumError "ciphertext cannot be decrypted using that key")
    end
  else throw TypeError.

(** [sodium.crypto_sign_detached(message, privateKey)] *)
Definition sign_detached (message : bytes) (privateKey : ref) : M bytes :=
  let! sk := sized crypto_sign_SECRETKEYBYTES (Some privateKey) in
  ret (crypto_sign_detached message sk).

(** [sodium.crypto_sign_verify_detached(signature, message, publicKey)] *)
Definition sign_verify_detached (signature message : bytes)
    (publicKey : option ref) : M bool :=
  if decide (length signature = crypto_sign_BYTES) then
    let! pk := sized crypto_sign_PUBLICKEYBYTES publicKey in
    ret (crypto_sign_verify_detached signature message pk)
  else throw TypeError.

(** [DoubleRatchet.initialize(preKeyBundle)]; the argument is the buffer
    that the RPC handler makes of the bundle. *)
Definition initialize (preKeyBundle : bytes) : M unit :=
  let! bundle := alloc preKeyBundle in
  let! keys := kx_keypair in
  do! assign (set_dhKeyPair (Some keys)) in
  let! sharedSecret :=
    kx_client_session_keys (publicKey keys) (privateKey keys) (Some bundle) in
  do! assign (set_rootKey (property sharedSecret "rx")) in
  let! r1 := this in
  let! sending := kdf_derive_from_key 32 1 "sending" (rootKey r1) in
  do! assign (set_sendingKey (Some sending)) in
  let! r2 := this in
  let! receiving := kdf_derive_from_key 32 2 "receiving" (rootKey r2) in
  assign (set_receivingKey (Some receiving)).

(** [DoubleRatchet.rotateRatchet()] *)
Definition rotateRatchet : M unit :=
  let! newDHPair := kx_keypair in
  let! r := this in
  let! sharedSecret :=
    kx_client_session_keys (publicKey newDHPair) (privateKey newDHPair)
      (remotePublicKey r) in
  do! assign (set_dhKeyPair (Some newDHPair)) in
  do! assign (set_rootKey (property sharedSecret "rx")) in
  let! r1 := this in
  let! sending := kdf_derive_from_key 32 1 "sending" (rootKey r1) in
  do! assign (set_sendingKey (Some sending)) in
  let! r2 := this in
  let! receiving := kdf_derive_from_key 32 2 "receiving" (rootKey r2) in
  do! assign (set_receivingKey (Some receiving)) in
  do! assign (set_messagesSent 0) in
  assign (set_messagesReceived 0).

(** [DoubleRatchet.deriveMessageKey(key, counter)] *)
Definition deriveMessageKey (key : option ref) (counter : nat) : M ref :=
  kdf_derive_from_key 32 counter "msg" key.

(** [DoubleRatchet.wipeKey(key)] *)
Definition wipeKey (key : ref) : M unit := memzero key.

(** [addJitter(timestamp)] *)
Definition addJitter (timestamp : Z) : M Z :=
  let! e := draw in
  let jitter := (Math_random_times e (JITTER_MAX * 2) - JITTER_MAX)%Z in
  ret (timestamp + jitter)%Z.

Definition now : M Z := let! e := draw in ret (Date_now e).

Definition randombytes (n : nat) : M bytes := let! e := draw in ret (randombytes_buf n e).

Definition the_dhKeyPair : M KeyPair :=
  let! r := this in
  match dhKeyPair r with
  | Some keys => ret keys
  | None => throw TypeError
  end.

(** [encryptMessage(plaintext, isKeepalive)] *)
Definition encryptMessage (plaintext : Content) (isKeepalive : bool) : M Envelope :=
  let! r0 := this in
  do! when (negb isKeepalive && bool_decide (RATCHET_MESSAGES <= messagesSent r0))
       rotateRatchet in
  let! r := this in
  let! messageKey := deriveMessageKey (sendingKey r) (messagesSent r) in
  let! t := now in
  let! jittered := addJitter t in
  let! keys := the_dhKeyPair in
  let! pub := deref (Some (publicKey keys)) in
  let message := {| content := plaintext; timestamp := jittered;
                    counter := messagesSent r; dhKey := Some pub |} in
  let! nonce := randombytes crypto_aead_xchacha20poly1305_ietf_NPUBBYTES in
  let! cipher := aead_encrypt (JSON_stringify message) nonce messageKey in
  let! sig := sign_detached cipher (privateKey keys) in
  let envelope := {| nonce := nonce; cipher := cipher; sig := sig |} in
  do! when (negb isKeepalive) (assign (fun r => set_messagesSent (S (messagesSent r)) r)) in
  do! wipeKey messageKey in
  ret envelope.

(** [decryptMessage(envelope)].  The [dhKey] of the parsed message goes
    to [sodium.memcmp] as it is; the [Uint8Array] is made of it one line
    later. *)
Definition decryptMessage (envelope : Envelope) : M Content :=
  let! r := this in
  let! valid :=
    sign_verify_detached (sig envelope) (cipher envelope) (remotePublicKey r) in
  if negb valid then throw (Error "Invalid signature")
  else
    let! messageKey := deriveMessageKey (receivingKey r) (messagesReceived r) in
    let! plainBuf := aead_decrypt (cipher envelope) (nonce envelope) messageKey in
    match JSON_parse plainBuf with
    | None => throw SyntaxError
    | Some message =>
        let messageId := (counter message, timestamp message) in
        if bool_decide (messageId ∈ seenMessages r)
        then throw (Error "Message replay detected")
        else
          do! assign (fun r => set_seenMessages ({[messageId]} ∪ seenMessages r) r) in
          do! match dhKey message with
          | Some key =>
              let! r1 := this in
              let! same := memcmp (Parsed key) (Typed (remotePublicKey r1)) in
              when (negb same)
                   (let! fresh := alloc key in
                    do! assign (set_remotePublicKey (Some fresh)) in
                    rotateRatchet)
          | None => ret tt
          end in
          do! assign (fun r => set_messagesReceived (S (messagesReceived r)) r) in
          do! wipeKey messageKey in
          ret (content message)
    end.

(** The envelope around a message, as [encryptMessage] computes it: the
    ciphertext of the serialisation and the detached signature of the
    ciphertext. *)
Definition seal (message : Message) (nonce key priv : bytes) : Envelope :=
  let cipher :=
    crypto_aead_xchacha20poly1305_ietf_encrypt (JSON_stringify message) nonce key in
  {| nonce := nonce; cipher := cipher; sig := crypto_sign_detached cipher priv |}.

(** The body of the keep-alive interval callback; the envelope is what it
    posts, [None] when the [catch] swallowed an exception. *)
Definition keepAliveTick : World -> option Envelope * World :=
  fun w =>
    match (let! dummy := randombytes 32 in encryptMessage (Payload dummy) true) w with
    | (Ok encrypted, w') => (Some encrypted, w')
    | (Throw _, w') => (None, w')
    end.

Definition stopKeepAlive : M unit :=
  fun w => (Ok tt, with_keepAliveInterval false w).

Definition wipe_if_set (key : option ref) : M unit :=
  match key with
  | Some k => wipeKey k
  | None => ret tt
  end.

(** The [cleanup] case of the RPC handler, with the un-awaited [wipeKey]
    calls run to their end. *)
Definition cleanup : M unit :=
  do! stopKeepAlive in
  let! r := this in
  do! wipe_if_set (rootKey r) in
  do! wipe_if_set (sendingKey r) in
  wipe_if_set (receivingKey r).

(** *** Laws of the primitives

    Each is assumed only by the theorems that name it. *)

(** A sealed box opens under no other key. *)
Definition aead_key_binding : Prop :=
  forall m nonce key key',
    key' <> key ->
    crypto_aead_xchacha20poly1305_ietf_decrypt
      (crypto_aead_xchacha20poly1305_ietf_encrypt m nonce key) nonce key' = None.

(** Distinct subkey ids give distinct subkeys of a key. *)
Definition kdf_separates_ids : Prop :=
  forall id id' ctx key subkey,
    crypto_kdf_derive_from_key 32 id ctx key = Some subkey ->
    crypto_kdf_derive_from_key 32 id' ctx key = Some subkey ->
    id = id'.

End Operations.

(** Reading a key buffer of a world. *)
Definition buffer (w : World) (r : option ref) : option bytes :=
  r ≫= fun a => heap w !! a.

Definition all_zero (b : bytes) : Prop := b = replicate (length b) 0%Z.

(** A computation that only allocates, draws and wipes buffers it
    allocated itself leaves the ratchet and every earlier buffer as they
    were. *)
Definition frame (w0 w : World) : Prop :=
  ratchet w = ratchet w0 /\
  keepAliveInterval w = keepAliveInterval w0 /\
  forall a b, heap w0 !! a = Some b -> heap w !! a = Some b.

(** The message key [decryptMessage] derives in world [w]: the subkey of
    the receiving chain key whose id is the receive counter. *)
Definition receiving_message_key {sodium : Sodium} (w : World) : option bytes :=
  buffer w (receivingKey (ratchet w)) ≫= fun chain =>
    if decide (length chain = crypto_kdf_KEYBYTES)
    then crypto_kdf_derive_from_key 32 (messagesReceived (ratchet w)) "msg" chain
    else None.

(** What the library lets through of an envelope in world [w]: the
    signature has the length of a signature and verifies against the
    stored remote key, a buffer of the length of a public key. *)
Definition verifies {sodium : Sodium} (w : World) (env : Envelope) : Prop :=
  exists remote,
    buffer w (remotePublicKey (ratchet w)) = Some remote /\
    length remote = crypto_sign_PUBLICKEYBYTES /\
    length (sig env) = crypto_sign_BYTES /\
    crypto_sign_verify_detached (sig env) (cipher env) remote = true.

(** The conditions under which an envelope gets past the signature check,
    the AEAD and the parser in world [w], yielding the message [m]. *)
Definition opens {sodium : Sodium} {host : Host} (w : World) (env : Envelope)
    (m : Message) : Prop :=
  verifies w env /\
  exists messageKey plainBuf,
    receiving_message_key w = Some messageKey /\
    length messageKey = crypto_aead_xchacha20poly1305_ietf_KEYBYTES /\
    crypto_aead_xchacha20poly1305_ietf_ABYTES <= length (cipher env) /\
    length (nonce env) = crypto_aead_xchacha20poly1305_ietf_NPUBBYTES /\
    crypto_aead_xchacha20poly1305_ietf_decrypt (cipher env) (nonce env) messageKey
      = Some plainBuf /\
    JSON_parse plainBuf = Some m.

(** The buffers the [cleanup] operation passes to [wipeKey]. *)
Definition wiped_by_cleanup (r : DoubleRatchet) (a : ref) : bool :=
  bool_decide (rootKey r = Some a) || bool_decide (sendingKey r = Some a)
  || bool_decide (receivingKey r = Some a).

(** A worker that holds no chain key, no remote key and no armed
    interval, and has counted nothing: what [started] is. *)
Definition idle (w : World) : Prop :=
  rootKey (ratchet w) = None /\
  sendingKey (ratchet w) = None /\
  receivingKey (ratchet w) = None /\
  remotePublicKey (ratchet w) = None /\
  messagesSent (ratchet w) = 0 /\
  messagesReceived (ratchet w) = 0 /\
  seenMessages (ratchet w) = ∅ /\
  keepAliveInterval w = false.

End Worker.

(** ** A small executable instance of the interfaces

    Used to run the model on concrete states.  The primitives are not
    secure; they have the buffer lengths of the real ones and satisfy the
    laws the theorems below assume, as shown at the end of the file. *)

Module Toy.
Import Worker.

Fixpoint strip_prefix (p l : bytes) : option bytes :=
  match p, l with
  | [], _ => Some l
  | x :: p', y :: l' => if decide (x = y) then strip_prefix p' l' else None
  | _ :: _, [] => None
  end.

(** A sealed box starts with the key and the nonce it was sealed under. *)
Definition header (nonce key : bytes) : bytes :=
  Z.of_nat (length key) :: key ++ Z.of_nat (length nonce) :: nonce.

(** A signature is the first half of the 64-byte private key followed by
    32 bytes of the message; the public key is that first half. *)
Definition sodium : Sodium := {|
  crypto_kx_keypair e :=
    (replicate 32 (Z.of_nat e + 2), replicate 32 (Z.of_nat e + 1))%Z;
  crypto_kx_client_session_keys pk sk remote :=
    Some (resize 32 0 (1 :: take 8 sk ++ take 8 remote),
          resize 32 0 (2 :: take 8 sk ++ take 8 remote))%Z;
  crypto_kdf_derive_from_key len id ctx key :=
    Some (resize len 0%Z (Z.of_nat id :: Z.of_nat (String.length ctx) :: key));
  randombytes_buf n e := replicate n (Z.of_nat e + 11)%Z;
  crypto_aead_xchacha20poly1305_ietf_encrypt m nonce key := header nonce key ++ m;
  crypto_aead_xchacha20poly1305_ietf_decrypt c nonce key := strip_prefix (header nonce key) c;
  crypto_sign_detached c sk := take 32 sk ++ resize 32 0%Z c;
  crypto_sign_verify_detached sg c pk := bool_decide (sg = pk ++ resize 32 0%Z c);
|}.

Definition code_of_ascii (a : Ascii.ascii) : Z := Z.of_nat (Ascii.nat_of_ascii a).
Definition ascii_of_code (z : Z) : Ascii.ascii := Ascii.ascii_of_nat (Z.to_nat z).

Definition encode_content (c : Content) : bytes :=
  match c with
  | Text s => 0%Z :: Z.of_nat (length (String.list_ascii_of_string s))
                :: (code_of_ascii <$> String.list_ascii_of_string s)
  | Payload b => 1%Z :: Z.of_nat (length b) :: b
  end.

Definition stringify (m : Message) : bytes :=
  encode_content (content m)
    ++ timestamp m :: Z.of_nat (counter m)
    :: match dhKey m with Some k => 1%Z :: k | None => [0%Z] end.

Definition parse (l : bytes) : option Message :=
  match l with
  | tag :: n :: rest =>
      let body := take (Z.to_nat n) rest in
      match drop (Z.to_nat n) rest with
      | ts :: c :: flag :: key =>
          Some {| content := if decide (tag = 0%Z)
                             then Text (String.string_of_list_ascii (ascii_of_code <$> body))
                             else Payload body;
                  timestamp := ts;
                  counter := Z.to_nat c;
                  dhKey := if decide (flag = 1%Z) then Some key else None |}
      | _ => None
      end
  | _ => None
  end.

Definition host : Host := {|
  Date_now e := (1700000000000 + Z.of_nat e)%Z;
  Math_random_times e n := ((Z.of_nat e * 37) mod n)%Z;
  JSON_stringify := stringify;
  JSON_parse := parse;
|}.

(** A pre-key bundle of the length of a public key, and the worker after
    the [initialize] request with it. *)
Definition bundle : bytes := replicate 32 9%Z.

Definition initialized : World := snd (@initialize sodium bundle started).

(** Keys that no run of the worker installs, put in place by hand: a
    chain key, and a signing key pair of the lengths [crypto_sign] asks
    for. *)
Definition chain : bytes := replicate 32 7%Z.
Definition signer_public : bytes := replicate 32 4%Z.
Definition signer_private : bytes := signer_public ++ replicate 32 3%Z.

(** A worker that holds [chain] as its sending chain key, a key pair as
    [crypto_kx_keypair] makes them, a remote key and a root key, and has
    [sent] messages counted. *)
Definition sender (sent : nat) : World :=
  {| heap := [chain; replicate 32 4; replicate 32 3; replicate 32 9;
              replicate 32 8]%Z;
     ratchet := {| rootKey := Some 4; sendingKey := Some 0; receivingKey := None;
                   dhKeyPair := Some {| publicKey := 1; privateKey := 2 |};
                   remotePublicKey := Some 3;
                   messagesSent := sent; messagesReceived := 0;
                   seenMessages := ∅ |};
     draws := 0; keepAliveInterval := true |}.

(** A worker that holds [chain] as its receiving chain key and the
    signer's public key as remote key, with [received] messages counted
    and the replay set [seen]. *)
Definition receiver (received : nat) (seen : gset (nat * Z)) : World :=
  {| heap := [chain; signer_public];
     ratchet := {| rootKey := None; sendingKey := None; receivingKey := Some 0;
                   dhKeyPair := None; remotePublicKey := Some 1;
                   messagesSent := 0; messagesReceived := received;
                   seenMessages := seen |};
     draws := 50; keepAliveInterval := true |}.

(** The subkey of [chain] with id [c], and an envelope laid out as
    [encryptMessage] does it, sealed under that subkey and signed by the
    signer. *)
Definition message_key (c : nat) : bytes :=
  default [] (@crypto_kdf_derive_from_key sodium 32 c "msg" chain).

Definition envelope_of (m : Message) (c : nat) : Envelope :=
  @seal sodium host m (replicate 24 5%Z) (message_key c) signer_private.

(** A message as [encryptMessage] builds it, with the sender's public key
    in [dhKey], and the same message without that property. *)
Definition hello : Message :=
  {| content := Text "hi"; timestamp := 1700000000000; counter := 0;
     dhKey := Some signer_public |}.

Definition bare : Message :=
  {| content := Text "hi"; timestamp := 1700000000000; counter := 0;
     dhKey := None |}.

Definition first_envelope : Envelope := envelope_of hello 0.
Definition bare_envelope : Envelope := envelope_of bare 0.

(** The network side: a codec that knows four frames, and a keyed tag. *)
Definition wire : Network.Wire := {|
  Network.JSON_stringify _ := [];
  Network.JSON_parse b :=
    match b with
    | [1%Z] => Some (Network.JObj [("type", Network.JStr "keepalive")])
    | [2%Z] => Some (Network.JObj [("type", Network.JStr "verification_challenge");
                                   ("challenge", Network.JArr [Network.JNum 7])])
    | [3%Z] => Some (Network.JObj [("type", Network.JStr "message");
                                   ("text", Network.JStr "hi")])
    | [4%Z] => Some Network.JNull
    | _ => None
    end;
  Network.Uint8Array_of v :=
    match v with
    | Some (Network.JArr items) =>
        (fun i => match i with Network.JNum z => (z mod 256)%Z | _ => 0%Z end) <$> items
    | _ => []
    end;
|}.

Definition auth : Network.Auth := {|
  Network.crypto_auth m k := k ++ m;
  Network.crypto_auth_verify tag m k := bool_decide (tag = k ++ m);
|}.

Definition fresh_manager : Network.NetworkManager :=
  {| Network.sockets := ∅; Network.verifiedPeers := ∅;
     Network.pendingVerifications := ∅; Network.isConnected := false;
     Network.reconnectTimer := false; Network.connectionTimeout := true;
     Network.roomPSK := Some [5; 5]%Z |}.

End Toy.


(** ** Runs of the network manager *)

Module Session.
Import Framer Network.

Section Runs.
Context {wire : Wire} {auth : Auth}.

(** The three control objects of the handshake. *)
Definition challenge_object (challenge : bytes) : Json :=
  JObj [("type", JStr "verification_challenge"); ("challenge", Array_from challenge)].

Definition response_object (response : bytes) : Json :=
  JObj [("type", JStr "verification_response"); ("response", Array_from response)].

Definition success_object (now : Z) : Json :=
  JObj [("type", JStr "verification_success"); ("timestamp", JNum now)].

(** What the codec has to do for a value to travel in a frame: the
    serialisation fits the 32-bit length prefix and parses back to the
    value. *)
Definition travels (value : Json) : Prop :=
  (Z.of_nat (length (JSON_stringify value)) < 2 ^ 32)%Z /\
  JSON_parse (JSON_stringify value) = Some value.

(** A byte array survives [Array.from] followed by [new Uint8Array]. *)
Definition array_roundtrip (b : bytes) : Prop :=
  Uint8Array_of (Some (Array_from b)) = b.

(** ['end'] or ['error'] events on the sockets [ended], one after the
    other. *)
Fixpoint disconnect_all (nm : NetworkManager) (ended : list Socket)
  : NetworkManager * list Effect :=
  match ended with
  | [] => (nm, [])
  | socket :: rest =>
      let '(nm1, effs1) := handlePeerDisconnect nm socket in
      let '(nm2, effs2) := disconnect_all nm1 rest in
      (nm2, effs1 ++ effs2)
  end.

(** The callback of the verification timeout that the connection handler
    arms for a socket. *)
Definition onVerificationTimeout (nm : NetworkManager) (socket : Socket)
  : NetworkManager * list Effect :=
  if decide (is_Some (pendingVerifications nm !! socket)) then
    let '(nm1, effs) := handlePeerDisconnect nm socket in
    (nm1, Console "Peer verification timeout" :: effs)
  else (nm, []).

Definition schedules (e : Effect) : bool :=
  match e with ScheduleReconnect => true | _ => false end.

(** The message types [handleIncomingData] keeps for itself. *)
Definition reserved (ty : option Json) : bool :=
  is_str ty "verification_challenge" || is_str ty "verification_response"
  || is_str ty "keepalive".

(** The ['error'] handler of the swarm. *)
Definition onSwarmError (nm : NetworkManager) : NetworkManager * list Effect :=
  let '(nm1, effs) := attemptReconnect nm in
  (nm1, Console "Swarm error:" :: effs).

(** What happens to the manager: a connection opens, data arrives on a
    socket, a socket ends or fails, a verification timeout fires, the
    swarm reports an error, the 5000 ms of the reconnect timer are over.
    [swarm] and [rejoin] are as in [onReconnectTimeout]. *)
Inductive Event : Type :=
  | Connection (socket : Socket) (challenge : bytes) (timer : nat)
  | Data (socket : Socket) (data : bytes) (now : Z)
  | End_ (socket : Socket)
  | VerificationTimeout (socket : Socket)
  | SwarmError
  | ReconnectTimeout (swarm : bool) (rejoin : Result unit).

(** A timer runs its callback while it is pending, that is from the
    [setTimeout] in [attemptReconnect] until it has fired. *)
Definition step (nm : NetworkManager) (ev : Event) : NetworkManager * list Effect :=
  match ev with
  | Connection socket challenge timer => onConnection nm socket challenge timer
  | Data socket data now => handleIncomingData nm data socket now
  | End_ socket => handlePeerDisconnect nm socket
  | VerificationTimeout socket => onVerificationTimeout nm socket
  | SwarmError => onSwarmError nm
  | ReconnectTimeout swarm rejoin =>
      if reconnectTimer nm then onReconnectTimeout nm swarm rejoin else (nm, [])
  end.

Definition fires (ev : Event) : bool :=
  match ev with ReconnectTimeout _ _ => true | _ => false end.

Fixpoint run (nm : NetworkManager) (evs : list Event) : NetworkManager * list Effect :=
  match evs with
  | [] => (nm, [])
  | ev :: rest =>
      let '(nm1, effs) := step nm ev in
      let '(nm2, effs') := run nm1 rest in
      (nm2, effs ++ effs')
  end.

(** Every socket of the broadcast set is a verified peer. *)
Definition broadcast_verified (nm : NetworkManager) : Prop :=
  forall socket, socket ∈ sockets nm -> is_Some (verifiedPeers nm !! socket).

End Runs.

(** *** Shutdown

    The fields [cleanup] touches besides those of the manager proper. *)
Record Manager := {
  core : NetworkManager;
  swarm : bool;                (* [this.swarm] is set *)
  keepAliveInterval : bool;    (* the keep-alive interval is armed *)
}.

Inductive Action : Type :=
  | ClearInterval
  | ClearReconnect
  | SocketEnd (socket : Socket)
  | SwarmDestroy.

Definition stopKeepAlive (m : Manager) : Manager * list Action :=
  if keepAliveInterval m
  then ({| core := core m; swarm := swarm m; keepAliveInterval := false |}, [ClearInterval])
  else (m, []).

(** [cleanup()]; the sockets accept [end()]. *)
Definition cleanup (m : Manager) : Manager * list Action :=
  let '(m1, stopped) := stopKeepAlive m in
  let nm := core m1 in
  let cancelled := if reconnectTimer nm then [ClearReconnect] else [] in
  let ended := SocketEnd <$> elements (sockets nm) in
  let destroyed := if swarm m1 then [SwarmDestroy] else [] in
  ({| core := {| sockets := ∅; verifiedPeers := verifiedPeers nm;
                 pendingVerifications := pendingVerifications nm;
                 isConnected := isConnected nm; reconnectTimer := false;
                 connectionTimeout := connectionTimeout nm; roomPSK := roomPSK nm |};
      swarm := swarm m1; keepAliveInterval := keepAliveInterval m1 |},
   stopped ++ cancelled ++ ended ++ destroyed).

End Session.

(** ** Initialisation and change of transport *)

Module Transport.
Import Network Session.

(** [sodium.crypto_generichash], [Buffer.from] on a string, and
    [toString] on a byte array. *)
Class Hash := {
  crypto_generichash : nat -> bytes -> bytes;
  Buffer_from : string -> bytes;
  toString : bytes -> string;
}.

(** The arguments of [initialize] that are data. *)
Record Params := {
  roomId : string;
  preKeyBundle : bytes;
}.

Record Node := {
  manager : Manager;
  transportMode : string;
  savedParams : option Params;
}.

(** The constructor. *)
Definition new_NetworkManager : Node :=
  {| manager := {| core := {| sockets := ∅; verifiedPeers := ∅;
                              pendingVerifications := ∅; isConnected := false;
                              reconnectTimer := false; connectionTimeout := false;
                              roomPSK := None |};
                   swarm := false; keepAliveInterval := false |};
     transportMode := "direct"; savedParams := None |}.

Inductive Step : Type :=
  | Cleaned (action : Action)
  | Created (yggdrasil : bool)   (* [new Hyperswarm], with the bootstrap option *)
  | TimeoutArmed
  | Joined (keyBuf : bytes).

Section Operations.
Context {hash : Hash}.

(** [initialize(roomId, preKeyBundle, onMessage)] *)
Definition initialize (node : Node) (params : Params) : Node * list Step :=
  let keyBuf := crypto_generichash 32 (Buffer_from (roomId params)) in
  let psk := crypto_generichash 32
               (Buffer_from (String.append (roomId params)
                               (toString (preKeyBundle params)))) in
  let nm := core (manager node) in
  ({| manager :=
        {| core := {| sockets := sockets nm; verifiedPeers := verifiedPeers nm;
                      pendingVerifications := pendingVerifications nm;
                      isConnected := isConnected nm;
                      reconnectTimer := reconnectTimer nm;
                      connectionTimeout := true; roomPSK := Some psk |};
           swarm := true; keepAliveInterval := true |};
      transportMode := transportMode node; savedParams := savedParams node |},
   [Created (bool_decide (transportMode node = "yggdrasil")); TimeoutArmed; Joined keyBuf]).

(** [setTransportMode(mode)] *)
Definition setTransportMode (node : Node) (mode : string) : Result (Node * list Step) :=
  if bool_decide (mode <> "direct") && bool_decide (mode <> "yggdrasil")
  then Throw (Error "Invalid transport mode")
  else if bool_decide (mode = transportMode node) then Ok (node, [])
  else
    let node1 := {| manager := manager node; transportMode := mode;
                    savedParams := savedParams node |} in
    if swarm (manager node1) then
      let '(m, actions) := cleanup (manager node1) in
      let node2 := {| manager := m; transportMode := mode;
                      savedParams := savedParams node1 |} in
      match savedParams node2 with
      | Some params =>
          let '(node3, steps) := initialize node2 params in
          Ok (node3, (Cleaned <$> actions) ++ steps)
      | None => Ok (node2, Cleaned <$> actions)
      end
    else Ok (node1, []).

(** The callback of the connection timeout armed by [initialize]. *)
Definition onConnectionTimeout (node : Node) : Result (Node * list Step) :=
  if isConnected (core (manager node)) then Ok (node, [])
  else setTransportMode node
         (if bool_decide (transportMode node = "direct") then "yggdrasil" else "direct").

Inductive Event : Type :=
  | Initialize (params : Params)
  | SetTransport (mode : string)
  | ConnectionTimeout
  | Cleanup.

(** One event; an exception leaves the node as it was. *)
Definition step (node : Node) (ev : Event) : Node * list Step :=
  match ev with
  | Initialize params => initialize node params
  | SetTransport mode =>
      match setTransportMode node mode with
      | Ok result => result
      | Throw _ => (node, [])
      end
  | ConnectionTimeout =>
      match onConnectionTimeout node with
      | Ok result => result
      | Throw _ => (node, [])
      end
  | Cleanup =>
      let '(m, actions) := cleanup (manager node) in
      ({| manager := m; transportMode := transportMode node;
          savedParams := savedParams node |}, Cleaned <$> actions)
  end.

Fixpoint run (node : Node) (evs : list Event) : Node * list Step :=
  match evs with
  | [] => (node, [])
  | ev :: rest =>
      let '(node1, steps) := step node ev in
      let '(node2, steps') := run node1 rest in
      (node2, steps ++ steps')
  end.

Definition joins (s : Step) : bool :=
  match s with Joined _ => true | _ => false end.

Definition initializes (ev : Event) : bool :=
  match ev with Initialize _ => true | _ => false end.

End Operations.
End Transport.

(** A hash for running the model: the first bytes of its input. *)
Module ToyTransport.
Import Transport.

Definition hash : Hash := {|
  crypto_generichash n b := take n b;
  Buffer_from s := Toy.code_of_ascii <$> String.list_ascii_of_string s;
  toString b := String.string_of_list_ascii (Toy.ascii_of_code <$> b);
|}.

(** A node is initialised, finds no peer before the connection timeout,
    and is later switched back by hand. *)
Definition fallback : list Event :=
  [ Initialize {| roomId := "room"; preKeyBundle := [1; 2]%Z |};
    ConnectionTimeout; SetTransport "direct"; SetTransport "carrier pigeon" ].

End ToyTransport.

(** ** The older network manager: unframing by trailing zeros *)

Module LegacyNetwork.

(** The loop [while (end > 0 && data[end - 1] === 0) end--], started at
    [end_]. *)
Fixpoint scan (data : bytes) (end_ : nat) : nat :=
  match end_ with
  | 0 => 0
  | S before => if decide (data !! before = Some 0%Z) then scan data before else end_
  end.

Definition removePacketPadding (data : bytes) : bytes :=
  take (scan data (length data)) data.

End LegacyNetwork.

(** ** A codec for control frames

    One byte for the message type, then the numbers. *)

Module ToyControl.
Import Network.

Definition num_of (j : Json) : Z := match j with JNum z => z | _ => 0%Z end.

Definition type_code (t : string) : Z :=
  if bool_decide (t = "verification_challenge") then 1
  else if bool_decide (t = "verification_response") then 2
  else if bool_decide (t = "verification_success") then 3
  else if bool_decide (t = "keepalive") then 4
  else if bool_decide (t = "keepalive_ack") then 5
  else 6.

Definition stringify (j : Json) : bytes :=
  match j with
  | JObj [(_, JStr t); (_, JArr items)] => type_code t :: (num_of <$> items)
  | JObj [(_, JStr t); (_, JNum n)] => [type_code t; n]
  | JObj [(_, JStr t); (_, JStr _); (_, JNum n)] => [7%Z; n]
  | _ => []
  end.

Definition parse (b : bytes) : option Json :=
  match b with
  | 1%Z :: l => Some (JObj [("type", JStr "verification_challenge");
                            ("challenge", JArr (JNum <$> l))])
  | 2%Z :: l => Some (JObj [("type", JStr "verification_response");
                            ("response", JArr (JNum <$> l))])
  | [3%Z; n] => Some (JObj [("type", JStr "verification_success"); ("timestamp", JNum n)])
  | [4%Z; n] => Some (JObj [("type", JStr "keepalive"); ("timestamp", JNum n)])
  | [5%Z; n] => Some (JObj [("type", JStr "keepalive_ack"); ("timestamp", JNum n)])
  | [7%Z; n] => Some (JObj [("type", JStr "chat"); ("text", JStr "hi");
                            ("timestamp", JNum n)])
  | _ => None
  end.

Definition wire : Wire := {|
  JSON_stringify := stringify;
  JSON_parse := parse;
  Uint8Array_of v :=
    match v with
    | Some (JArr items) => num_of <$> items
    | _ => []
    end;
|}.

(** A manager that shares the room key [[5; 5]] with [Toy.fresh_manager]
    and has verified socket [3]. *)
Definition peer_manager : NetworkManager :=
  {| sockets := {[3]};
     verifiedPeers := {[3 := {| verifiedAt := 10; verifiedChallenge := [1; 2]%Z |}]};
     pendingVerifications := ∅; isConnected := true;
     reconnectTimer := false; connectionTimeout := false;
     roomPSK := Some [5; 5]%Z |}.

(** A connection on socket [7] that answers its challenge, outlives its
    verification timeout, ends, and still sends a chat frame. *)
Definition visit : list Session.Event :=
  [ Session.Connection 7 [1; 2; 3]%Z 9;
    Session.Data 7 [0; 0; 0; 6; 2; 5; 5; 1; 2; 3]%Z 200%Z;
    Session.VerificationTimeout 7;
    Session.End_ 7;
    Session.Data 7 [0; 0; 0; 2; 7; 50]%Z 300%Z ].

End ToyControl.

(** ** The worker's RPC handler: files, requests, events *)

Module Rpc.
Import Worker.

(** The object [sealFile] serialises; its [type] is the constant
    ['file'].  [dhKey] is as in [Worker.Message]. *)
Record FileMessage := {
  fileName : string;
  fileType : string;
  fileData : bytes;
  timestamp : Z;
  counter : nat;
  dhKey : option bytes;
}.

(** [sodium.from_string(JSON.stringify(m))] and
    [JSON.parse(sodium.to_string(buf))] on file messages. *)
Class FileCodec := {
  JSON_stringify_file : FileMessage -> bytes;
  JSON_parse_file : bytes -> option FileMessage;
}.

Section Operations.
Context {sodium : Sodium} {host : Host} {files : FileCodec}.

Definition startKeepAlive : M unit :=
  fun w => (Ok tt, with_keepAliveInterval true w).

(** The [sealFile] case.  The envelope carries the constant [type]
    ['file'] besides the three arrays. *)
Definition sealFile (fileData : bytes) (fileName fileType : string) : M Envelope :=
  let! r0 := this in
  do! when (bool_decide (RATCHET_MESSAGES <= messagesSent r0)) rotateRatchet in
  let! r := this in
  let! messageKey := deriveMessageKey (sendingKey r) (messagesSent r) in
  let! t := now in
  let! jittered := addJitter t in
  let! keys := the_dhKeyPair in
  let! pub := deref (Some (publicKey keys)) in
  let message := {| fileName := fileName; fileType := fileType; fileData := fileData;
                    timestamp := jittered; counter := messagesSent r;
                    dhKey := Some pub |} in
  let! nonce := randombytes crypto_aead_xchacha20poly1305_ietf_NPUBBYTES in
  let! cipher := aead_encrypt (JSON_stringify_file message) nonce messageKey in
  let! sig := sign_detached cipher (privateKey keys) in
  let envelope := {| nonce := nonce; cipher := cipher; sig := sig |} in
  do! assign (fun r => set_messagesSent (S (messagesSent r)) r) in
  do! wipeKey messageKey in
  ret envelope.

(** The [openFile] case; it returns the whole message.  As in
    [decryptMessage], the parsed [dhKey] goes to [sodium.memcmp] as it
    is. *)
Definition openFile (env : Envelope) : M FileMessage :=
  let! r := this in
  let! valid := sign_verify_detached (sig env) (cipher env) (remotePublicKey r) in
  if negb valid then throw (Error "Invalid file message signature")
  else
    let! messageKey := deriveMessageKey (receivingKey r) (messagesReceived r) in
    let! plainBuf := aead_decrypt (cipher env) (nonce env) messageKey in
    match JSON_parse_file plainBuf with
    | None => throw SyntaxError
    | Some message =>
        let messageId := (counter message, timestamp message) in
        if bool_decide (messageId ∈ seenMessages r)
        then throw (Error "File message replay detected")
        else
          do! assign (fun r => set_seenMessages ({[messageId]} ∪ seenMessages r) r) in
          do! match dhKey message with
          | Some key =>
              let! r1 := this in
              let! same := memcmp (Parsed key) (Typed (remotePublicKey r1)) in
              when (negb same)
                   (let! fresh := alloc key in
                    do! assign (set_remotePublicKey (Some fresh)) in
                    rotateRatchet)
          | None => ret tt
          end in
          do! assign (fun r => set_messagesReceived (S (messagesReceived r)) r) in
          do! wipeKey messageKey in
          ret message
    end.

(** The [generatePreKeyBundle] case: the byte arrays of a new key pair. *)
Definition generatePreKeyBundle : M (bytes * bytes) :=
  let! keys := kx_keypair in
  let! pub := deref (Some (publicKey keys)) in
  let! priv := deref (Some (privateKey keys)) in
  ret (pub, priv).

(** A request to the worker, by [op]. *)
Inductive Request : Type :=
  | Initialize (preKeyBundle : bytes)
  | GeneratePreKeyBundle
  | Seal (plain : Content)
  | Open (env : Envelope)
  | SealFile (fileData : bytes) (fileName fileType : string)
  | OpenFile (env : Envelope)
  | Cleanup
  | Unknown (op : string).

(** The [res] of a reply. *)
Inductive Response : Type :=
  | Success
  | PreKeyBundle (publicKey privateKey : bytes)
  | Sealed (env : Envelope)
  | Opened (content : Content)
  | OpenedFile (message : FileMessage).

(** The [switch] of [self.onmessage]; what it throws becomes the [err]
    of the reply. *)
Definition onmessage (req : Request) : M Response :=
  match req with
  | Initialize preKeyBundle =>
      do! initialize preKeyBundle in
      do! startKeepAlive in
      ret Success
  | GeneratePreKeyBundle =>
      let! keyPair := generatePreKeyBundle in
      ret (PreKeyBundle (fst keyPair) (snd keyPair))
  | Seal plain =>
      let! res := encryptMessage plain false in
      ret (Sealed res)
  | Open env =>
      let! res := decryptMessage env in
      ret (Opened res)
  | SealFile fileData fileName fileType =>
      let! res := sealFile fileData fileName fileType in
      ret (Sealed res)
  | OpenFile env =>
      let! res := openFile env in
      ret (OpenedFile res)
  | Cleanup =>
      do! cleanup in
      ret Success
  | Unknown op => throw (Error (String.append "Unknown operation: " op))
  end.

(** What happens to the worker: a request, a tick of the keep-alive
    interval (when armed), the [unload] event. *)
Inductive Event : Type :=
  | Call (req : Request)
  | Tick
  | Unload.

(** What the worker posts. *)
Inductive Posted : Type :=
  | Reply (res : Result Response)
  | KeepAlive (data : Envelope).

Definition step (ev : Event) (w : World) : list Posted * World :=
  match ev with
  | Call req => let '(res, w') := onmessage req w in ([Reply res], w')
  | Tick =>
      if keepAliveInterval w then
        match keepAliveTick w with
        | (Some encrypted, w') => ([KeepAlive encrypted], w')
        | (None, w') => ([], w')
        end
      else ([], w)
  | Unload => ([], snd (cleanup w))
  end.

Fixpoint run (evs : list Event) (w : World) : list Posted * World :=
  match evs with
  | [] => ([], w)
  | ev :: rest =>
      let '(posted, w1) := step ev w in
      let '(posted', w2) := run rest w1 in
      (posted ++ posted', w2)
  end.

Definition sealed (p : Posted) : bool :=
  match p with Reply (Ok (Sealed _)) => true | _ => false end.

Definition opened (p : Posted) : bool :=
  match p with
  | Reply (Ok (Opened _)) | Reply (Ok (OpenedFile _)) => true
  | _ => false
  end.

(** The events that arm the keep-alive interval, and the keep-alive
    notices among what is posted. *)
Definition arms (ev : Event) : bool :=
  match ev with Call (Initialize _) => true | _ => false end.

Definition keepalive (p : Posted) : bool :=
  match p with KeepAlive _ => true | _ => false end.

(** The conditions under which a file envelope gets past the signature
    check, the AEAD and the parser in world [w], yielding [m]. *)
Definition opens_file (w : World) (env : Envelope) (m : FileMessage) : Prop :=
  verifies w env /\
  exists messageKey plainBuf,
    receiving_message_key w = Some messageKey /\
    length messageKey = crypto_aead_xchacha20poly1305_ietf_KEYBYTES /\
    crypto_aead_xchacha20poly1305_ietf_ABYTES <= length (cipher env) /\
    length (nonce env) = crypto_aead_xchacha20poly1305_ietf_NPUBBYTES /\
    crypto_aead_xchacha20poly1305_ietf_decrypt (cipher env) (nonce env) messageKey
      = Some plainBuf /\
    JSON_parse_file plainBuf = Some m.

(** Among what was posted there is no envelope and no opened content. *)
Definition fruitless (posted : list Posted) : Prop :=
  forall p, p ∈ posted -> sealed p = false /\ opened p = false.

End Operations.

End Rpc.

(** ** Concrete workers and a codec for file messages *)

Module ToyRpc.
Import Worker Rpc.

Definition segment (b : bytes) : bytes := Z.of_nat (length b) :: b.

Definition encode_text (s : string) : bytes :=
  segment (Toy.code_of_ascii <$> String.list_ascii_of_string s).

Definition decode_text (b : bytes) : string :=
  String.string_of_list_ascii (Toy.ascii_of_code <$> b).

Definition stringify_file (m : FileMessage) : bytes :=
  encode_text (fileName m) ++ encode_text (fileType m) ++ segment (fileData m)
    ++ timestamp m :: Z.of_nat (counter m)
    :: match dhKey m with Some k => 1%Z :: k | None => [0%Z] end.

Definition parse_file (l : bytes) : option FileMessage :=
  match l with
  | n1 :: r1 =>
      match drop (Z.to_nat n1) r1 with
      | n2 :: r2 =>
          match drop (Z.to_nat n2) r2 with
          | n3 :: r3 =>
              match drop (Z.to_nat n3) r3 with
              | ts :: c :: flag :: key =>
                  Some {| fileName := decode_text (take (Z.to_nat n1) r1);
                          fileType := decode_text (take (Z.to_nat n2) r2);
                          fileData := take (Z.to_nat n3) r3;
                          timestamp := ts;
                          counter := Z.to_nat c;
                          dhKey := if decide (flag = 1%Z) then Some key else None |}
              | _ => None
              end
          | _ => None
          end
      | _ => None
      end
  | _ => None
  end.

Definition files : FileCodec := {|
  JSON_stringify_file := stringify_file;
  JSON_parse_file := parse_file;
|}.

(** A session of a started worker: it is initialised, seals a message,
    is asked to open an envelope, ticks, seals a file, is asked to open
    a file envelope. *)
Definition session : list Event :=
  [ Call (Initialize Toy.bundle); Call (Seal (Text "hi"));
    Call (Open Toy.first_envelope); Tick;
    Call (SealFile [1; 2; 3]%Z "a.txt" "text/plain");
    Call (OpenFile Toy.first_envelope) ].

(** A worker after [cleanup]: ticks, a request, the unload event. *)
Definition afterwards : list Event :=
  [ Tick; Call (Seal (Text "hi")); Tick; Call (Open Toy.first_envelope); Unload; Tick ].

(** The first steps of two peers: a key pair for the pre-key bundle, the
    [initialize] request with the other's public key, and a first
    message; then the same message a hundred times more. *)
Definition first_message : list Event :=
  [ Call GeneratePreKeyBundle; Call (Initialize Toy.bundle); Call (Seal (Text "hello")) ].

Definition hundred_more : list Event :=
  first_message ++ replicate 100 (Call (Seal (Text "hello"))).

(** A file message as [sealFile] builds it, and its envelope for the
    hand-made receiver. *)
Definition report : FileMessage :=
  {| fileName := "a.txt"; fileType := "text/plain"; fileData := [1; 2; 3]%Z;
     timestamp := 1700000000001; counter := 0; dhKey := Some Toy.signer_public |}.

Definition report_envelope : Envelope :=
  let cipher :=
    @crypto_aead_xchacha20poly1305_ietf_encrypt Toy.sodium
      (stringify_file report) (replicate 24 5%Z) (Toy.message_key 0) in
  {| nonce := replicate 24 5%Z; cipher := cipher;
     sig := @crypto_sign_detached Toy.sodium cipher Toy.signer_private |}.

End ToyRpc.

(** ** The page side of the worker: the crypto bridge *)

Module Bridge.
Import Rpc.

(** What runs when the promise of a request settles. *)
Inductive Continuation : Type :=
  | Caller               (* the caller of an exported function awaits it *)
  | CallerThenTerminate  (* [cleanup()]: [terminateWorker()] follows a result *)
  | FinallyTerminate.    (* [terminateWorker()]: [finally] ends the worker *)

Record State := {
  worker : bool;                          (* [worker] is not [null] *)
  messageQueue : gmap nat Continuation;
  messageCounter : nat;
  awaiting : option bytes;
    (* the [initializeCrypto] call that created the worker and awaits its
       [init] notice, with its bundle *)
  resuming : list bytes;
    (* the [initializeCrypto] calls whose [await initWorker()] is settled
       and whose continuation has not run yet, oldest first *)
}.

(** What the worker sends: an answer with the fields [id], [res] and
    [err] (each possibly absent), or the [init] notice. *)
Inductive Incoming : Type :=
  | InitReady
  | Answer (id : option nat) (res : option Response) (err : option string).

Inductive Output : Type :=
  | Spawned
  | PostMessage (id : nat) (req : Request)
  | Resolved (id : nat) (res : option Response)
  | Rejected (id : nat) (msg : string)
  | RejectedUninitialized
  | RejectedWorkerError     (* [initializeCrypto] rejects with the error event *)
  | Terminated.

(** [initWorker()], as far as the worker variable goes.  The handlers of
    a new worker settle the promise of the call that created it: [waiter]
    is the bundle of the [initializeCrypto] call that awaits it, [None] for
    the other callers, which drop the promise. *)
Definition initWorker (b : State) (waiter : option bytes) : State * list Output :=
  if worker b then (b, [])
  else ({| worker := true; messageQueue := messageQueue b;
           messageCounter := messageCounter b;
           awaiting := waiter; resuming := resuming b |}, [Spawned]).

(** [sendToWorker(op, args)], with what follows the promise. *)
Definition sendToWorker (b : State) (req : Request) (k : Continuation)
  : State * list Output :=
  if worker b then
    let id := messageCounter b in
    ({| worker := worker b; messageQueue := <[id := k]> (messageQueue b);
        messageCounter := S id;
        awaiting := awaiting b; resuming := resuming b |}, [PostMessage id req])
  else (b, [RejectedUninitialized]).

Definition ends_worker (k : Continuation) : bool :=
  match k with FinallyTerminate => true | _ => false end.

(** [worker.terminate(); worker = null], the body of the [finally]
    handler.  On a worker that is [null] already the call throws inside
    the handler and nothing is done.  A terminated worker sends nothing
    more: the call that awaits its [init] notice stays pending. *)
Definition terminate (b : State) : State * list Output :=
  if worker b then
    ({| worker := false; messageQueue := messageQueue b;
        messageCounter := messageCounter b;
        awaiting := None; resuming := resuming b |}, [Terminated])
  else (b, []).

(** [terminateWorker()]: the pending promises are rejected (in the order
    of the table here, in the order of insertion in the source), a
    [cleanup] request is posted, and then the rejection handlers run. *)
Definition terminateWorker (b : State) : State * list Output :=
  if worker b then
    let pending := map_to_list (messageQueue b) in
    let rejections := (fun entry => Rejected (fst entry) "Worker terminated") <$> pending in
    let '(b1, posted) :=
      sendToWorker {| worker := worker b; messageQueue := ∅;
                      messageCounter := messageCounter b;
                      awaiting := awaiting b; resuming := resuming b |}
        Cleanup FinallyTerminate in
    let '(b2, ended) :=
      if existsb (fun entry => ends_worker (snd entry)) pending
      then terminate b1 else (b1, []) in
    (b2, rejections ++ posted ++ ended)
  else (b, []).

(** [if (err)] *)
Definition truthy (err : option string) : bool :=
  match err with
  | Some msg => negb (bool_decide (msg = ""))
  | None => false
  end.

(** The rest of [initializeCrypto] after its [await]:
    [sendToWorker('initialize', { preKeyBundle })]. *)
Definition resume (b : State) : State * list Output :=
  match resuming b with
  | [] => (b, [])
  | preKeyBundle :: rest =>
      sendToWorker {| worker := worker b; messageQueue := messageQueue b;
                      messageCounter := messageCounter b;
                      awaiting := awaiting b; resuming := rest |}
        (Initialize preKeyBundle) Caller
  end.

(** The continuations that are due run before the next message or error
    event is handled. *)
Fixpoint post_all (b : State) (bundles : list bytes) : State * list Output :=
  match bundles with
  | [] => (b, [])
  | preKeyBundle :: rest =>
      let '(b1, posted) := sendToWorker b (Initialize preKeyBundle) Caller in
      let '(b2, posted') := post_all b1 rest in
      (b2, posted ++ posted')
  end.

Definition drain (b : State) : State * list Output :=
  post_all {| worker := worker b; messageQueue := messageQueue b;
              messageCounter := messageCounter b;
              awaiting := awaiting b; resuming := [] |} (resuming b).

(** [worker.onmessage]; the [init] notice resolves the promise of the
    [initWorker()] call that created the worker, and an [initializeCrypto]
    that awaits it goes on to post its request. *)
Definition onmessage (b : State) (data : Incoming) : State * list Output :=
  match data with
  | InitReady =>
      match awaiting b with
      | None => (b, [])
      | Some preKeyBundle =>
          sendToWorker {| worker := worker b; messageQueue := messageQueue b;
                          messageCounter := messageCounter b;
                          awaiting := None; resuming := resuming b |}
            (Initialize preKeyBundle) Caller
      end
  | Answer None _ _ => (b, [])
  | Answer (Some id) res err =>
      match messageQueue b !! id with
      | None => (b, [])
      | Some k =>
          let b1 := {| worker := worker b; messageQueue := delete id (messageQueue b);
                       messageCounter := messageCounter b;
                       awaiting := awaiting b; resuming := resuming b |} in
          if truthy err then
            let '(b2, ended) := if ends_worker k then terminate b1 else (b1, []) in
            (b2, Rejected id (default "" err) :: ended)
          else
            let '(b2, then_) :=
              match k with
              | Caller => (b1, [])
              | CallerThenTerminate => terminateWorker b1
              | FinallyTerminate => terminate b1
              end in
            (b2, Resolved id res :: then_)
      end
  end.

(** [worker.onerror]: the promise of the creating [initWorker()] call is
    rejected, then [terminateWorker()]. *)
Definition onerror (b : State) : State * list Output :=
  let rejected := match awaiting b with Some _ => [RejectedWorkerError] | None => [] end in
  let '(b1, outs) :=
    terminateWorker {| worker := worker b; messageQueue := messageQueue b;
                       messageCounter := messageCounter b;
                       awaiting := None; resuming := resuming b |} in
  (b1, rejected ++ outs).

(** The exported functions [generatePreKeyBundle], [seal], [open],
    [sealFile] and [openFile], with the request each of them posts. *)
Inductive Exported : Type :=
  | ExGeneratePreKeyBundle
  | ExSeal (plaintext : Worker.Content)
  | ExOpen (envelope : Worker.Envelope)
  | ExSealFile (fileData : bytes) (fileName fileType : string)
  | ExOpenFile (envelope : Worker.Envelope).

Definition request_of (f : Exported) : Request :=
  match f with
  | ExGeneratePreKeyBundle => GeneratePreKeyBundle
  | ExSeal plaintext => Seal plaintext
  | ExOpen envelope => Open envelope
  | ExSealFile fileData fileName fileType => SealFile fileData fileName fileType
  | ExOpenFile envelope => OpenFile envelope
  end.

(** Their common body: [initWorker()], not awaited, then the request. *)
Definition request (b : State) (f : Exported) : State * list Output :=
  let '(b1, spawned) := initWorker b None in
  let '(b2, posted) := sendToWorker b1 (request_of f) Caller in
  (b2, spawned ++ posted).

(** The exported [initializeCrypto(preKeyBundle)] up to its
    [await initWorker()]: with a worker the promise is resolved and the
    continuation is queued; without one the worker is created and the
    call waits for the [init] notice. *)
Definition initializeCrypto (b : State) (preKeyBundle : bytes) : State * list Output :=
  if worker b then
    ({| worker := worker b; messageQueue := messageQueue b;
        messageCounter := messageCounter b;
        awaiting := awaiting b; resuming := resuming b ++ [preKeyBundle] |}, [])
  else initWorker b (Some preKeyBundle).

(** The exported [cleanup()] *)
Definition cleanup (b : State) : State * list Output :=
  if worker b then sendToWorker b Cleanup CallerThenTerminate else (b, []).

(** What happens to the bridge: the page calls an exported function, the
    oldest continuation that is due runs, the worker sends a message, the
    worker fails. *)
Inductive Event : Type :=
  | Export (f : Exported)
  | ExportInitialize (preKeyBundle : bytes)
  | ExportCleanup
  | Resume
  | FromWorker (data : Incoming)
  | WorkerError.

Definition step (b : State) (ev : Event) : State * list Output :=
  match ev with
  | Export f => request b f
  | ExportInitialize preKeyBundle => initializeCrypto b preKeyBundle
  | ExportCleanup => cleanup b
  | Resume => resume b
  | FromWorker data =>
      let '(b1, resumed) := drain b in
      let '(b2, outs) := onmessage b1 data in
      (b2, resumed ++ outs)
  | WorkerError =>
      let '(b1, resumed) := drain b in
      let '(b2, outs) := onerror b1 in
      (b2, resumed ++ outs)
  end.

Fixpoint run (b : State) (evs : list Event) : State * list Output :=
  match evs with
  | [] => (b, [])
  | ev :: rest =>
      let '(b1, outs) := step b ev in
      let '(b2, outs') := run b1 rest in
      (b2, outs ++ outs')
  end.

Definition posted_id (o : Output) : option nat :=
  match o with PostMessage id _ => Some id | _ => None end.

Definition settled_id (o : Output) : option nat :=
  match o with Resolved id _ | Rejected id _ => Some id | _ => None end.

(** The module's initial state. *)
Definition initial : State :=
  {| worker := false; messageQueue := ∅; messageCounter := 0;
     awaiting := None; resuming := [] |}.

(** Every pending id was handed out by the counter. *)
Definition well_formed (b : State) : Prop :=
  forall id, is_Some (messageQueue b !! id) -> id < messageCounter b.

(** What a run guarantees about the ids it posts and settles: the posted
    ids are the values the counter ran through; an id is settled once,
    it was pending before or posted on the way, and it is no longer
    pending afterwards. *)
Definition run_ok (b b' : State) (outs : list Output) : Prop :=
  well_formed b' /\
  messageCounter b <= messageCounter b' /\
  omap posted_id outs = seq (messageCounter b) (messageCounter b' - messageCounter b) /\
  NoDup (omap settled_id outs) /\
  (forall id, id ∈ omap settled_id outs ->
     (is_Some (messageQueue b !! id) \/ messageCounter b <= id) /\
     id < messageCounter b' /\
     messageQueue b' !! id = None) /\
  (forall id, is_Some (messageQueue b' !! id) ->
     is_Some (messageQueue b !! id) \/ messageCounter b <= id).

(** A page session: [initializeCrypto], which creates the worker and
    waits; a [seal] that overtakes it; the [init] notice; the answers to
    the two requests; a second [initializeCrypto], queued and resumed;
    the exported cleanup and its answer; a late second answer to the
    first request; a keep-alive notice of the worker. *)
Definition page_session : list Event :=
  [ ExportInitialize [1; 2; 3]%Z;
    Export (ExSeal (Worker.Text "hi"));
    FromWorker InitReady;
    FromWorker (Answer (Some 0) (Some Success) None);
    FromWorker (Answer (Some 1) None (Some "invalid key"));
    ExportInitialize [4]%Z; Resume;
    ExportCleanup;
    FromWorker (Answer (Some 3) (Some Success) None);
    FromWorker (Answer (Some 0) (Some Success) None);
    FromWorker (Answer None None None) ].

End Bridge.

(** ** The logger *)

Module Logging.
Import Network.

(** Induction on parsed values, through the lists of an array and of an
    object. *)
Fixpoint Json_nested_ind (P : Json -> Prop)
    (Hnull : P JNull) (Hbool : forall b, P (JBool b)) (Hnum : forall z, P (JNum z))
    (Hstr : forall s, P (JStr s))
    (Harr : forall items, Forall P items -> P (JArr items))
    (Hobj : forall fields, Forall (fun kv => P (snd kv)) fields -> P (JObj fields))
    (j : Json) : P j :=
  match j with
  | JNull => Hnull
  | JBool b => Hbool b
  | JNum z => Hnum z
  | JStr s => Hstr s
  | JArr items =>
      Harr items
        ((fix all (l : list Json) : Forall P l :=
            match l with
            | [] => @List.Forall_nil _ P
            | x :: rest =>
                @List.Forall_cons _ P x rest
                  (Json_nested_ind P Hnull Hbool Hnum Hstr Harr Hobj x) (all rest)
            end) items)
  | JObj fields =>
      Hobj fields
        ((fix all (l : list (string * Json)) : Forall (fun kv => P (snd kv)) l :=
            match l with
            | [] => @List.Forall_nil _ _
            | kv :: rest =>
                @List.Forall_cons _ (fun kv => P (snd kv)) kv rest
                  (Json_nested_ind P Hnull Hbool Hnum Hstr Harr Hobj (snd kv)) (all rest)
            end) fields)
  end.


(** [SecurityConfig.logging.sensitiveFields] *)
Definition SecurityConfig_logging_sensitiveFields : list string :=
  ["password"; "token"; "key"].

(** What a caller passes as [data]: a plain value, or an [Error] (whose
    own properties are not enumerable) with its [stack]. *)
Inductive LogData : Type :=
  | Value (v : Json)
  | ErrorInstance (stack : string).

Record LogEntry := {
  timestamp : Z;
  level : nat;
  category : string;
  message : string;
  data : Json;
  stack : option string;
}.

Record Logger := {
  logs : list LogEntry;
  maxLogs : nat;
  listeners : list nat;
  sensitiveFields : gset string;
  db : bool;                   (* [this.db] is set *)
}.

(** The constructor. *)
Definition new_Logger : Logger :=
  {| logs := []; maxLogs := 1000; listeners := [];
     sensitiveFields := list_to_set SecurityConfig_logging_sensitiveFields;
     db := false |}.

Definition LEVELS_ERROR : nat := 3.

Definition REDACTED : Json := JStr "[REDACTED]".

Section Sanitize.
(** [String.prototype.toLowerCase] *)
Context (toLowerCase : string -> string).
Context (sensitive_fields : gset string).

(** [this.sensitiveFields.has(key.toLowerCase())] *)
Definition sensitive (key : string) : bool :=
  bool_decide (toLowerCase key ∈ sensitive_fields).

(** [typeof v === 'object'] *)
Definition typeof_object (v : Json) : bool :=
  match v with
  | JNull | JArr _ | JObj _ => true
  | _ => false
  end.

(** The one-character strings of a string, as [{...s}] lists them. *)
Definition characters (s : string) : list Json :=
  (fun c => JStr (String c EmptyString)) <$> String.list_ascii_of_string s.

(** [sanitizeData(data)] on acyclic plain data.  The spread [{...data}]
    of an array or a string has the indices as keys, that of [null], a
    number or a boolean has no keys. *)
Fixpoint sanitizeData (data : Json) : Json :=
  match data with
  | JObj fields =>
      JObj ((fix each (fields : list (string * Json)) : list (string * Json) :=
               match fields with
               | [] => []
               | (key, v) :: rest =>
                   (key,
                    if sensitive key then REDACTED
                    else match v with
                         | JNull | JArr _ | JObj _ => sanitizeData v
                         | _ => v
                         end) :: each rest
               end) fields)
  | JArr items =>
      JObj ((fix each (i : nat) (items : list Json) : list (string * Json) :=
               match items with
               | [] => []
               | v :: rest =>
                   (pretty i,
                    if sensitive (pretty i) then REDACTED
                    else match v with
                         | JNull | JArr _ | JObj _ => sanitizeData v
                         | _ => v
                         end) :: each (S i) rest
               end) 0 items)
  | JStr s =>
      JObj (imap (fun i c => (pretty i, if sensitive (pretty i) then REDACTED else c))
              (characters s))
  | JNull | JBool _ | JNum _ => JObj []
  end.

(** No property with a sensitive key, at any depth, has another value
    than the marker. *)
Fixpoint redacted (v : Json) : Prop :=
  match v with
  | JObj fields =>
      (fix all (fields : list (string * Json)) : Prop :=
         match fields with
         | [] => True
         | (key, x) :: rest =>
             (if sensitive key then x = REDACTED else redacted x) /\ all rest
         end) fields
  | JArr items =>
      (fix all (items : list Json) : Prop :=
         match items with
         | [] => True
         | x :: rest => redacted x /\ all rest
         end) items
  | _ => True
  end.

(** What [sanitizeData] stores under [key] for the value [v]. *)
Definition stored (key : string) (v : Json) : Json :=
  if sensitive key then REDACTED
  else if typeof_object v then sanitizeData v else v.

(** A value is handled well when its sanitised form is redacted and
    sanitising it again changes nothing. *)
Definition settled (v : Json) : Prop :=
  redacted (sanitizeData v) /\ sanitizeData (sanitizeData v) = sanitizeData v.

(** [log(level, category, message, data)] at time [now]: the new logger
    and the entry that is stored, persisted and passed to the listeners. *)
Definition log (lg : Logger) (level : nat) (category message : string)
    (data : LogData) (now : Z) : Logger * LogEntry :=
  let logEntry :=
    {| timestamp := now; level := level; category := category; message := message;
       data := match data with
               | Value v => sanitizeData v
               | ErrorInstance _ => JObj []
               end;
       stack := match data with
                | ErrorInstance stack =>
                    if bool_decide (level = LEVELS_ERROR) then Some stack else None
                | Value _ => None
                end |} in
  let pushed := logs lg ++ [logEntry] in
  ({| logs := if decide (maxLogs lg < length pushed) then drop 1 pushed else pushed;
      maxLogs := maxLogs lg; listeners := listeners lg;
      sensitiveFields := sensitiveFields lg; db := db lg |},
   logEntry).

End Sanitize.

(** Calls of [log], one after the other; the entries built. *)
Fixpoint log_all (toLowerCase : string -> string) (lg : Logger)
    (calls : list (nat * string * string * LogData * Z)) : Logger * list LogEntry :=
  match calls with
  | [] => (lg, [])
  | (level, category, message, data, now) :: rest =>
      let '(lg1, entry) :=
        log toLowerCase (sensitiveFields lg) lg level category message data now in
      let '(lg2, entries) := log_all toLowerCase lg1 rest in
      (lg2, entry :: entries)
  end.


(** [toLowerCase] on ASCII letters. *)
Definition ascii_toLowerCase (s : string) : string :=
  String.string_of_list_ascii
    ((fun a => let n := Ascii.nat_of_ascii a in
               if decide (65 <= n <= 90) then Ascii.ascii_of_nat (n + 32) else a)
       <$> String.list_ascii_of_string s).

(** Three calls of [log], the first with a password among its data. *)
Definition three_calls : list (nat * string * string * LogData * Z) :=
  [ (1, "auth", "login",
     Value (JObj [("user", JStr "ann"); ("Password", JStr "secret");
                  ("session", JObj [("token", JStr "t0"); ("age", JNum 3)])]), 100%Z);
    (3, "net", "failed", ErrorInstance "at connect", 200%Z);
    (0, "net", "peers", Value (JArr [JStr "a"; JNull]), 300%Z) ].

End Logging.

(** ** The rate limiter in front of [seal] *)

Module RateLimit.

Record RateLimiter := {
  windowMs : Z;
  maxRequests : Z;
  requests : gmap string (list Z);
}.

(** [new RateLimiter(config)] *)
Definition new_RateLimiter (windowMs maxRequests : Z) : RateLimiter :=
  {| windowMs := windowMs; maxRequests := maxRequests; requests := ∅ |}.

(** [userRequests.filter(time => now - time < this.windowMs)] *)
Definition validRequests (rl : RateLimiter) (userId : string) (now : Z) : list Z :=
  let userRequests := default [] (requests rl !! userId) in
  filter (fun time => (now - time < windowMs rl)%Z) userRequests.

(** [isAllowed(userId)], with [now] the value of [Date.now()]. *)
Definition isAllowed (rl : RateLimiter) (userId : string) (now : Z)
  : bool * RateLimiter :=
  let validRequests := validRequests rl userId now in
  if decide (maxRequests rl <= Z.of_nat (length validRequests))%Z then (false, rl)
  else (true, {| windowMs := windowMs rl; maxRequests := maxRequests rl;
                 requests := <[userId := validRequests ++ [now]]> (requests rl) |}).

(** [getRemainingRequests(userId)] *)
Definition getRemainingRequests (rl : RateLimiter) (userId : string) (now : Z) : Z :=
  Z.max 0 (maxRequests rl - Z.of_nat (length (validRequests rl userId now))).

(** Calls of [isAllowed], each with its user and its time; the calls
    that were allowed, and the limiter afterwards. *)
Fixpoint run (rl : RateLimiter) (calls : list (string * Z))
  : list (string * Z) * RateLimiter :=
  match calls with
  | [] => ([], rl)
  | (userId, now) :: rest =>
      let '(allowed, rl1) := isAllowed rl userId now in
      let '(granted, rl2) := run rl1 rest in
      (if allowed then (userId, now) :: granted else granted, rl2)
  end.

(** The allowed calls of a user that fall in the window that ends at [t]. *)
Definition in_window (W : Z) (userId : string) (t : Z) (granted : list (string * Z))
  : list (string * Z) :=
  filter (fun c => fst c = userId /\ (t - snd c < W)%Z /\ (snd c <= t)%Z) granted.


(** The stored times of a user and the times of its allowed calls agree
    on what is still valid at any time from [T] on. *)
Definition agree (T : Z) (rl : RateLimiter) (granted : list (string * Z)) : Prop :=
  forall userId now, (T <= now)%Z ->
    validRequests rl userId now
    = filter (fun time => (now - time < windowMs rl)%Z)
        (snd <$> filter (fun c => fst c = userId) granted).

(** No window holds more than [N] allowed calls of one user. *)
Definition bounded (W N : Z) (granted : list (string * Z)) : Prop :=
  forall userId t, (Z.of_nat (length (in_window W userId t granted)) <= Z.max 0 N)%Z.

(** Calls by two users within a little more than a minute. *)
Definition busy_minute : list (string * Z) :=
  [("ann", 0); ("ann", 10); ("bob", 10); ("ann", 20); ("ann", 70000)]%Z.

End RateLimit.

(** * Properties *)

Section FramerFacts.
Import Framer.

Lemma ceil_div_bounds (a : nat) :
  a <= ceil_div a 256 * 256 < a + 256 /\ (ceil_div a 256 * 256) mod 256 = 0.
Proof.
  unfold ceil_div. simpl Nat.sub.
  pose proof (Nat.div_mod_eq (a + 255) 256) as E.
  pose proof (Nat.mod_upper_bound (a + 255) 256 ltac:(lia)) as B.
  split; [lia|]. apply Nat.Div0.mod_mul.
Qed.

Lemma writeUInt32BE_in_range (n : nat) :
  (Z.of_nat n < 2 ^ 32)%Z ->
  writeUInt32BE n =
    Ok [ (Z.of_nat n / 2 ^ 24) mod 256; (Z.of_nat n / 2 ^ 16) mod 256;
         (Z.of_nat n / 2 ^ 8) mod 256; Z.of_nat n mod 256 ]%Z.
Proof.
  intros Hn. unfold writeUInt32BE. rewrite decide_True by done.
  rewrite !Z.shiftr_div_pow2 by lia.
  change 255%Z with (Z.ones 8). rewrite !Z.land_ones by lia. reflexivity.
Qed.

Lemma read_write_UInt32BE (n : nat) (rest : bytes) (prefix : bytes) :
  writeUInt32BE n = Ok prefix ->
  readUInt32BE (prefix ++ rest) = Ok (Z.of_nat n).
Proof.
  intros Hw. pose proof Hw as Hw'. unfold writeUInt32BE in Hw'.
  case_decide as Hn; [|discriminate]. clear Hw'.
  rewrite writeUInt32BE_in_range in Hw by done. injection Hw as <-.
  cbn [app readUInt32BE]. f_equal.
  set (v := Z.of_nat n) in *. assert (0 <= v)%Z by lia.
  pose proof (Z.div_mod v 256 ltac:(lia)).
  pose proof (Z.div_mod (v / 2 ^ 8) 256 ltac:(lia)).
  pose proof (Z.div_mod (v / 2 ^ 16) 256 ltac:(lia)).
  assert (v / 2 ^ 16 = v / 2 ^ 8 / 256)%Z as E16
    by (rewrite Z.div_div by lia; reflexivity).
  assert (v / 2 ^ 24 = v / 2 ^ 16 / 256)%Z as E24
    by (rewrite Z.div_div by lia; reflexivity).
  assert (v / 2 ^ 24 < 256)%Z by (apply Z.div_lt_upper_bound; lia).
  assert (0 <= v / 2 ^ 24)%Z by (apply Z.div_pos; lia).
  rewrite (Z.mod_small (v / 2 ^ 24) 256) by lia.
  change (2 ^ 8)%Z with 256%Z in *. lia.
Qed.

Lemma padded_length (data : bytes) :
  length data + 4 <=
    ceil_div (4 + length data) PACKET_SIZE * PACKET_SIZE < length data + 4 + 256.
Proof.
  unfold PACKET_SIZE. pose proof (ceil_div_bounds (4 + length data)). lia.
Qed.

(** The frame [padPacket] builds, with its padding length. *)
Lemma padPacket_ok (data : bytes) :
  (Z.of_nat (length data) < 2 ^ 32)%Z ->
  let n := Z.of_nat (length data) in
  let prefix := [ (n / 2 ^ 24) mod 256; (n / 2 ^ 16) mod 256;
                  (n / 2 ^ 8) mod 256; n mod 256 ]%Z in
  let padded := ceil_div (4 + length data) PACKET_SIZE * PACKET_SIZE in
  padPacket data = Ok (prefix ++ data ++ replicate (padded - (4 + length data)) 0%Z) /\
  length (prefix ++ data ++ replicate (padded - (4 + length data)) 0%Z) = padded.
Proof.
  intros Hn n prefix padded.
  pose proof (padded_length data) as Hb. fold padded in Hb.
  assert (length (prefix ++ data ++ replicate (padded - (4 + length data)) 0%Z)
          = padded) as Hlen.
  { rewrite !length_app, length_replicate. simpl. lia. }
  split; [|exact Hlen].
  unfold padPacket. rewrite writeUInt32BE_in_range by done.
  fold n. fold prefix. cbv zeta. fold padded.
  unfold Buffer_concat, Buffer_alloc. f_equal.
  change (concat [prefix; data; replicate (padded - (4 + length data)) 0%Z])
    with (prefix ++ data ++ replicate (padded - (4 + length data)) 0%Z ++ []).
  rewrite app_nil_r. apply resize_all_alt. symmetry. exact Hlen.
Qed.

(** Whatever [padPacket] returns has a length that is a multiple of 256. *)
Lemma padPacket_length (data frame : bytes) :
  padPacket data = Ok frame -> length frame mod 256 = 0.
Proof.
  intros Hpad.
  assert (Z.of_nat (length data) < 2 ^ 32)%Z as Hn.
  { unfold padPacket, writeUInt32BE in Hpad. case_decide; [done | discriminate]. }
  destruct (padPacket_ok data Hn) as [Heq Hlen].
  match type of Heq with _ = Ok ?f => assert (frame = f) as -> by congruence end.
  rewrite Hlen. apply (ceil_div_bounds (4 + length data)).
Qed.

(** C7.  For a payload whose length fits the 32-bit prefix (every buffer
    built from a JavaScript string does), [padPacket] returns the 4-byte
    big-endian length, then the payload, then fewer than 256 zero bytes,
    up to the next multiple of 256; the frame length is a multiple of
    256. *)
Theorem padPacket_frame (data : bytes) :
  (Z.of_nat (length data) < 2 ^ 32)%Z ->
  let n := Z.of_nat (length data) in
  let prefix := [ (n / 2 ^ 24) mod 256; (n / 2 ^ 16) mod 256;
                  (n / 2 ^ 8) mod 256; n mod 256 ]%Z in
  exists padLen : nat,
    padPacket data = Ok (prefix ++ data ++ replicate padLen 0%Z) /\
    padLen < 256 /\
    length (prefix ++ data ++ replicate padLen 0%Z) mod 256 = 0.
Proof.
  intros Hn n prefix.
  destruct (padPacket_ok data Hn) as [Heq Hlen].
  pose proof (padded_length data) as Hb.
  exists (ceil_div (4 + length data) PACKET_SIZE * PACKET_SIZE - (4 + length data)).
  split; [exact Heq|]. split.
  { unfold PACKET_SIZE in *. lia. }
  eapply padPacket_length. exact Heq.
Qed.

Lemma padPacket_frame_witness :
  exists padLen : nat,
    padPacket [104; 105]%Z = Ok ([0; 0; 0; 2] ++ [104; 105] ++ replicate padLen 0)%Z /\
    padLen < 256 /\
    length ([0; 0; 0; 2] ++ [104; 105] ++ replicate padLen 0)%Z mod 256 = 0.
Proof. apply (padPacket_frame [104; 105]%Z). simpl. lia. Defined.

(** C8.  A frame shorter than its 4-byte prefix, or whose prefix announces
    more payload bytes than follow it, makes [removePacketPadding] throw;
    no payload is returned. *)
Theorem removePacketPadding_rejects (data : bytes) :
  length data < 4 \/
  (exists len : Z, readUInt32BE data = Ok len /\
                  (Z.of_nat (length data - 4) < len)%Z) ->
  exists msg : string, removePacketPadding data = Throw (Error msg).
Proof.
  intros [Hshort | (len & Hread & Hlen)]; unfold removePacketPadding.
  - rewrite decide_True by done. eauto.
  - case_decide; [eauto|]. rewrite Hread. rewrite decide_True by done. eauto.
Qed.

Lemma removePacketPadding_rejects_witness :
  exists msg : string, removePacketPadding [0; 0; 0; 9; 1; 2]%Z = Throw (Error msg).
Proof.
  apply (removePacketPadding_rejects [0; 0; 0; 9; 1; 2]%Z).
  right. exists 9%Z. split; [reflexivity | simpl; lia].
Defined.

(** Unframing undoes framing. *)
Lemma removePacketPadding_padPacket (data frame : bytes) :
  padPacket data = Ok frame -> removePacketPadding frame = Ok data.
Proof.
  intros Hpad.
  assert (Z.of_nat (length data) < 2 ^ 32)%Z as Hn.
  { unfold padPacket, writeUInt32BE in Hpad. case_decide; [done | discriminate]. }
  destruct (padPacket_ok data Hn) as [Heq _].
  match type of Heq with _ = Ok ?f => assert (frame = f) as -> by congruence end.
  set (pad := replicate _ 0%Z).
  unfold removePacketPadding.
  rewrite decide_False by (rewrite length_app; cbn [length]; lia).
  pose proof (read_write_UInt32BE (length data) (data ++ pad) _
                (writeUInt32BE_in_range _ Hn)) as Hread.
  rewrite Hread.
  rewrite decide_False by (rewrite !length_app; cbn [length]; lia).
  f_equal. unfold slice. rewrite Nat2Z.id.
  replace (4 + length data - 4) with (length data) by lia.
  cbn [app drop]. rewrite drop_0. apply take_app_length.
Qed.

(** The older framer hands [randombytes_buf] the padding buffer where the
    library takes a length: it throws on every payload, before a frame is
    built. *)
Lemma legacy_padPacket_throws (filled : nat -> bytes) (data : bytes) :
  LegacyFramer.padPacket filled data = Throw TypeError.
Proof. reflexivity. Qed.

End FramerFacts.

Section NetworkFacts.
Import Network.
Context {wire : Wire} {auth : Auth}.

(** C6.  On a socket that is not verified, a frame that is not a
    verification message changes nothing and only leaves a console line:
    the message callback is not invoked and nothing is written to the
    socket (so no [keepalive_ack] either). *)
Theorem unverified_frames_dropped (nm : NetworkManager) (data : bytes)
    (socket : Socket) (now : Z) :
  verifiedPeers nm !! socket = None ->
  is_verification_frame data = false ->
  exists text : string,
    handleIncomingData nm data socket now = (nm, [Console text]) /\
    forall e, e ∈ snd (handleIncomingData nm data socket now) ->
              delivers e = false /\ writes e = false.
Proof.
  intros Hunverified Hframe.
  unfold handleIncomingData, is_verification_frame in *.
  destruct (decode_frame data) as [[message ty] | err].
  - apply orb_false_iff in Hframe as [-> ->].
    rewrite decide_True by done.
    eexists; split; [reflexivity|].
    intros e He. apply list_elem_of_singleton in He as ->. done.
  - eexists; split; [reflexivity|].
    intros e He. apply list_elem_of_singleton in He as ->. done.
Qed.

(** What the manager writes to a socket is always a frame of
    [padPacket]. *)
Lemma write_padded_padded (socket : Socket) (obj : Json) (failure : string) :
  padded_writes (write_padded socket obj failure).
Proof.
  unfold write_padded, padded_writes. intros s frame.
  destruct (Framer.padPacket (JSON_stringify obj)) as [f|e] eqn:Hpad.
  - intros Hin. apply list_elem_of_singleton in Hin. injection Hin as -> ->.
    by eapply padPacket_length.
  - intros Hin. apply list_elem_of_singleton in Hin. discriminate.
Qed.

Lemma padded_writes_app (effs effs' : list Effect) :
  padded_writes effs -> padded_writes effs' -> padded_writes (effs ++ effs').
Proof.
  intros H1 H2 s frame Hin. apply elem_of_app in Hin as [Hin | Hin]; eauto.
Qed.

Lemma broadcast_padded (sockets : list Socket) (frame : bytes) :
  length frame mod 256 = 0 ->
  padded_writes ((fun socket => SocketWrite socket frame) <$> sockets).
Proof.
  intros Hlen s f Hin. apply list_elem_of_fmap in Hin as (s' & [= -> ->] & _). exact Hlen.
Qed.

Lemma handlePeerDisconnect_writes_nothing (nm : NetworkManager) (socket : Socket) :
  padded_writes (snd (handlePeerDisconnect nm socket)).
Proof.
  unfold handlePeerDisconnect, attemptReconnect.
  intros s frame. case_decide; cbn; [destruct (reconnectTimer nm); cbn|].
  all: intros Hin; repeat (apply elem_of_cons in Hin as [Hin | Hin]; [discriminate|]).
  all: by apply elem_of_nil in Hin.
Qed.

(** X2.  Every frame on the wire: the writes of the connection handler,
    of the inbound handler, of the keep-alive broadcast and of
    [sendMessage] all have a length that is a multiple of 256. *)
Lemma socket_writes_are_padded (nm : NetworkManager) :
  (forall socket challenge timer,
     padded_writes (snd (onConnection nm socket challenge timer))) /\
  (forall data socket now,
     padded_writes (snd (handleIncomingData nm data socket now))) /\
  (forall now jitter effs,
     broadcastKeepAlive nm now jitter = Ok effs -> padded_writes effs) /\
  (forall message now jitter effs,
     sendMessage nm message now jitter = Ok effs -> padded_writes effs).
Proof.
  repeat match goal with |- _ /\ _ => split end.
  - intros socket challenge timer. apply write_padded_padded.
  - intros data socket now. unfold handleIncomingData.
    assert (padded_writes []) as Hnil by (intros s f Hin; by apply elem_of_nil in Hin).
    assert (forall text, padded_writes [Console text]) as Hconsole.
    { intros text s f Hin. apply list_elem_of_singleton in Hin. discriminate. }
    destruct (decode_frame data) as [[message ty] | err]; [|apply Hconsole].
    destruct (is_str ty "verification_challenge").
    { cbn. unfold handleVerificationChallenge.
      destruct (roomPSK nm); [apply write_padded_padded | apply Hconsole]. }
    destruct (is_str ty "verification_response").
    { assert (padded_writes (snd (verifyPeer nm socket
                 (prop_or_undefined message "challenge")
                 (prop_or_undefined message "response") now))) as Hverify.
      { unfold verifyPeer.
        destruct (pendingVerifications nm !! socket); [|apply Hconsole].
        destruct (roomPSK nm) as [psk|]; cbn.
        - destruct (crypto_auth_verify _ _ psk); cbn.
          + destruct (Framer.padPacket _) as [f|e] eqn:Hpad; cbn.
            * intros s frame Hin.
              apply elem_of_cons in Hin as [Hin | Hin]; [discriminate|].
              apply list_elem_of_singleton in Hin. injection Hin as -> ->.
              by eapply padPacket_length.
            * intros s frame Hin.
              repeat (apply elem_of_cons in Hin as [Hin | Hin]; [discriminate|]).
              by apply elem_of_nil in Hin.
          + intros s frame Hin. apply list_elem_of_singleton in Hin. discriminate.
        - intros s frame Hin.
          repeat (apply elem_of_cons in Hin as [Hin | Hin]; [discriminate|]).
          by apply elem_of_nil in Hin. }
      destruct (verifyPeer _ _ _ _ _) as [[isValid nm1] effs]. cbn in Hverify.
      destruct isValid; [exact Hverify|].
      pose proof (handlePeerDisconnect_writes_nothing nm1 socket) as Hdisc.
      destruct (handlePeerDisconnect nm1 socket) as [nm2 effs2]. cbn in *.
      apply padded_writes_app; [exact Hverify|].
      change (padded_writes ([Console "Invalid verification response"] ++ effs2)).
      apply padded_writes_app; [apply Hconsole | exact Hdisc]. }
    case_decide; [apply Hconsole|].
    destruct (is_str ty "keepalive"); cbn.
    + apply write_padded_padded.
    + intros s f Hin. apply list_elem_of_singleton in Hin. discriminate.
  - intros now jitter effs. unfold broadcastKeepAlive.
    destruct (Framer.padPacket _) as [f|e] eqn:Hpad; [|discriminate].
    intros [= <-]. apply broadcast_padded. by eapply padPacket_length.
  - intros message now jitter effs. unfold sendMessage.
    destruct (isConnected nm); [|discriminate]. cbn.
    destruct (Framer.padPacket _) as [f|e] eqn:Hpad; [|discriminate].
    intros [= <-]. apply broadcast_padded. by eapply padPacket_length.
Qed.

End NetworkFacts.


(** ** The worker: heap and frame lemmas *)

Lemma lookup_heap_old (h l : list bytes) (a : nat) (x : bytes) :
  h !! a = Some x -> (h ++ l) !! a = Some x.
Proof. apply lookup_app_l_Some. Qed.

Lemma lookup_heap_new (h l : list bytes) (i : nat) :
  (h ++ l) !! (length h + i) = l !! i.
Proof. rewrite lookup_app_r by lia. f_equal. lia. Qed.

Lemma lookup_heap_new0 (h l : list bytes) :
  (h ++ l) !! length h = l !! 0.
Proof. rewrite <- (lookup_heap_new h l 0). f_equal. lia. Qed.

Lemma lookup_wipe_old (h l : list bytes) (a k : nat) (x : bytes) :
  h !! a = Some x -> length h <= k ->
  alter (fun b => replicate (length b) 0%Z) k (h ++ l) !! a = Some x.
Proof.
  intros Ha Hk. pose proof (lookup_lt_Some _ _ _ Ha).
  rewrite list_lookup_alter_ne by lia. by apply lookup_app_l_Some.
Qed.

Lemma wipe_new (h : list bytes) (x : bytes) (l : list bytes) :
  alter (fun b => replicate (length b) 0%Z) (length h) (h ++ x :: l)
    = h ++ replicate (length x) 0%Z :: l.
Proof.
  replace (length h) with (length h + 0) at 1 by lia.
  by rewrite alter_app_r.
Qed.

(** Unfolding the worker's operations down to heap lookups. *)
Ltac munfold :=
  unfold Worker.encryptMessage, Worker.decryptMessage, Worker.rotateRatchet,
    Worker.initialize, Worker.cleanup, Worker.wipe_if_set, Worker.stopKeepAlive,
    Worker.deriveMessageKey, Worker.kdf_derive_from_key, Worker.kx_keypair,
    Worker.kx_client_session_keys, Worker.aead_encrypt, Worker.aead_decrypt,
    Worker.sign_detached, Worker.sign_verify_detached, Worker.memcmp,
    Worker.the_dhKeyPair, Worker.randombytes,
    Worker.now, Worker.addJitter, Worker.wipeKey, Worker.memzero, Worker.sized,
    Worker.deref, Worker.alloc, Worker.this, Worker.assign, Worker.draw,
    Worker.when, Worker.ret, Worker.throw, Worker.bind, Worker.with_heap,
    Worker.with_ratchet, Worker.with_draws, Worker.with_keepAliveInterval in *.

(** Heaps are kept in the form [heap w ++ l], addresses in the form
    [length (heap w) + i]. *)
Ltac heap_norm :=
  repeat (rewrite <- ?app_assoc, ?length_app in *; cbn [app length] in * );
  repeat first
    [ rewrite lookup_heap_new in *
    | rewrite lookup_heap_new0 in *
    | match goal with
      | H : ?h !! ?a = Some ?x |- context [?h !! ?a] => rewrite H
      | H : ?h !! ?a = Some ?x |- context [(?h ++ ?l) !! ?a] =>
          rewrite (lookup_heap_old h l a x H)
      | H : ?h !! ?a = Some ?x, H' : context [(?h ++ ?l) !! ?a] |- _ =>
          rewrite (lookup_heap_old h l a x H) in H'
      end ];
  cbn [lookup list_lookup] in *.

(** The same, keeping [rotateRatchet] as one step. *)
Ltac munfold_decrypt :=
  unfold Worker.decryptMessage,
    Worker.deriveMessageKey, Worker.kdf_derive_from_key,
    Worker.aead_decrypt, Worker.sign_verify_detached, Worker.memcmp,
    Worker.wipeKey, Worker.memzero, Worker.sized, Worker.deref,
    Worker.alloc, Worker.this, Worker.assign, Worker.when,
    Worker.ret, Worker.throw, Worker.bind, Worker.with_heap,
    Worker.with_ratchet, Worker.with_draws, Worker.with_keepAliveInterval in *.

Ltac decide_all :=
  repeat match goal with
         | H : bool_decide _ = false |- _ => apply bool_decide_eq_false in H
         | H : bool_decide _ = true |- _ => apply bool_decide_eq_true in H
         end.

Ltac mcase :=
  match goal with
  | |- context [match ?x with _ => _ end] =>
      lazymatch x with
      | context [match _ with _ => _ end] => fail
      | _ => destruct x eqn:?
      end
  end; cbn.

(** The lengths the library asks for, as numbers. *)
Ltac lengths :=
  unfold Worker.crypto_kx_PUBLICKEYBYTES, Worker.crypto_kx_SECRETKEYBYTES,
    Worker.crypto_kdf_KEYBYTES, Worker.crypto_aead_xchacha20poly1305_ietf_NPUBBYTES,
    Worker.crypto_aead_xchacha20poly1305_ietf_KEYBYTES,
    Worker.crypto_aead_xchacha20poly1305_ietf_ABYTES, Worker.crypto_sign_BYTES,
    Worker.crypto_sign_PUBLICKEYBYTES, Worker.crypto_sign_SECRETKEYBYTES in *.

(** Settling the checks whose outcome the context decides. *)
Ltac checks :=
  repeat match goal with
         | |- context [decide ?P] =>
             first [ rewrite (decide_True (P := P)) by first [assumption | lia]
                   | rewrite (decide_False (P := P)) by first [assumption | lia] ]
         end.

(** Taking [opens] and [verifies] apart, down to the heap. *)
Ltac open_up H :=
  let remote := fresh "remote" in
  let mk := fresh "mk" in
  let pb := fresh "pb" in
  destruct H as ((remote & Hremote & Hrlen & Hslen & Hsig)
                 & mk & pb & Hmk & Hmklen & Hclen & Hnlen & Hdec & Hparse);
  pose proof Hmk as Hkey;
  unfold Worker.receiving_message_key, Worker.buffer in Hmk, Hremote;
  destruct (Worker.remotePublicKey (Worker.ratchet _)) as [ra|] eqn:Hra; [|discriminate];
  destruct (Worker.receivingKey (Worker.ratchet _)) as [ca|] eqn:Hca; [|discriminate];
  cbn in Hremote, Hmk;
  destruct (Worker.heap _ !! ca) as [chain|] eqn:Hchain; [|discriminate];
  cbn in Hmk;
  destruct (decide (length chain = Worker.crypto_kdf_KEYBYTES)) as [Hchainlen|]; [|discriminate];
  lengths.

Ltac run_decrypt :=
  munfold_decrypt; lengths;
  repeat (progress (cbn -[Worker.rotateRatchet];
                    repeat match goal with
                           | H : _ = Some _ |- _ => rewrite H
                           | H : _ = true |- _ => rewrite H
                           end;
                    heap_norm; checks)).

Section WorkerFacts.
Import Worker.
Context {sodium : Sodium} {host : Host}.

(** *** [rotateRatchet] and [initialize] *)

Lemma rotateRatchet_throws (w : World) :
  let w' := snd (rotateRatchet w) in
  (exists e, fst (rotateRatchet w) = Throw e) /\
  sendingKey (ratchet w') = sendingKey (ratchet w) /\
  receivingKey (ratchet w') = receivingKey (ratchet w) /\
  remotePublicKey (ratchet w') = remotePublicKey (ratchet w) /\
  messagesSent (ratchet w') = messagesSent (ratchet w) /\
  messagesReceived (ratchet w') = messagesReceived (ratchet w) /\
  seenMessages (ratchet w') = seenMessages (ratchet w) /\
  keepAliveInterval w' = keepAliveInterval w /\
  heap w `prefix_of` heap w'.
Proof.
  munfold. cbn. repeat mcase.
  all: split; [eauto|]; repeat (split; [first [reflexivity | congruence]|]).
  all: rewrite <- ?app_assoc; by apply prefix_app_r.
Qed.

(** Without a stored remote key the rotation stops at the key agreement,
    before it assigns anything. *)
Lemma rotateRatchet_without_remote (w : World) :
  remotePublicKey (ratchet w) = None ->
  fst (rotateRatchet w) = Throw TypeError /\
  ratchet (snd (rotateRatchet w)) = ratchet w.
Proof.
  intros Hremote. munfold. cbn. rewrite Hremote. repeat mcase.
  all: split; reflexivity.
Qed.


(** [initialize] never returns either: the key agreement refuses the
    bundle, or the key derivation refuses the root key that is not
    there.  It leaves the chain keys, the remote key, the counters and
    the replay set alone and wipes nothing; the key pair is replaced in
    any case. *)
Lemma initialize_throws (preKeyBundle : bytes) (w : World) :
  let w' := snd (initialize preKeyBundle w) in
  (exists e, fst (initialize preKeyBundle w) = Throw e) /\
  sendingKey (ratchet w') = sendingKey (ratchet w) /\
  receivingKey (ratchet w') = receivingKey (ratchet w) /\
  remotePublicKey (ratchet w') = remotePublicKey (ratchet w) /\
  messagesSent (ratchet w') = messagesSent (ratchet w) /\
  messagesReceived (ratchet w') = messagesReceived (ratchet w) /\
  seenMessages (ratchet w') = seenMessages (ratchet w) /\
  keepAliveInterval w' = keepAliveInterval w /\
  heap w `prefix_of` heap w'.
Proof.
  munfold. cbn. repeat mcase.
  all: split; [eauto|]; repeat (split; [first [reflexivity | congruence]|]).
  all: rewrite <- ?app_assoc; by apply prefix_app_r.
Qed.

Lemma initialize_keys (preKeyBundle : bytes) (w : World) :
  let w' := snd (initialize preKeyBundle w) in
  (rootKey (ratchet w') = rootKey (ratchet w) \/ rootKey (ratchet w') = None) /\
  exists keys,
    dhKeyPair (ratchet w') = Some keys /\
    heap w' !! publicKey keys = Some (fst (crypto_kx_keypair (draws w))) /\
    heap w' !! privateKey keys = Some (snd (crypto_kx_keypair (draws w))).
Proof.
  munfold. cbn. repeat mcase.
  all: split; [first [by left | by right]|].
  all: eexists; split; [reflexivity|]; cbn; heap_norm; cbn in *; split; congruence.
Qed.

(** When the bundle has the length of a public key and the library
    accepts it, [initialize] fails with the [TypeError] of the key
    derivation. *)
Lemma initialize_TypeError (preKeyBundle : bytes) (w : World) :
  length (fst (crypto_kx_keypair (draws w))) = crypto_kx_PUBLICKEYBYTES ->
  length (snd (crypto_kx_keypair (draws w))) = crypto_kx_SECRETKEYBYTES ->
  length preKeyBundle = crypto_kx_PUBLICKEYBYTES ->
  is_Some (crypto_kx_client_session_keys (fst (crypto_kx_keypair (draws w)))
             (snd (crypto_kx_keypair (draws w))) preKeyBundle) ->
  fst (initialize preKeyBundle w) = Throw TypeError /\
  rootKey (ratchet (snd (initialize preKeyBundle w))) = None.
Proof.
  intros Hpk Hsk Hbundle [shared Hshared]. munfold.
  repeat (progress (cbn; heap_norm; checks; rewrite ?Hshared)).
  split; reflexivity.
Qed.

(** *** [encryptMessage] *)

(** Without a sending chain key and below the rotation threshold,
    [encryptMessage] stops at [deriveMessageKey] and changes nothing. *)
Lemma encryptMessage_without_key (p : Content) (ka : bool) (w : World) :
  sendingKey (ratchet w) = None ->
  messagesSent (ratchet w) < RATCHET_MESSAGES ->
  encryptMessage p ka w = (Throw TypeError, w).
Proof.
  intros Hkey Hbelow. munfold. cbn.
  rewrite bool_decide_false by lia. rewrite andb_false_r. cbn.
  by rewrite Hkey.
Qed.

(** At the threshold a non-keep-alive [encryptMessage] is the rotation,
    which throws. *)
Lemma encryptMessage_at_threshold (p : Content) (w : World) :
  RATCHET_MESSAGES <= messagesSent (ratchet w) ->
  (exists e, fst (encryptMessage p false w) = Throw e) /\
  snd (encryptMessage p false w) = snd (rotateRatchet w).
Proof.
  intros Hdue.
  destruct (rotateRatchet_throws w) as ([e He] & _).
  destruct (rotateRatchet w) as [[[]|e'] w1] eqn:Hrot; cbn in He; [discriminate|].
  unfold encryptMessage.
  match goal with
  | |- context [bind this (fun r0 => bind _ ?k)] => generalize k
  end.
  intros rest. unfold bind, this, when. cbn -[rotateRatchet].
  rewrite bool_decide_true by done. rewrite Hrot. cbn. eauto.
Qed.

(** Whatever the state: an envelope comes back only below the threshold,
    from a call that counts the send and keeps the key pair; a call that
    throws leaves the send counter where it was.  Nothing else of the
    counters, the remote key and the replay set moves. *)
Lemma encryptMessage_cases (p : Content) (w : World) :
  let r := encryptMessage p false w in
  remotePublicKey (ratchet (snd r)) = remotePublicKey (ratchet w) /\
  messagesReceived (ratchet (snd r)) = messagesReceived (ratchet w) /\
  seenMessages (ratchet (snd r)) = seenMessages (ratchet w) /\
  keepAliveInterval (snd r) = keepAliveInterval w /\
  (((exists env, fst r = Ok env) /\ messagesSent (ratchet w) < RATCHET_MESSAGES /\
     messagesSent (ratchet (snd r)) = S (messagesSent (ratchet w)) /\
     dhKeyPair (ratchet (snd r)) = dhKeyPair (ratchet w))
   \/ ((exists e, fst r = Throw e) /\
       messagesSent (ratchet (snd r)) = messagesSent (ratchet w))).
Proof.
  munfold. cbn. repeat mcase.
  all: decide_all.
  all: repeat (split; [first [reflexivity | congruence]|]).
  all: first [ right; split; [eauto | first [reflexivity | congruence]]
             | left; split; [eauto|]; split; [lia|];
               split; first [reflexivity | congruence] ].
Qed.

(** A keep-alive encryption leaves the ratchet and all existing buffers
    as they were, whether it returns or throws. *)
Lemma encrypt_keepalive_frame (p : Content) (w : World) :
  frame w (snd (encryptMessage p true w)).
Proof.
  munfold. cbn. repeat mcase.
  all: split; [reflexivity|]; split; [reflexivity|]; intros a b Hab; heap_norm;
    first [done | by apply lookup_heap_old | apply lookup_wipe_old; [done | lia]].
Qed.

(** *** [decryptMessage] *)


(** An envelope that opens to a message not seen before and carrying a
    [dhKey]: the pair joins the replay set, and the comparison of the
    parsed [Array] with the stored key throws.  The receive counter has
    not moved, the remote key is the old one, the message key is not
    wiped. *)
Lemma decryptMessage_announcing (w : World) (env : Envelope) (m : Message) (key : bytes) :
  opens w env m ->
  dhKey m = Some key ->
  (counter m, timestamp m) ∉ seenMessages (ratchet w) ->
  exists mk w',
    receiving_message_key w = Some mk /\
    decryptMessage env w = (Throw TypeError, w') /\
    ratchet w' = set_seenMessages ({[(counter m, timestamp m)]} ∪ seenMessages (ratchet w))
                   (ratchet w) /\
    heap w' = heap w ++ [mk].
Proof.
  intros Hopens Hkeyed Hfresh. open_up Hopens. run_decrypt.
  rewrite bool_decide_false by done. cbn. eauto 10.
Qed.

(** An envelope that opens to a message not seen before and without a
    [dhKey] is accepted: the content is returned, the pair joins the
    replay set, the receive counter advances and the message key is
    wiped. *)
Lemma decryptMessage_bare (w : World) (env : Envelope) (m : Message) :
  opens w env m ->
  dhKey m = None ->
  (counter m, timestamp m) ∉ seenMessages (ratchet w) ->
  exists mk w',
    receiving_message_key w = Some mk /\
    decryptMessage env w = (Ok (content m), w') /\
    ratchet w' =
      set_messagesReceived (S (messagesReceived (ratchet w)))
        (set_seenMessages ({[(counter m, timestamp m)]} ∪ seenMessages (ratchet w))
           (ratchet w)) /\
    heap w' = heap w ++ [replicate (length mk) 0%Z].
Proof.
  intros Hopens Hkeyed Hfresh. open_up Hopens. run_decrypt.
  rewrite bool_decide_false by done. cbn. rewrite Hkeyed. cbn.
  rewrite wipe_new. eauto 10.
Qed.

(** An envelope whose signature verifies but which the AEAD rejects under
    the key of the current receive counter is refused with the
    decryption error; the ratchet is unchanged. *)
Lemma decryptMessage_wrong_key (w : World) (env : Envelope) (mk : bytes) :
  verifies w env ->
  receiving_message_key w = Some mk ->
  length mk = crypto_aead_xchacha20poly1305_ietf_KEYBYTES ->
  crypto_aead_xchacha20poly1305_ietf_ABYTES <= length (cipher env) ->
  length (nonce env) = crypto_aead_xchacha20poly1305_ietf_NPUBBYTES ->
  crypto_aead_xchacha20poly1305_ietf_decrypt (cipher env) (nonce env) mk = None ->
  exists w',
    decryptMessage env w =
      (Throw (SodiumError "ciphertext cannot be decrypted using that key"), w') /\
    ratchet w' = ratchet w /\ heap w' = heap w ++ [mk].
Proof.
  intros (remote & Hremote & Hrlen & Hslen & Hsig) Hmk Hmklen Hclen Hnlen Hdec.
  unfold receiving_message_key, buffer in Hmk, Hremote.
  destruct (remotePublicKey (ratchet w)) as [ra|] eqn:Hra; [|discriminate].
  destruct (receivingKey (ratchet w)) as [ca|] eqn:Hca; [|discriminate].
  cbn in Hremote, Hmk.
  destruct (heap w !! ca) as [chain|] eqn:Hchain; [|discriminate].
  cbn in Hmk.
  destruct (decide (length chain = crypto_kdf_KEYBYTES)) as [Hchainlen|]; [|discriminate].
  lengths. run_decrypt. rewrite Hdec. cbn. eauto.
Qed.


(** Every run of [decryptMessage] either throws before touching the
    ratchet, or the envelope opens to a message not seen before. *)
Lemma decryptMessage_cases (w : World) (env : Envelope) :
  (exists e, fst (decryptMessage env w) = Throw e /\
             ratchet (snd (decryptMessage env w)) = ratchet w) \/
  (exists m, opens w env m /\ (counter m, timestamp m) ∉ seenMessages (ratchet w)).
Proof.
  unfold opens, verifies, receiving_message_key, buffer. munfold_decrypt. cbn.
  destruct (decide (length (sig env) = crypto_sign_BYTES)) as [Hslen|]; cbn; [|eauto].
  destruct (remotePublicKey (ratchet w)) as [ra|]; cbn; [|eauto].
  destruct (heap w !! ra) as [remote|]; cbn; [|eauto].
  destruct (decide (length remote = crypto_sign_PUBLICKEYBYTES)) as [Hrlen|]; cbn; [|eauto].
  destruct (crypto_sign_verify_detached _ _ remote) eqn:Hsig; cbn; [|eauto].
  destruct (receivingKey (ratchet w)) as [ca|]; cbn; [|eauto].
  destruct (heap w !! ca) as [chain|]; cbn; [|eauto].
  destruct (decide (length chain = crypto_kdf_KEYBYTES)) as [Hchainlen|]; cbn; [|eauto].
  destruct (crypto_kdf_derive_from_key _ _ _ chain) as [mk|] eqn:Hmk; cbn; [|eauto].
  destruct (decide (length (cipher env) < _)) as [|Hclen]; cbn; [eauto|].
  destruct (decide (length (nonce env) = _)) as [Hnlen|]; cbn; [|eauto].
  heap_norm.
  destruct (decide (length mk = _)) as [Hmklen|]; cbn; [|eauto].
  destruct (crypto_aead_xchacha20poly1305_ietf_decrypt _ _ _) as [pb|] eqn:Hdec;
    cbn; [|eauto].
  destruct (JSON_parse pb) as [m|] eqn:Hparse; cbn; [|eauto].
  destruct (bool_decide _) eqn:Hseen; cbn; [eauto|].
  apply bool_decide_eq_false in Hseen.
  right. exists m. split; [|done].
  split; [eauto 10|]. exists mk, pb. repeat split; try done. lia.
Qed.

(** What [decryptMessage] returns, it returns for an envelope that
    opened to a message without [dhKey] and not seen before; the pair is
    in the replay set afterwards. *)
Lemma decryptMessage_accepted (w w1 : World) (env : Envelope) (p : Content) :
  decryptMessage env w = (Ok p, w1) ->
  exists m, opens w env m /\ content m = p /\ dhKey m = None /\
            ((counter m, timestamp m) ∉ seenMessages (ratchet w)) /\
            ((counter m, timestamp m) ∈ seenMessages (ratchet w1)) /\
            messagesReceived (ratchet w1) = S (messagesReceived (ratchet w)) /\
            remotePublicKey (ratchet w1) = remotePublicKey (ratchet w).
Proof.
  intros Hrun.
  destruct (decryptMessage_cases w env) as [(e & He & _) | (m & Hopens & Hfresh)].
  { rewrite Hrun in He. discriminate. }
  exists m. split; [done|].
  destruct (dhKey m) as [key|] eqn:Hkeyed.
  - destruct (decryptMessage_announcing w env m key Hopens Hkeyed Hfresh)
      as (mk & w' & _ & Hthrows & _).
    rewrite Hrun in Hthrows. discriminate.
  - destruct (decryptMessage_bare w env m Hopens Hkeyed Hfresh)
      as (mk & w' & _ & Hok & Hratchet & _).
    rewrite Hrun in Hok. injection Hok as -> ->. rewrite Hratchet. cbn.
    repeat split; try done. apply elem_of_union; left; by apply elem_of_singleton.
Qed.

(** Once the signature has verified and a message key is derived, that
    key is the one buffer [decryptMessage] adds to the heap: with its
    bytes when the call throws, zeroed when it returns. *)
Lemma decryptMessage_key_buffer (w : World) (env : Envelope) (mk : bytes) :
  verifies w env ->
  receiving_message_key w = Some mk ->
  match fst (decryptMessage env w) with
  | Throw _ => heap (snd (decryptMessage env w)) = heap w ++ [mk]
  | Ok _ => heap (snd (decryptMessage env w)) = heap w ++ [replicate (length mk) 0%Z]
  end.
Proof.
  intros (remote & Hremote & Hrlen & Hslen & Hsig) Hmk.
  unfold receiving_message_key, buffer in Hmk, Hremote.
  destruct (remotePublicKey (ratchet w)) as [ra|] eqn:Hra; [|discriminate].
  destruct (receivingKey (ratchet w)) as [ca|] eqn:Hca; [|discriminate].
  cbn in Hremote, Hmk.
  destruct (heap w !! ca) as [chain|] eqn:Hchain; [|discriminate].
  cbn in Hmk.
  destruct (decide (length chain = crypto_kdf_KEYBYTES)) as [Hchainlen|]; [|discriminate].
  lengths. run_decrypt.
  repeat mcase; heap_norm; try reflexivity.
  all: try (injection Heqo as <-); try apply wipe_new; try reflexivity.
Qed.

(** *** [cleanup] *)

(** The heap after [cleanup], buffer by buffer. *)
Lemma cleanup_heap (w : World) (a : ref) :
  fst (cleanup w) = Ok tt /\
  ratchet (snd (cleanup w)) = ratchet w /\
  heap (snd (cleanup w)) !! a =
    if wiped_by_cleanup (ratchet w) a
    then (fun b => replicate (length b) 0%Z) <$> heap w !! a
    else heap w !! a.
Proof.
  unfold wiped_by_cleanup. munfold. cbn.
  set (zero := fun b : bytes => replicate (length b) 0%Z).
  assert (forall o : option bytes, zero <$> (zero <$> o) = zero <$> o) as Hidem.
  { intros [b|]; cbn; [|done]. unfold zero. by rewrite length_replicate. }
  destruct (rootKey (ratchet w)) as [k1|], (sendingKey (ratchet w)) as [k2|],
    (receivingKey (ratchet w)) as [k3|]; cbn.
  all: split; [reflexivity|]; split; [reflexivity|].
  all: rewrite ?list_lookup_alter.
  all: repeat (case_bool_decide; cbn); repeat (case_decide; cbn);
       rewrite ?Hidem; first [reflexivity | congruence].
Qed.

(** *** Properties of the ratchet operations *)


(** C10.  Once the signature has verified, [decryptMessage] derives one
    key, the subkey of the stored receiving chain key whose id is the
    receive counter, and opens the ciphertext with it: that key is the
    one buffer the call adds to the heap; when the AEAD does not open the
    ciphertext under it the call fails with the decryption error and the
    ratchet is as before; and what the call returns is the content of the
    message in the plaintext that this key opens.  The counter inside the
    message plays no part.  So, assuming distinct subkey ids give
    distinct keys and a sealed box opens under no other key, an envelope
    sealed under the subkey of another counter is refused by the AEAD and
    the ratchet is left as it was: nothing is stored for later and no key
    is changed. *)
Theorem decrypt_key_from_receive_counter (w : World) (env : Envelope)
    (messageKey : bytes) :
  verifies w env ->
  receiving_message_key w = Some messageKey ->
  length messageKey = crypto_aead_xchacha20poly1305_ietf_KEYBYTES ->
  crypto_aead_xchacha20poly1305_ietf_ABYTES <= length (cipher env) ->
  length (nonce env) = crypto_aead_xchacha20poly1305_ietf_NPUBBYTES ->
  let result := decryptMessage env w in
  let opened :=
    crypto_aead_xchacha20poly1305_ietf_decrypt (cipher env) (nonce env) messageKey in
  match fst result with
  | Throw _ => heap (snd result) = heap w ++ [messageKey]
  | Ok _ => heap (snd result) = heap w ++ [replicate (length messageKey) 0%Z]
  end /\
  (opened = None ->
     fst result = Throw (SodiumError "ciphertext cannot be decrypted using that key") /\
     ratchet (snd result) = ratchet w) /\
  (forall p, fst result = Ok p ->
     exists plainBuf m,
       opened = Some plainBuf /\ JSON_parse plainBuf = Some m /\ content m = p) /\
  (kdf_separates_ids -> aead_key_binding ->
   forall chain c key m0,
     buffer w (receivingKey (ratchet w)) = Some chain ->
     crypto_kdf_derive_from_key 32 c "msg" chain = Some key ->
     c <> messagesReceived (ratchet w) ->
     cipher env
       = crypto_aead_xchacha20poly1305_ietf_encrypt (JSON_stringify m0) (nonce env) key ->
     fst result = Throw (SodiumError "ciphertext cannot be decrypted using that key") /\
     ratchet (snd result) = ratchet w).
Proof.
  intros Hverifies Hmk Hmklen Hclen Hnlen result opened.
  assert (opened = None ->
          fst result = Throw (SodiumError "ciphertext cannot be decrypted using that key")
          /\ ratchet (snd result) = ratchet w) as Hrefused.
  { intros Hnone.
    destruct (decryptMessage_wrong_key w env messageKey) as (w' & Hrun & Hr & _);
      try done.
    subst result. rewrite Hrun. done. }
  split; [apply decryptMessage_key_buffer; done|].
  split; [exact Hrefused|]. split.
  - intros p Hp. subst result.
    destruct (decryptMessage env w) as [res w1] eqn:Hrun. cbn in Hp. subst res.
    destruct (decryptMessage_accepted _ _ _ _ Hrun)
      as (m & (_ & mk & pb & Hmk' & _ & _ & _ & Hdec & Hparse) & Hcontent & _).
    rewrite Hmk in Hmk'. injection Hmk' as <-. eauto.
  - intros Hkdf Hbind chain c key m0 Hchain Hkey Hne Hcipher.
    apply Hrefused. subst opened. rewrite Hcipher. apply Hbind.
    intros <-. apply Hne.
    unfold receiving_message_key in Hmk. rewrite Hchain in Hmk. cbn in Hmk.
    case_decide; [|discriminate].
    exact (Hkdf _ _ _ _ _ Hkey Hmk).
Qed.

End WorkerFacts.
(** ** The executable instance: laws and concrete runs *)

Section ToyFacts.
Import Worker Toy.
#[local] Existing Instance Toy.sodium.
#[local] Existing Instance Toy.host.
#[local] Existing Instance Toy.wire.
#[local] Existing Instance Toy.auth.

Lemma strip_prefix_app (p m : bytes) : strip_prefix p (p ++ m) = Some m.
Proof. induction p as [|x p IH]; cbn; [done|]. by rewrite decide_True. Qed.

Lemma strip_prefix_Some (p l m : bytes) :
  strip_prefix p l = Some m -> l = p ++ m.
Proof.
  revert l. induction p as [|x p IH]; intros l; cbn.
  - by intros [= ->].
  - destruct l as [|y l]; [done|]. case_decide as Hxy; [|done].
    intros Hrest. subst y. f_equal. by apply IH.
Qed.

Lemma header_inj (nonce key key' m m' : bytes) :
  header nonce key ++ m = header nonce key' ++ m' -> key = key' /\ m = m'.
Proof.
  unfold header. cbn. intros [= Hlen Happ].
  apply Nat2Z.inj in Hlen.
  rewrite <- !app_assoc in Happ.
  apply app_inj_1 in Happ as [-> Hrest]; [|done].
  split; [done|]. cbn in Hrest. injection Hrest as Hrest.
  by apply app_inv_head in Hrest.
Qed.

Lemma toy_aead_key_binding : aead_key_binding.
Proof.
  intros m nonce key key' Hne.
  change (strip_prefix (header nonce key') (header nonce key ++ m) = None).
  destruct (strip_prefix _ _) as [x|] eqn:E; [|done].
  apply strip_prefix_Some in E. apply header_inj in E as [Hkey _]. congruence.
Qed.

Lemma toy_kdf_separates_ids : kdf_separates_ids.
Proof.
  intros id id' ctx key subkey H1 H2. cbn in H1, H2.
  rewrite <- H2 in H1. cbn in H1. injection H1 as H1. by apply Nat2Z.inj.
Qed.

Lemma ascii_of_code_of_ascii (l : list Ascii.ascii) :
  ascii_of_code <$> (code_of_ascii <$> l) = l.
Proof.
  induction l as [|a l IH]; cbn; [done|]. rewrite IH. f_equal.
  unfold ascii_of_code, code_of_ascii. rewrite Nat2Z.id.
  apply Ascii.ascii_nat_embedding.
Qed.

(** The hand-made receiver lets the signer's envelopes through, and
    opens the two envelopes sealed under the subkey of counter 0. *)
Lemma toy_verifies (received : nat) (seen : gset (nat * Z)) (m : Message) (c : nat) :
  verifies (receiver received seen) (envelope_of m c).
Proof.
  exists signer_public. split; [reflexivity|]. split; [reflexivity|].
  split; [|by apply bool_decide_eq_true].
  reflexivity.
Qed.

Lemma toy_message_key (received : nat) (seen : gset (nat * Z)) :
  receiving_message_key (receiver received seen) = Some (message_key received).
Proof. reflexivity. Qed.

Lemma toy_opens (seen : gset (nat * Z)) (m : Message) :
  JSON_parse (JSON_stringify m) = Some m ->
  opens (receiver 0 seen) (envelope_of m 0) m.
Proof.
  intros Hparse. split; [apply toy_verifies|].
  exists (message_key 0), (JSON_stringify m).
  split; [reflexivity|]. split; [reflexivity|].
  split; [cbn; unfold crypto_aead_xchacha20poly1305_ietf_ABYTES; lia|].
  split; [reflexivity|]. split; [apply strip_prefix_app | exact Hparse].
Qed.

Lemma toy_hello_opens (seen : gset (nat * Z)) :
  opens (receiver 0 seen) first_envelope hello.
Proof. by apply toy_opens. Qed.

Lemma toy_bare_opens (seen : gset (nat * Z)) :
  opens (receiver 0 seen) bare_envelope bare.
Proof. by apply toy_opens. Qed.

(** *** C2 *)


(** The envelope of a message with [dhKey], decrypted twice by the
    hand-made receiver: the first call throws at the comparison of the
    key, the second is refused as a replay. *)
Example first_envelope_twice :
  let w1 := snd (decryptMessage first_envelope (receiver 0 ∅)) in
  fst (decryptMessage first_envelope (receiver 0 ∅)) = Throw TypeError /\
  messagesReceived (ratchet w1) = 0 /\
  fst (decryptMessage first_envelope w1) = Throw (Error "Message replay detected").
Proof. vm_compute. repeat split. Qed.

(** The envelope of the same message without [dhKey] -- which
    [encryptMessage] does not build -- is accepted, the receive counter
    moves, and the second call fails at the AEAD. *)
Example bare_envelope_twice :
  let w1 := snd (decryptMessage bare_envelope (receiver 0 ∅)) in
  fst (decryptMessage bare_envelope (receiver 0 ∅)) = Ok (Text "hi") /\
  messagesReceived (ratchet w1) = 1 /\
  fst (decryptMessage bare_envelope w1)
    = Throw (SodiumError "ciphertext cannot be decrypted using that key").
Proof. vm_compute. repeat split. Qed.

(** *** C4 *)


(** *** C5 *)

(** C5 on the code.  [cleanup] zeroes exactly the buffers of the root
    key and of the two chain keys; every other buffer keeps its bytes.
    Run at a worker after its [initialize] request: the private key of
    the local key pair, stored by [initialize] before it threw, is as it
    was. *)
Theorem cleanup_leaves_private_key :
  (forall (w : World) (a : ref),
     heap (snd (cleanup w)) !! a =
       if wiped_by_cleanup (ratchet w) a
       then (fun b => replicate (length b) 0%Z) <$> heap w !! a
       else heap w !! a) /\
  let w := initialized in
  let w' := snd (cleanup w) in
  fst (cleanup w) = Ok tt /\
  buffer w (privateKey <$> dhKeyPair (ratchet w)) = Some (replicate 32 1%Z) /\
  buffer w' (privateKey <$> dhKeyPair (ratchet w')) = Some (replicate 32 1%Z) /\
  ~ all_zero (replicate 32 1%Z).
Proof.
  split; [intros w a; apply cleanup_heap|].
  cbv zeta. repeat split; try (vm_compute; reflexivity); discriminate.
Qed.

(** *** C6 *)

Lemma unverified_frames_dropped_witness :
  let data := [0; 0; 0; 1; 1]%Z in
  Network.verifiedPeers fresh_manager !! 7 = None /\
  Network.is_verification_frame data = false /\
  exists text : string,
    Network.handleIncomingData fresh_manager data 7 0%Z
      = (fresh_manager, [Network.Console text]) /\
    forall e, e ∈ snd (Network.handleIncomingData fresh_manager data 7 0%Z) ->
              Network.delivers e = false /\ Network.writes e = false.
Proof.
  intros data.
  split; [reflexivity|]. split; [reflexivity|].
  apply (unverified_frames_dropped fresh_manager data 7 0%Z); reflexivity.
Defined.

(** *** C10 *)

Lemma decrypt_key_from_receive_counter_witness :
  let w := receiver 0 ∅ in
  let env := envelope_of hello 1 in
  let result := decryptMessage env w in
  verifies w env /\
  receiving_message_key w = Some (message_key 0) /\
  fst result = Throw (SodiumError "ciphertext cannot be decrypted using that key") /\
  ratchet (snd result) = ratchet w /\
  heap (snd result) = heap w ++ [message_key 0].
Proof.
  intros w env result.
  split; [apply toy_verifies|]. split; [reflexivity|].
  destruct (decrypt_key_from_receive_counter w env (message_key 0))
    as (Hheap & _ & _ & Hother).
  - apply toy_verifies.
  - reflexivity.
  - reflexivity.
  - vm_compute. lia.
  - reflexivity.
  - destruct (Hother toy_kdf_separates_ids toy_aead_key_binding
                chain 1 (message_key 1) hello) as [Hthrow Hratchet].
    + reflexivity.
    + reflexivity.
    + discriminate.
    + reflexivity.
    + fold result in Hthrow, Hratchet, Hheap. rewrite Hthrow in Hheap.
      split; [exact Hthrow|]. split; [exact Hratchet | exact Hheap].
Defined.

(** An envelope sealed under the subkey of counter 1, at a receiver that
    is still at receive counter 0: the AEAD refuses it.  The same
    envelope at receive counter 1 gets as far as the comparison of its
    [dhKey]. *)
Example skipped_envelope_refused :
  fst (decryptMessage (envelope_of hello 1) (receiver 0 ∅))
    = Throw (SodiumError "ciphertext cannot be decrypted using that key") /\
  fst (decryptMessage (envelope_of hello 1) (receiver 1 ∅)) = Throw TypeError.
Proof. vm_compute. split; reflexivity. Qed.

(** A worker that was handed a sending chain key, with a key pair as
    [crypto_kx_keypair] makes them: the private key has 32 bytes where
    [crypto_sign_detached] takes 64, and [encryptMessage] throws after it
    has derived the message key, which stays in memory. *)
Example kx_private_key_cannot_sign :
  let r := encryptMessage (Text "hi") false (sender 0) in
  fst r = Throw TypeError /\
  messagesSent (ratchet (snd r)) = 0 /\
  heap (snd r) = heap (sender 0) ++ [message_key 0].
Proof. vm_compute. repeat split. Qed.

End ToyFacts.

(** * Further properties of the transport *)

Section FramingFacts.
Import Framer.

(** X1.  [padPacket] accepts exactly the payloads shorter than 2^32 bytes
    (a longer one is a [RangeError], no frame is built), and
    [removePacketPadding] gives the payload back from the frame, whatever
    follows the payload: the padding bytes are not inspected. *)
Theorem unframing_undoes_framing (data : bytes) :
  if decide (Z.of_nat (length data) < 2 ^ 32)%Z then
    exists prefix padLen,
      length prefix = 4 /\
      padPacket data = Ok (prefix ++ data ++ replicate padLen 0%Z) /\
      forall tail, removePacketPadding (prefix ++ data ++ tail) = Ok data
  else padPacket data = Throw RangeError.
Proof.
  case_decide as Hn.
  - destruct (padPacket_ok data Hn) as [Heq _].
    eexists _, _. split; [|split; [exact Heq|]]; [reflexivity|].
    intros tail. unfold removePacketPadding.
    rewrite decide_False by (rewrite length_app; cbn [length]; lia).
    pose proof (read_write_UInt32BE (length data) (data ++ tail) _
                  (writeUInt32BE_in_range _ Hn)) as Hread.
    rewrite Hread.
    rewrite decide_False by (rewrite !length_app; cbn [length]; lia).
    f_equal. unfold slice. rewrite Nat2Z.id.
    replace (4 + length data - 4) with (length data) by lia.
    cbn [app drop]. rewrite drop_0. apply take_app_length.
  - unfold padPacket, writeUInt32BE. by rewrite decide_False.
Qed.

End FramingFacts.

Section SessionFacts.
Import Framer Network Session.
Context {wire : Wire} {auth : Auth}.

Lemma is_str_true (ty : option Json) (text : string) :
  is_str ty text = true -> ty = Some (JStr text).
Proof.
  destruct ty as [[]|]; cbn; try discriminate.
  intros H. apply bool_decide_eq_true in H. by subst.
Qed.

Lemma is_str_other (ty : option Json) (text other : string) :
  is_str ty text = true -> other <> text -> is_str ty other = false.
Proof.
  intros H Hne. apply is_str_true in H as ->. cbn.
  apply bool_decide_eq_false. congruence.
Qed.

(** A value that travels is what the receiver decodes from its frame. *)
Lemma decode_frame_travels (value : Json) (ty : option Json) :
  travels value ->
  get_prop value "type" = Ok ty ->
  exists frame,
    padPacket (JSON_stringify value) = Ok frame /\
    decode_frame frame = Ok (value, ty).
Proof.
  intros [Hlen Hparse] Hty.
  destruct (padPacket_ok _ Hlen) as [Hpad _].
  eexists. split; [exact Hpad|].
  unfold decode_frame.
  rewrite (removePacketPadding_padPacket _ _ Hpad), Hparse, Hty. reflexivity.
Qed.

Lemma handlePeerDisconnect_fields (nm : NetworkManager) (socket : Socket) :
  let nm' := fst (handlePeerDisconnect nm socket) in
  sockets nm' = sockets nm ∖ {[socket]} /\
  verifiedPeers nm' = verifiedPeers nm /\
  pendingVerifications nm' = pendingVerifications nm /\
  roomPSK nm' = roomPSK nm.
Proof.
  unfold handlePeerDisconnect, attemptReconnect.
  case_decide; [destruct (reconnectTimer nm)|]; cbn; done.
Qed.

(** Splits the result of a [handlePeerDisconnect] in the goal, keeping
    what it does to the verified peers. *)
Ltac split_disconnect Hv :=
  match goal with |- context [handlePeerDisconnect ?n ?s] =>
    pose proof (handlePeerDisconnect_fields n s) as (_ & Hv & _);
    destruct (handlePeerDisconnect n s); cbn in Hv |- *
  end.

(** X3.  The handshake, end to end.  When a connection opens, the manager
    writes a challenge frame; a peer that holds the same room key answers
    that frame with a response frame; on that response the manager records
    the socket as verified (with the time and the challenge), adds it to
    the broadcast set, marks itself connected, drops the pending entry,
    clears the timeout and writes a success frame.  The codec is assumed
    to carry the three control objects and the two byte arrays, and
    [crypto_auth_verify] to accept the tag [crypto_auth] computes. *)
Theorem handshake_verifies_peer (verifier peer : NetworkManager)
    (socket back : Socket) (challenge psk : bytes) (timer : nat) (now now' : Z) :
  roomPSK verifier = Some psk ->
  roomPSK peer = Some psk ->
  array_roundtrip challenge ->
  array_roundtrip (crypto_auth challenge psk) ->
  crypto_auth_verify (crypto_auth challenge psk) challenge psk = true ->
  travels (challenge_object challenge) ->
  travels (response_object (crypto_auth challenge psk)) ->
  (Z.of_nat (length (JSON_stringify (success_object now'))) < 2 ^ 32)%Z ->
  exists f1 f2 f3 waiting verified,
    onConnection verifier socket challenge timer = (waiting, [SocketWrite socket f1]) /\
    handleIncomingData peer f1 back now = (peer, [SocketWrite back f2]) /\
    handleIncomingData waiting f2 socket now'
      = (verified, [ClearTimeout timer; SocketWrite socket f3]) /\
    padPacket (JSON_stringify (success_object now')) = Ok f3 /\
    verifiedPeers verified !! socket
      = Some {| verifiedAt := now'; verifiedChallenge := challenge |} /\
    socket ∈ sockets verified /\
    isConnected verified = true /\
    pendingVerifications verified !! socket = None.
Proof.
  intros Hpsk Hpsk' Hc Htag Hverify Hchal Hresp Hsucc.
  destruct (decode_frame_travels _ _ Hchal eq_refl) as (f1 & Hpad1 & Hdec1).
  destruct (decode_frame_travels _ _ Hresp eq_refl) as (f2 & Hpad2 & Hdec2).
  destruct (padPacket_ok _ Hsucc) as [Hpad3 _].
  eexists f1, f2, _, _, _.
  split.
  { unfold onConnection, write_padded.
    change (JObj [("type", JStr "verification_challenge");
                  ("challenge", Array_from challenge)])
      with (challenge_object challenge).
    rewrite Hpad1. reflexivity. }
  split.
  { unfold handleIncomingData. rewrite Hdec1.
    change (is_str (Some (JStr "verification_challenge")) "verification_challenge")
      with true. cbv iota.
    unfold handleVerificationChallenge. rewrite Hpsk'.
    change (prop_or_undefined (challenge_object challenge) "challenge")
      with (Some (Array_from challenge)).
    rewrite Hc. unfold write_padded.
    change (JObj [("type", JStr "verification_response");
                  ("response", Array_from (crypto_auth challenge psk))])
      with (response_object (crypto_auth challenge psk)).
    rewrite Hpad2. reflexivity. }
  split.
  { unfold handleIncomingData. rewrite Hdec2.
    change (is_str (Some (JStr "verification_response")) "verification_challenge")
      with false.
    change (is_str (Some (JStr "verification_response")) "verification_response")
      with true. cbv iota.
    change (prop_or_undefined (response_object (crypto_auth challenge psk)) "response")
      with (Some (Array_from (crypto_auth challenge psk))).
    unfold verifyPeer. cbn [pendingVerifications roomPSK].
    rewrite lookup_insert_eq, Hpsk. cbn [Network.challenge timeout].
    rewrite Htag, Hverify.
    change (JObj [("type", JStr "verification_success"); ("timestamp", JNum now')])
      with (success_object now').
    rewrite Hpad3. reflexivity. }
  split; [exact Hpad3|].
  cbn. rewrite lookup_insert_eq, lookup_delete_eq.
  repeat split; try done. apply elem_of_union_r, elem_of_singleton_2. done.
Qed.

(** X4.  The inbound handler changes the table of verified peers in one
    way only: it records the sending socket, and only when the frame is a
    [verification_response], a verification is pending for that socket,
    and the tag in the frame verifies against the stored challenge under
    the room key.  In every other case the table is left as it was; in
    particular no entry is ever removed. *)
Theorem verification_sound (nm : NetworkManager) (data : bytes)
    (socket : Socket) (now : Z) :
  let nm' := fst (handleIncomingData nm data socket now) in
  verifiedPeers nm' = verifiedPeers nm \/
  exists message ty pending psk,
    decode_frame data = Ok (message, ty) /\
    is_str ty "verification_response" = true /\
    pendingVerifications nm !! socket = Some pending /\
    roomPSK nm = Some psk /\
    crypto_auth_verify (Uint8Array_of (prop_or_undefined message "response"))
      (challenge pending) psk = true /\
    verifiedPeers nm'
      = <[socket := {| verifiedAt := now; verifiedChallenge := challenge pending |}]>
          (verifiedPeers nm).
Proof.
  unfold handleIncomingData.
  destruct (decode_frame data) as [[message ty] | err] eqn:Hdec; [|by left].
  destruct (is_str ty "verification_challenge"); [by left|].
  destruct (is_str ty "verification_response") eqn:Hresp.
  2: { case_decide; [by left|]. destruct (is_str ty "keepalive"); by left. }
  unfold verifyPeer.
  destruct (pendingVerifications nm !! socket) as [pending|] eqn:Hpending.
  2: { left. split_disconnect Hv. exact Hv. }
  destruct (roomPSK nm) as [psk|] eqn:Hpsk.
  2: { left. split_disconnect Hv. exact Hv. }
  destruct (crypto_auth_verify _ _ psk) eqn:Hverify.
  2: { left. split_disconnect Hv. exact Hv. }
  right. exists message, ty, pending, psk.
  repeat (split; [done|]).
  destruct (padPacket _); cbn; [reflexivity|].
  split_disconnect Hv. exact Hv.
Qed.

(** What the handler does with a frame that is not a verification
    message depends on the manager through its verified peers only. *)
Lemma handleIncomingData_by_verifiedPeers (nm nm' : NetworkManager) (data : bytes)
    (socket : Socket) (now : Z) :
  is_verification_frame data = false ->
  verifiedPeers nm' = verifiedPeers nm ->
  snd (handleIncomingData nm' data socket now)
    = snd (handleIncomingData nm data socket now) /\
  fst (handleIncomingData nm data socket now) = nm.
Proof.
  intros Hframe Hv. unfold handleIncomingData, is_verification_frame in *.
  destruct (decode_frame data) as [[message ty] | err]; [|done].
  apply orb_false_iff in Hframe as [-> ->]. rewrite Hv.
  case_decide; [done|]. by destruct (is_str ty "keepalive").
Qed.

(** X5.  A disconnect does not revoke a verification: after
    [handlePeerDisconnect], for the ended socket or any other, the table
    of verified peers is what it was, and every frame that is not a
    verification message is handled exactly as before the disconnect
    (delivered to the callback, or answered with an ack, if the sending
    socket was verified). *)
Theorem disconnect_keeps_verification (nm : NetworkManager) (ended socket : Socket)
    (data : bytes) (now : Z) :
  is_verification_frame data = false ->
  let nm' := fst (handlePeerDisconnect nm ended) in
  verifiedPeers nm' = verifiedPeers nm /\
  (ended ∉ sockets nm') /\
  handleIncomingData nm' data socket now
    = (nm', snd (handleIncomingData nm data socket now)).
Proof.
  intros Hframe nm'.
  destruct (handlePeerDisconnect_fields nm ended) as (Hs & Hv & _).
  fold nm' in Hs, Hv. split; [exact Hv|]. split.
  { rewrite Hs. set_unfold. tauto. }
  destruct (handleIncomingData_by_verifiedPeers nm nm' data socket now Hframe Hv)
    as [Heffs _].
  destruct (handleIncomingData_by_verifiedPeers nm' nm' data socket now Hframe eq_refl)
    as [_ Hsame].
  apply injective_projections; cbn [fst snd]; [exact Hsame | exact Heffs].
Qed.

(** What a [verification_response] frame does to the pending entry, the
    verified peers and the broadcast set when nothing is pending. *)
Lemma response_without_pending (nm : NetworkManager) (data : bytes)
    (socket : Socket) (now : Z) (message : Json) (ty : option Json) :
  decode_frame data = Ok (message, ty) ->
  is_str ty "verification_response" = true ->
  pendingVerifications nm !! socket = None ->
  let result := handleIncomingData nm data socket now in
  verifiedPeers (fst result) = verifiedPeers nm /\
  sockets (fst result) = sockets nm ∖ {[socket]} /\
  forall e, e ∈ snd result -> writes e = false /\ delivers e = false.
Proof.
  intros Hdec Hresp Hpending. unfold handleIncomingData. rewrite Hdec.
  rewrite (is_str_other _ _ "verification_challenge" Hresp) by done.
  rewrite Hresp. unfold verifyPeer. rewrite Hpending.
  unfold handlePeerDisconnect, attemptReconnect.
  case_decide; [destruct (reconnectTimer nm)|]; cbn.
  all: split; [done|]; split; [done|].
  all: intros e Hin; repeat (apply elem_of_cons in Hin as [-> | Hin]; [done|]).
  all: by apply elem_of_nil in Hin.
Qed.

Lemma response_consumes_pending (nm : NetworkManager) (data : bytes)
    (socket : Socket) (now : Z) (message : Json) (ty : option Json) :
  decode_frame data = Ok (message, ty) ->
  is_str ty "verification_response" = true ->
  pendingVerifications (fst (handleIncomingData nm data socket now)) !! socket = None.
Proof.
  intros Hdec Hresp. unfold handleIncomingData. rewrite Hdec.
  rewrite (is_str_other _ _ "verification_challenge" Hresp) by done.
  rewrite Hresp. unfold verifyPeer.
  destruct (pendingVerifications nm !! socket) as [pending|] eqn:Hpending.
  2: { match goal with |- context [handlePeerDisconnect ?n ?s] =>
         pose proof (handlePeerDisconnect_fields n s) as (_ & _ & Hp & _);
         destruct (handlePeerDisconnect n s); cbn in Hp |- * end.
       by rewrite Hp. }
  destruct (roomPSK nm) as [psk|].
  2: { match goal with |- context [handlePeerDisconnect ?n ?s] =>
         pose proof (handlePeerDisconnect_fields n s) as (_ & _ & Hp & _);
         destruct (handlePeerDisconnect n s); cbn in Hp |- * end.
       rewrite Hp. apply lookup_delete_eq. }
  destruct (crypto_auth_verify _ _ psk).
  2: { match goal with |- context [handlePeerDisconnect ?n ?s] =>
         pose proof (handlePeerDisconnect_fields n s) as (_ & _ & Hp & _);
         destruct (handlePeerDisconnect n s); cbn in Hp |- * end.
       rewrite Hp. apply lookup_delete_eq. }
  destruct (padPacket _); cbn; [apply lookup_delete_eq|].
  match goal with |- context [handlePeerDisconnect ?n ?s] =>
    pose proof (handlePeerDisconnect_fields n s) as (_ & _ & Hp & _);
    destruct (handlePeerDisconnect n s); cbn in Hp |- * end.
  rewrite Hp. apply lookup_delete_eq.
Qed.

(** X6.  A challenge can be answered once.  Whatever a
    [verification_response] frame contains, handling it removes the
    socket's pending verification; a further response on that socket then
    verifies nobody, writes and delivers nothing, and takes the socket out
    of the broadcast set. *)
Theorem challenge_answered_once (nm : NetworkManager) (first second : bytes)
    (socket : Socket) (now now' : Z) (m1 m2 : Json) (ty1 ty2 : option Json) :
  decode_frame first = Ok (m1, ty1) ->
  is_str ty1 "verification_response" = true ->
  decode_frame second = Ok (m2, ty2) ->
  is_str ty2 "verification_response" = true ->
  let nm1 := fst (handleIncomingData nm first socket now) in
  let result := handleIncomingData nm1 second socket now' in
  pendingVerifications nm1 !! socket = None /\
  verifiedPeers (fst result) = verifiedPeers nm1 /\
  (socket ∉ sockets (fst result)) /\
  forall e, e ∈ snd result -> writes e = false /\ delivers e = false.
Proof.
  intros Hdec1 Hresp1 Hdec2 Hresp2 nm1 result.
  pose proof (response_consumes_pending nm first socket now m1 ty1 Hdec1 Hresp1)
    as Hpending.
  fold nm1 in Hpending. split; [exact Hpending|].
  destruct (response_without_pending nm1 second socket now' m2 ty2 Hdec2 Hresp2 Hpending)
    as (Hv & Hs & Heffs).
  fold result in Hv, Hs, Heffs.
  split; [exact Hv|]. split; [|exact Heffs].
  rewrite Hs. set_unfold. tauto.
Qed.

Lemma handlePeerDisconnect_timer (nm : NetworkManager) (socket : Socket) :
  let result := handlePeerDisconnect nm socket in
  length (List.filter schedules (snd result))
    + (if reconnectTimer nm then 1 else 0)
    = (if reconnectTimer (fst result) then 1 else 0) /\
  (sockets (fst result) = ∅ ->
   isConnected (fst result) = false /\ reconnectTimer (fst result) = true).
Proof.
  unfold handlePeerDisconnect, attemptReconnect.
  case_decide as Hsize; [destruct (reconnectTimer nm) eqn:Ht|]; cbn; rewrite ?Ht.
  1-2: done.
  split; [by destruct (reconnectTimer nm)|].
  intros Hempty. rewrite Hempty in Hsize. by rewrite size_empty in Hsize.
Qed.

Lemma disconnect_all_timer (ended : list Socket) (nm : NetworkManager) :
  let result := disconnect_all nm ended in
  length (List.filter schedules (snd result))
    + (if reconnectTimer nm then 1 else 0)
    = (if reconnectTimer (fst result) then 1 else 0) /\
  sockets (fst result) = sockets nm ∖ list_to_set ended /\
  (ended <> [] -> sockets (fst result) = ∅ ->
   isConnected (fst result) = false /\ reconnectTimer (fst result) = true).
Proof.
  revert nm. induction ended as [|socket rest IH]; intros nm; cbn.
  { split; [done|]. split; [by rewrite difference_empty_L|done]. }
  destruct (handlePeerDisconnect_timer nm socket) as [Hcount Hlast].
  destruct (handlePeerDisconnect_fields nm socket) as (Hs & _).
  destruct (handlePeerDisconnect nm socket) as [nm1 effs1]. cbn in Hcount, Hlast, Hs.
  specialize (IH nm1). destruct IH as (IHcount & IHs & IHlast).
  destruct (disconnect_all nm1 rest) as [nm2 effs2] eqn:Hrest. cbn in *.
  split.
  { rewrite List.filter_app, length_app. lia. }
  split.
  { rewrite IHs, Hs. apply difference_difference_l_L. }
  intros _ Hempty. destruct rest as [|next rest'].
  - cbn in Hrest. injection Hrest as <- <-. by apply Hlast.
  - by apply IHlast.
Qed.

Lemma handleIncomingData_timer (nm : NetworkManager) (data : bytes)
    (socket : Socket) (now : Z) :
  let result := handleIncomingData nm data socket now in
  length (List.filter schedules (snd result))
    + (if reconnectTimer nm then 1 else 0)
    = (if reconnectTimer (fst result) then 1 else 0).
Proof.
  unfold handleIncomingData.
  destruct (decode_frame data) as [[message ty] | err]; [|by cbn].
  destruct (is_str ty "verification_challenge").
  { cbn. unfold handleVerificationChallenge, write_padded.
    destruct (roomPSK nm); [|done]. by destruct (padPacket _). }
  destruct (is_str ty "verification_response").
  2: { case_decide; [done|]. destruct (is_str ty "keepalive"); [|done].
       cbn. unfold handleKeepAlive, write_padded. by destruct (padPacket _). }
  unfold verifyPeer.
  destruct (pendingVerifications nm !! socket) as [pending|].
  2: { destruct (handlePeerDisconnect_timer nm socket) as [Hd _].
       destruct (handlePeerDisconnect nm socket). cbn in Hd |- *. exact Hd. }
  destruct (roomPSK nm) as [psk|].
  2: { match goal with |- context [handlePeerDisconnect ?n ?s] =>
         destruct (handlePeerDisconnect_timer n s) as [Hd _];
         destruct (handlePeerDisconnect n s) end.
       cbn in Hd |- *. exact Hd. }
  destruct (crypto_auth_verify _ _ psk).
  2: { match goal with |- context [handlePeerDisconnect ?n ?s] =>
         destruct (handlePeerDisconnect_timer n s) as [Hd _];
         destruct (handlePeerDisconnect n s) end.
       cbn in Hd |- *. exact Hd. }
  destruct (padPacket _); [done|].
  match goal with |- context [handlePeerDisconnect ?n ?s] =>
    destruct (handlePeerDisconnect_timer n s) as [Hd _];
    destruct (handlePeerDisconnect n s) end.
  cbn in Hd |- *. exact Hd.
Qed.

(** One event: what it schedules is paid for by the timer it found
    pending, by its own firing, or by the timer it leaves pending. *)
Lemma step_timer (nm : NetworkManager) (ev : Event) :
  let result := step nm ev in
  length (List.filter schedules (snd result))
    + (if reconnectTimer nm then 1 else 0)
    <= (if fires ev then 1 else 0)
       + (if reconnectTimer (fst result) then 1 else 0).
Proof.
  destruct ev as [socket challenge timer | socket data now | socket | socket
                 | | swarm rejoin]; cbn [step fires].
  - cbn. unfold write_padded. destruct (padPacket _); cbn; lia.
  - pose proof (handleIncomingData_timer nm data socket now) as Hd. cbn in Hd. lia.
  - destruct (handlePeerDisconnect_timer nm socket) as [Hd _]. cbn in Hd. lia.
  - unfold onVerificationTimeout. case_decide as Hpending; [|cbn; lia].
    destruct (handlePeerDisconnect_timer nm socket) as [Hd _].
    destruct (handlePeerDisconnect nm socket). cbn in Hd |- *. lia.
  - unfold onSwarmError, attemptReconnect.
    destruct (reconnectTimer nm) eqn:Ht; cbn; rewrite ?Ht; lia.
  - destruct (reconnectTimer nm) eqn:Ht; [|cbn; rewrite Ht; lia].
    unfold onReconnectTimeout.
    destruct (swarm && negb (isConnected nm)); [destruct rejoin|]; cbn; lia.
Qed.

Lemma run_timer (evs : list Event) (nm : NetworkManager) :
  let result := run nm evs in
  length (List.filter schedules (snd result))
    + (if reconnectTimer nm then 1 else 0)
    <= length (List.filter fires evs)
       + (if reconnectTimer (fst result) then 1 else 0).
Proof.
  revert nm. induction evs as [|ev rest IH]; intros nm; cbn [run].
  { cbn. lia. }
  pose proof (step_timer nm ev) as Hstep.
  destruct (step nm ev) as [nm1 effs]. cbn [fst snd] in Hstep.
  specialize (IH nm1). destruct (run nm1 rest) as [nm2 effs']. cbn [fst snd] in IH |- *.
  rewrite List.filter_app, length_app. cbn [List.filter].
  destruct (fires ev); cbn [length]; lia.
Qed.

(** X7.  One reconnect timer at a time.  Over any sequence of connections,
    inbound frames, ended sockets, verification timeouts, swarm errors and
    firings of the reconnect timer, the reconnects scheduled, plus the one
    pending at the start, are at most the firings plus the one pending at
    the end: so at most one more reconnect is scheduled than timers have
    fired, and no more than have fired when one was pending at the start.
    The callback of the timer resets the field, and the next socket end
    that empties the broadcast set schedules again.  For socket ends with
    no firing between them: at most one reconnect is scheduled, none when
    one is pending, and when the broadcast set is empty after the last of
    them the manager is marked disconnected with a reconnect pending. *)
Theorem reconnect_scheduled_once (nm : NetworkManager) (evs : list Event)
    (ended : list Socket) (socket : Socket) (swarm : bool) (rejoin : Result unit) :
  (let result := run nm evs in
   length (List.filter schedules (snd result))
     + (if reconnectTimer nm then 1 else 0)
     <= length (List.filter fires evs)
        + (if reconnectTimer (fst result) then 1 else 0)) /\
  (let result := run nm [End_ socket; ReconnectTimeout swarm rejoin; End_ socket] in
   sockets nm ⊆ {[socket]} ->
   reconnectTimer nm = false ->
   List.filter schedules (snd result) = [ScheduleReconnect; ScheduleReconnect] /\
   reconnectTimer (fst result) = true) /\
  (let result := disconnect_all nm ended in
   length (List.filter schedules (snd result)) <= 1 /\
   (reconnectTimer nm = true -> List.filter schedules (snd result) = []) /\
   sockets (fst result) = sockets nm ∖ list_to_set ended /\
   (ended <> [] -> sockets nm ⊆ list_to_set ended ->
    isConnected (fst result) = false /\ reconnectTimer (fst result) = true)).
Proof.
  split; [apply run_timer|]. split.
  - cbn [run step]. intros Hsub Ht.
    assert (sockets nm ∖ {[socket]} = ∅) as Hempty
      by by apply subseteq_empty_difference_L.
    assert ((∅ : gset Socket) ∖ {[socket]} = ∅) as Hempty'
      by apply subseteq_empty_difference_L, empty_subseteq.
    unfold handlePeerDisconnect, attemptReconnect, onReconnectTimeout.
    rewrite Hempty, Ht. rewrite (decide_True (P := size ∅ = 0)) by apply size_empty.
    cbn. rewrite Hempty'. rewrite (decide_True (P := size ∅ = 0)) by apply size_empty.
    cbn.
    destruct swarm, rejoin; cbn; done.
  - intros result.
    destruct (disconnect_all_timer ended nm) as (Hcount & Hs & Hlast).
    fold result in Hcount, Hs, Hlast.
    split; [destruct (reconnectTimer nm), (reconnectTimer (fst result)); lia|].
    split.
    { intros Ht. rewrite Ht in Hcount.
      destruct (List.filter schedules (snd result)); [done|].
      destruct (reconnectTimer (fst result)); cbn in Hcount; lia. }
    split; [exact Hs|].
    intros Hne Hall. apply Hlast; [exact Hne|]. rewrite Hs.
    by apply subseteq_empty_difference_L.
Qed.

(** X8.  A message handed to [sendMessage] reaches the callback of a
    receiver that has verified the sender's socket, stamped with the
    jittered time (which replaces a [timestamp] the caller put in it) and
    otherwise unchanged, and the receiver writes nothing back.  This is
    for a message whose [type] is none of [verification_challenge],
    [verification_response] and [keepalive], and that the codec carries. *)
Theorem sent_message_is_delivered (sender receiver : NetworkManager)
    (message : list (string * Json)) (now jitter now' : Z) (back : Socket) :
  isConnected sender = true ->
  is_Some (verifiedPeers receiver !! back) ->
  let stamped := JObj (set_prop message "timestamp" (JNum (addJitter now jitter))) in
  travels stamped ->
  reserved (prop_or_undefined stamped "type") = false ->
  exists frame,
    sendMessage sender message now jitter
      = Ok ((fun socket => SocketWrite socket frame) <$> elements (sockets sender)) /\
    handleIncomingData receiver frame back now' = (receiver, [OnMessage stamped]).
Proof.
  intros Hconnected [v Hverified] stamped Htravels Hreserved.
  destruct (decode_frame_travels stamped _ Htravels eq_refl) as (frame & Hpad & Hdec).
  exists frame. split.
  { unfold sendMessage. rewrite Hconnected. cbn [negb].
    fold stamped. rewrite Hpad. reflexivity. }
  unfold handleIncomingData. rewrite Hdec.
  unfold reserved in Hreserved.
  change (prop_or_undefined stamped "type")
    with (snd <$> find (fun kv : string * Json => bool_decide (fst kv = "type"))
                    (set_prop message "timestamp" (JNum (addJitter now jitter))))
    in Hreserved.
  apply orb_false_iff in Hreserved as [Hreserved ->].
  apply orb_false_iff in Hreserved as [-> ->].
  rewrite decide_False by (rewrite Hverified; done). reflexivity.
Qed.

(** X9.  A keep-alive round.  The frame [broadcastKeepAlive] writes makes
    a receiver that has verified the socket answer with one
    [keepalive_ack] frame and deliver nothing; that ack, back at the
    broadcaster, matches none of the types the handler keeps for itself
    and is handed to the message callback like an application message. *)
Theorem keepalive_ack_reaches_callback (pinger ponger : NetworkManager)
    (socket back : Socket) (now jitter now' now'' : Z) :
  is_Some (verifiedPeers ponger !! back) ->
  is_Some (verifiedPeers pinger !! socket) ->
  travels (JObj [("type", JStr "keepalive"); ("timestamp", JNum (addJitter now jitter))]) ->
  travels (JObj [("type", JStr "keepalive_ack"); ("timestamp", JNum now')]) ->
  exists ping ack,
    broadcastKeepAlive pinger now jitter
      = Ok ((fun s => SocketWrite s ping) <$> elements (sockets pinger)) /\
    handleIncomingData ponger ping back now' = (ponger, [SocketWrite back ack]) /\
    handleIncomingData pinger ack socket now''
      = (pinger, [OnMessage (JObj [("type", JStr "keepalive_ack");
                                   ("timestamp", JNum now')])]).
Proof.
  intros [v Hponger] [v' Hpinger] Hping Hack.
  destruct (decode_frame_travels _ _ Hping eq_refl) as (ping & Hpad1 & Hdec1).
  destruct (decode_frame_travels _ _ Hack eq_refl) as (ack & Hpad2 & Hdec2).
  exists ping, ack. split.
  { unfold broadcastKeepAlive. rewrite Hpad1. reflexivity. }
  split.
  - unfold handleIncomingData. rewrite Hdec1.
    change (is_str (Some (JStr "keepalive")) "verification_challenge") with false.
    change (is_str (Some (JStr "keepalive")) "verification_response") with false.
    change (is_str (Some (JStr "keepalive")) "keepalive") with true. cbv iota.
    rewrite decide_False by (rewrite Hponger; done).
    unfold handleKeepAlive, write_padded. rewrite Hpad2. reflexivity.
  - unfold handleIncomingData. rewrite Hdec2.
    change (is_str (Some (JStr "keepalive_ack")) "verification_challenge") with false.
    change (is_str (Some (JStr "keepalive_ack")) "verification_response") with false.
    change (is_str (Some (JStr "keepalive_ack")) "keepalive") with false. cbv iota.
    rewrite decide_False by (rewrite Hpinger; done). reflexivity.
Qed.

Lemma ended_sockets (interval timer destroy : bool) (open : gset Socket)
    (socket : Socket) :
  SocketEnd socket
    ∈ (if interval then [ClearInterval] else [])
      ++ (if timer then [ClearReconnect] else [])
      ++ (SocketEnd <$> elements open)
      ++ (if destroy then [SwarmDestroy] else [])
  <-> socket ∈ open.
Proof.
  rewrite !elem_of_app, list_elem_of_fmap. split.
  - intros [H | [H | [(s' & [= ->] & H) | H]]].
    + destruct interval; [apply list_elem_of_singleton in H|apply elem_of_nil in H]; done.
    + destruct timer; [apply list_elem_of_singleton in H|apply elem_of_nil in H]; done.
    + by apply elem_of_elements in H.
    + destruct destroy; [apply list_elem_of_singleton in H|apply elem_of_nil in H]; done.
  - intros H. right. right. left. exists socket. split; [done|].
    by apply elem_of_elements.
Qed.

(** X10.  [cleanup] ends every socket of the broadcast set once, empties
    the set, stops the keep-alive and cancels a scheduled reconnect, but
    it leaves [isConnected], the verified peers and the pending
    verifications as they were.  So on a manager that was connected,
    [sendMessage] after [cleanup] still returns normally, and writes to
    no socket. *)
Theorem cleanup_leaves_connected_flag (m : Manager)
    (message : list (string * Json)) (now jitter : Z) :
  isConnected (core m) = true ->
  (Z.of_nat (length (JSON_stringify
     (JObj (set_prop message "timestamp" (JNum (addJitter now jitter)))))) < 2 ^ 32)%Z ->
  let m' := fst (cleanup m) in
  sockets (core m') = ∅ /\
  keepAliveInterval m' = false /\
  reconnectTimer (core m') = false /\
  (forall socket, SocketEnd socket ∈ snd (cleanup m) <-> socket ∈ sockets (core m)) /\
  isConnected (core m') = true /\
  verifiedPeers (core m') = verifiedPeers (core m) /\
  pendingVerifications (core m') = pendingVerifications (core m) /\
  sendMessage (core m') message now jitter = Ok [].
Proof.
  intros Hconnected Hlen m'.
  subst m'. unfold cleanup, stopKeepAlive.
  destruct (keepAliveInterval m) eqn:Hk; cbn -[sendMessage].
  all: repeat (split; [done|]).
  all: split; [intros socket;
               first [ exact (ended_sockets true _ _ _ socket)
                     | exact (ended_sockets false _ _ _ socket) ]|].
  all: repeat (split; [done|]).
  all: unfold sendMessage; cbn [isConnected sockets]; rewrite Hconnected; cbn [negb].
  all: destruct (padPacket_ok _ Hlen) as [-> _]; by rewrite elements_empty.
Qed.

End SessionFacts.

Section LegacyFacts.
Import LegacyNetwork.

Lemma scan_spec (data : bytes) (n : nat) :
  n <= length data ->
  scan data n <= n /\
  take n data = take (scan data n) data ++ replicate (n - scan data n) 0%Z /\
  (scan data n = 0 \/
   exists x, data !! (scan data n - 1) = Some x /\ x <> 0%Z).
Proof.
  induction n as [|b IH]; intros Hn; cbn [scan].
  { split; [done|]. split; [by rewrite app_nil_r | by left]. }
  case_decide as Hzero.
  - destruct IH as (Hle & Htake & Hlast); [lia|].
    split; [lia|]. split; [|exact Hlast].
    rewrite (take_S_r _ _ _ Hzero), Htake, <- app_assoc. f_equal.
    replace (S b - scan data b) with (S (b - scan data b)) by lia.
    by rewrite replicate_S_end.
  - split; [done|]. split.
    { by rewrite Nat.sub_diag, app_nil_r. }
    right. destruct (lookup_lt_is_Some_2 data b ltac:(lia)) as [x Hx].
    exists x. replace (S b - 1) with b by lia. split; [exact Hx|]. congruence.
Qed.

Lemma scan_zeros (p : bytes) (k j : nat) :
  j <= k ->
  scan (p ++ replicate k 0%Z) (length p + j) = scan (p ++ replicate k 0%Z) (length p).
Proof.
  induction j as [|j IH]; intros Hj.
  { by rewrite Nat.add_0_r. }
  rewrite Nat.add_succ_r. cbn [scan].
  rewrite decide_True; [apply IH; lia|].
  rewrite lookup_app_r by lia.
  apply lookup_replicate_2. lia.
Qed.

Lemma removePacketPadding_zeros (p : bytes) (k : nat) :
  last p <> Some 0%Z ->
  removePacketPadding (p ++ replicate k 0%Z) = p.
Proof.
  intros Hlast. unfold removePacketPadding.
  rewrite length_app, length_replicate, scan_zeros by done.
  assert (scan (p ++ replicate k 0%Z) (length p) = length p) as ->.
  { destruct (length p) as [|b] eqn:Hlen; [done|]. cbn [scan].
    rewrite decide_False; [done|].
    rewrite lookup_app_l by lia.
    rewrite last_lookup, Hlen in Hlast. exact Hlast. }
  by rewrite take_app_length.
Qed.

(** What the older unframer returns, and what it cuts off. *)
Lemma removePacketPadding_split (data : bytes) :
  exists k,
    data = removePacketPadding data ++ replicate k 0%Z /\
    last (removePacketPadding data) <> Some 0%Z.
Proof.
  destruct (scan_spec data (length data) ltac:(done)) as (Hle & Htake & Hlast).
  rewrite firstn_all in Htake.
  exists (length data - scan data (length data)).
  split; [exact Htake|]. unfold removePacketPadding.
  rewrite last_lookup, length_take, Nat.min_l by done.
  destruct Hlast as [-> | (x & Hx & Hne)]; [done|].
  destruct (scan data (length data)) as [|e]; [done|].
  cbn [Nat.pred]. replace (S e - 1) with e in Hx by lia.
  rewrite lookup_take_lt by lia. rewrite Hx. congruence.
Qed.

(** X11.  The older [removePacketPadding] cuts the longest run of zero
    bytes off the end of the frame, padding or not: what it returns is a
    prefix of the frame that does not end in a zero byte, the rest of the
    frame is zeros, and no other prefix of the frame is like that. *)
Theorem legacy_unframing_strips_zeros (data : bytes) :
  exists k,
    data = removePacketPadding data ++ replicate k 0%Z /\
    last (removePacketPadding data) <> Some 0%Z /\
    forall payload n,
      data = payload ++ replicate n 0%Z -> last payload <> Some 0%Z ->
      payload = removePacketPadding data.
Proof.
  destruct (removePacketPadding_split data) as (k & Hsplit & Hlast).
  exists k. split; [exact Hsplit|]. split; [exact Hlast|].
  intros payload n -> Hpayload. symmetry. by apply removePacketPadding_zeros.
Qed.

(** X12.  The older framer does not get as far as a frame: [padPacket]
    hands [randombytes_buf] the padding buffer where the library takes a
    length, and throws a [TypeError] on every payload.  Of a frame
    [data ++ padding] that arrives, the older [removePacketPadding]
    returns [data] in one case only: [data] does not end in a zero byte
    and every byte of [padding] is zero. *)
Theorem legacy_roundtrip_iff (filled : nat -> bytes) (data padding : bytes) :
  LegacyFramer.padPacket filled data = Throw TypeError /\
  (removePacketPadding (data ++ padding) = data <->
   last data <> Some 0%Z /\ padding = replicate (length padding) 0%Z).
Proof.
  split; [reflexivity|]. split.
  - intros Hback.
    destruct (removePacketPadding_split (data ++ padding)) as (k & Hsplit & Hlast).
    rewrite Hback in Hsplit, Hlast. split; [exact Hlast|].
    apply app_inv_head in Hsplit. rewrite Hsplit at 1.
    by rewrite Hsplit, length_replicate.
  - intros [Hlast ->]. by apply removePacketPadding_zeros.
Qed.

End LegacyFacts.

(** ** The transport on concrete managers *)

Section ToyControlFacts.
Import Framer Network Session ToyControl.
#[local] Existing Instance ToyControl.wire.
#[local] Existing Instance Toy.auth.

Lemma handshake_verifies_peer_witness :
  exists f1 f2 f3 waiting verified,
    onConnection Toy.fresh_manager 7 [1; 2; 3]%Z 9 = (waiting, [SocketWrite 7 f1]) /\
    handleIncomingData peer_manager f1 3 100%Z = (peer_manager, [SocketWrite 3 f2]) /\
    handleIncomingData waiting f2 7 200%Z
      = (verified, [ClearTimeout 9; SocketWrite 7 f3]) /\
    padPacket (JSON_stringify (success_object 200%Z)) = Ok f3 /\
    verifiedPeers verified !! 7
      = Some {| verifiedAt := 200%Z; verifiedChallenge := [1; 2; 3]%Z |} /\
    7 ∈ sockets verified /\
    isConnected verified = true /\
    pendingVerifications verified !! 7 = None.
Proof.
  apply (handshake_verifies_peer Toy.fresh_manager peer_manager 7 3
           [1; 2; 3]%Z [5; 5]%Z 9 100%Z 200%Z).
  - reflexivity.
  - reflexivity.
  - reflexivity.
  - reflexivity.
  - reflexivity.
  - split; [vm_compute; reflexivity | reflexivity].
  - split; [vm_compute; reflexivity | reflexivity].
  - vm_compute. reflexivity.
Defined.

Lemma disconnect_keeps_verification_witness :
  let data := [0; 0; 0; 2; 7; 50]%Z in
  let nm' := fst (handlePeerDisconnect peer_manager 3) in
  verifiedPeers nm' = verifiedPeers peer_manager /\
  (3 ∉ sockets nm') /\
  handleIncomingData nm' data 3 0%Z
    = (nm', snd (handleIncomingData peer_manager data 3 0%Z)).
Proof.
  intros data.
  apply (disconnect_keeps_verification peer_manager 3 3 data 0%Z). reflexivity.
Defined.

Lemma challenge_answered_once_witness :
  let waiting := fst (onConnection Toy.fresh_manager 7 [1; 2; 3]%Z 9) in
  let response := [0; 0; 0; 2; 2; 9]%Z in
  let nm1 := fst (handleIncomingData waiting response 7 0%Z) in
  let result := handleIncomingData nm1 response 7 1%Z in
  pendingVerifications nm1 !! 7 = None /\
  verifiedPeers (fst result) = verifiedPeers nm1 /\
  (7 ∉ sockets (fst result)) /\
  forall e, e ∈ snd result -> writes e = false /\ delivers e = false.
Proof.
  intros waiting response.
  apply (challenge_answered_once waiting response response 7 0%Z 1%Z
           (response_object [9%Z]) (response_object [9%Z])
           (Some (JStr "verification_response")) (Some (JStr "verification_response")));
    reflexivity.
Defined.

Lemma sent_message_is_delivered_witness :
  let message := [("type", JStr "chat"); ("text", JStr "hi")] in
  let stamped := JObj (set_prop message "timestamp" (JNum (addJitter 1000 (-20)))) in
  exists frame,
    sendMessage peer_manager message 1000%Z (-20)%Z
      = Ok ((fun socket => SocketWrite socket frame) <$> elements (sockets peer_manager)) /\
    handleIncomingData peer_manager frame 3 1001%Z = (peer_manager, [OnMessage stamped]).
Proof.
  intros message.
  apply (sent_message_is_delivered peer_manager peer_manager message
           1000%Z (-20)%Z 1001%Z 3).
  - reflexivity.
  - eexists. reflexivity.
  - split; [vm_compute; reflexivity | reflexivity].
  - reflexivity.
Defined.

Lemma keepalive_ack_reaches_callback_witness :
  exists ping ack,
    broadcastKeepAlive peer_manager 1000%Z 30%Z
      = Ok ((fun s => SocketWrite s ping) <$> elements (sockets peer_manager)) /\
    handleIncomingData peer_manager ping 3 1005%Z = (peer_manager, [SocketWrite 3 ack]) /\
    handleIncomingData peer_manager ack 3 1010%Z
      = (peer_manager, [OnMessage (JObj [("type", JStr "keepalive_ack");
                                         ("timestamp", JNum 1005)])]).
Proof.
  apply (keepalive_ack_reaches_callback peer_manager peer_manager 3 3
           1000%Z 30%Z 1005%Z 1010%Z).
  - eexists. reflexivity.
  - eexists. reflexivity.
  - split; [vm_compute; reflexivity | reflexivity].
  - split; [vm_compute; reflexivity | reflexivity].
Defined.

Lemma cleanup_leaves_connected_flag_witness :
  let m := {| core := peer_manager; swarm := true; keepAliveInterval := true |} in
  let message := [("type", JStr "chat"); ("text", JStr "hi")] in
  let m' := fst (cleanup m) in
  sockets (core m') = ∅ /\
  keepAliveInterval m' = false /\
  reconnectTimer (core m') = false /\
  (forall socket, SocketEnd socket ∈ snd (cleanup m) <-> socket ∈ sockets (core m)) /\
  isConnected (core m') = true /\
  verifiedPeers (core m') = verifiedPeers (core m) /\
  pendingVerifications (core m') = pendingVerifications (core m) /\
  sendMessage (core m') message 1000%Z 0%Z = Ok [].
Proof.
  intros m message.
  apply (cleanup_leaves_connected_flag m message 1000%Z 0%Z).
  - reflexivity.
  - vm_compute. reflexivity.
Defined.

End ToyControlFacts.

(** * Further properties of the worker *)

(** Unfolding the cases of the RPC handler as well. *)
Ltac rpc_unfold :=
  unfold Rpc.onmessage, Rpc.sealFile, Rpc.openFile, Rpc.generatePreKeyBundle,
    Rpc.startKeepAlive in *; munfold.

(** Going through [decryptMessage] or [openFile] case by case, with what
    [Worker.rotateRatchet] keeps. *)
Ltac decrypt_cases :=
  munfold_decrypt; cbn -[Worker.rotateRatchet];
  repeat match goal with
         | |- context [Worker.rotateRatchet ?w0] =>
             pose proof (rotateRatchet_throws w0) as (_ & _ & _ & _ & _ & _ & ? & ? & _);
             destruct (Worker.rotateRatchet w0) as [[[]|?] ?]; cbn -[Worker.rotateRatchet] in *
         | |- context [match ?x with _ => _ end] =>
             lazymatch x with
             | context [match _ with _ => _ end] => fail
             | context [Worker.rotateRatchet] => fail
             | _ => destruct x eqn:?
             end; cbn -[Worker.rotateRatchet] in *
         end.

Section RpcFacts.
Import Worker Rpc.
Context {sodium : Sodium} {host : Host} {files : FileCodec}.

(** *** The operations one by one *)

Lemma sealFile_without_key (data : bytes) (name type : string) (w : World) :
  sendingKey (ratchet w) = None ->
  messagesSent (ratchet w) < RATCHET_MESSAGES ->
  sealFile data name type w = (Throw TypeError, w).
Proof.
  intros Hkey Hbelow. rpc_unfold. cbn.
  rewrite bool_decide_false by lia. cbn. by rewrite Hkey.
Qed.

Lemma sealFile_cases (data : bytes) (name type : string) (w : World) :
  let r := sealFile data name type w in
  remotePublicKey (ratchet (snd r)) = remotePublicKey (ratchet w) /\
  messagesReceived (ratchet (snd r)) = messagesReceived (ratchet w) /\
  seenMessages (ratchet (snd r)) = seenMessages (ratchet w) /\
  keepAliveInterval (snd r) = keepAliveInterval w /\
  (((exists env, fst r = Ok env) /\ messagesSent (ratchet w) < RATCHET_MESSAGES /\
     messagesSent (ratchet (snd r)) = S (messagesSent (ratchet w)) /\
     dhKeyPair (ratchet (snd r)) = dhKeyPair (ratchet w))
   \/ ((exists e, fst r = Throw e) /\
       messagesSent (ratchet (snd r)) = messagesSent (ratchet w))).
Proof.
  rpc_unfold. cbn. repeat mcase.
  all: decide_all.
  all: repeat (split; [first [reflexivity | congruence]|]).
  all: first [ right; split; [eauto | first [reflexivity | congruence]]
             | left; split; [eauto|]; split; [lia|];
               split; first [reflexivity | congruence] ].
Qed.

(** Without a stored remote key the signature check throws, whatever the
    envelope. *)
Lemma open_without_remote (env : Envelope) (w : World) :
  remotePublicKey (ratchet w) = None ->
  decryptMessage env w = (Throw TypeError, w) /\
  openFile env w = (Throw TypeError, w).
Proof.
  intros Hremote. rpc_unfold. cbn. rewrite Hremote.
  by destruct (decide (length (sig env) = crypto_sign_BYTES)).
Qed.

Lemma generatePreKeyBundle_ratchet (w : World) :
  ratchet (snd (generatePreKeyBundle w)) = ratchet w /\
  keepAliveInterval (snd (generatePreKeyBundle w)) = keepAliveInterval w.
Proof. rpc_unfold. cbn. repeat mcase. all: done. Qed.

Lemma keepAliveTick_frame (w : World) : frame w (snd (keepAliveTick w)).
Proof.
  unfold keepAliveTick, randombytes. unfold bind at 1. unfold draw at 1.
  unfold bind at 1. unfold ret at 1.
  pose proof (encrypt_keepalive_frame (Payload (randombytes_buf 32 (draws w)))
                (with_draws (S (draws w)) w)) as Hframe.
  destruct (encryptMessage _ true _) as [[env|e] w']; exact Hframe.
Qed.

Lemma keepAliveTick_ratchet (w : World) :
  ratchet (snd (keepAliveTick w)) = ratchet w.
Proof. apply keepAliveTick_frame. Qed.

(** *** While no remote key is stored *)

Lemma onmessage_without_remote (req : Request) (w : World) :
  remotePublicKey (ratchet w) = None ->
  let res := fst (onmessage req w) in
  let w' := snd (onmessage req w) in
  remotePublicKey (ratchet w') = None /\
  opened (Reply res) = false /\
  messagesSent (ratchet w')
    = messagesSent (ratchet w) + (if sealed (Reply res) then 1 else 0) /\
  (messagesSent (ratchet w') <= messagesSent (ratchet w) `max` RATCHET_MESSAGES).
Proof.
  intros Hremote. destruct req; unfold onmessage, bind.
  - destruct (initialize_throws preKeyBundle w) as ([e He] & _ & _ & Hr & Hs & _).
    destruct (initialize preKeyBundle w) as [[[]|e'] w1]; cbn in *; [discriminate|].
    rewrite Hr, Hs; split; [done|]; split; [done|]; lia.
  - pose proof (generatePreKeyBundle_ratchet w) as [Hr _].
    destruct (generatePreKeyBundle w) as [[kp|e] w1]; cbn in *.
    all: rewrite Hr; split; [done|]; split; [done|]; lia.
  - destruct (encryptMessage_cases plain w) as (Hr & _ & _ & _ & Hcases).
    destruct (encryptMessage plain false w) as [[env|e] w1]; cbn in *.
    all: rewrite Hr; split; [done|]; split; [done|].
    all: destruct Hcases as [([? ?] & Hlt & -> & _) | ([? ?] & ->)]; try done.
    all: unfold RATCHET_MESSAGES in *; lia.
  - destruct (open_without_remote env w Hremote) as [-> _]. cbn.
    split; [done|]; split; [done|]; lia.
  - destruct (sealFile_cases fileData0 fileName0 fileType0 w) as (Hr & _ & _ & _ & Hcases).
    destruct (sealFile fileData0 fileName0 fileType0 w) as [[env|e] w1]; cbn in *.
    all: rewrite Hr; split; [done|]; split; [done|].
    all: destruct Hcases as [([? ?] & Hlt & -> & _) | ([? ?] & ->)]; try done.
    all: unfold RATCHET_MESSAGES in *; lia.
  - destruct (open_without_remote env w Hremote) as [_ ->]. cbn.
    split; [done|]; split; [done|]; lia.
  - destruct (cleanup_heap w 0) as (Hok & Hr & _).
    destruct (cleanup w) as [[[]|e] w1]; cbn in *; [|discriminate].
    rewrite Hr. split; [done|]; split; [done|]; lia.
  - cbn. split; [done|]; split; [done|]; lia.
Qed.

Lemma step_without_remote (ev : Event) (w : World) :
  remotePublicKey (ratchet w) = None ->
  let posted := fst (step ev w) in
  let w' := snd (step ev w) in
  remotePublicKey (ratchet w') = None /\
  (forall p, p ∈ posted -> opened p = false) /\
  messagesSent (ratchet w') = messagesSent (ratchet w) + length (List.filter sealed posted) /\
  (messagesSent (ratchet w') <= messagesSent (ratchet w) `max` RATCHET_MESSAGES).
Proof.
  intros Hremote.
  assert (forall p : Posted, p ∈ @nil Posted -> opened p = false) as Hnil
    by (intros p Hp; by apply elem_of_nil in Hp).
  destruct ev as [req| |]; unfold step.
  - destruct (onmessage_without_remote req w Hremote) as (Hr & Ho & Hs & Hmax).
    destruct (onmessage req w) as [res w1]. cbn [fst snd] in *.
    split; [done|]. split.
    { intros p Hp. apply list_elem_of_singleton in Hp. by subst. }
    split; [|done]. rewrite Hs. cbn [List.filter].
    by destruct (sealed (Reply res)).
  - destruct (keepAliveInterval w); cbn; [|split; [done|]; split; [eauto|]; lia].
    pose proof (keepAliveTick_ratchet w) as Hr.
    destruct (keepAliveTick w) as [[env|] w1]; cbn in *.
    all: rewrite Hr; split; [done|]; split; [|lia].
    + intros p Hp. apply list_elem_of_singleton in Hp. by subst.
    + done.
  - destruct (cleanup_heap w 0) as (_ & Hr & _). cbn [fst snd]. rewrite Hr.
    split; [done|]; split; [eauto|]; cbn; lia.
Qed.

Lemma run_without_remote (evs : list Event) (w : World) :
  remotePublicKey (ratchet w) = None ->
  let posted := fst (run evs w) in
  let w' := snd (run evs w) in
  remotePublicKey (ratchet w') = None /\
  (forall p, p ∈ posted -> opened p = false) /\
  messagesSent (ratchet w') = messagesSent (ratchet w) + length (List.filter sealed posted) /\
  (messagesSent (ratchet w') <= messagesSent (ratchet w) `max` RATCHET_MESSAGES).
Proof.
  revert w. induction evs as [|ev rest IH]; intros w Hremote; cbn [run].
  { cbn. split; [done|]. split; [|lia]. intros p Hp. by apply elem_of_nil in Hp. }
  destruct (step_without_remote ev w Hremote) as (Hr & Ho & Hs & Hmax).
  destruct (step ev w) as [posted w1]. cbn [fst snd] in *.
  destruct (IH w1 Hr) as (Hr' & Ho' & Hs' & Hmax').
  destruct (run rest w1) as [posted' w2]. cbn [fst snd] in *.
  split; [done|]. split.
  { intros p Hp. apply elem_of_app in Hp as [Hp | Hp]; eauto. }
  rewrite List.filter_app, length_app. lia.
Qed.

(** X13.  Nothing in the worker stores a remote public key except
    [decryptMessage] and [openFile] themselves, after the signature check
    that reads it.  So while the ratchet has no remote public key -- as in
    a worker that was just started -- whatever requests, keep-alive ticks
    and unload events follow one another, [remotePublicKey] stays [null],
    no [open] or [openFile] request is ever answered with a result, and
    each of them throws a [TypeError] and leaves the worker as it was. *)
Theorem worker_never_opens (evs : list Event) (w : World) :
  remotePublicKey (ratchet w) = None ->
  remotePublicKey (ratchet (snd (run evs w))) = None /\
  (forall p, p ∈ fst (run evs w) -> opened p = false) /\
  (forall env,
     onmessage (Open env) (snd (run evs w)) = (Throw TypeError, snd (run evs w)) /\
     onmessage (OpenFile env) (snd (run evs w)) = (Throw TypeError, snd (run evs w))).
Proof.
  intros Hremote. destruct (run_without_remote evs w Hremote) as (Hr & Ho & _).
  split; [done|]. split; [done|]. intros env.
  destruct (open_without_remote env _ Hr) as [H1 H2].
  unfold onmessage, bind. by rewrite H1, H2.
Qed.

(** X14.  While the ratchet has no remote public key, the rotation that
    is due at send counter 100 throws, and the send counter is reset by
    nothing else ([initialize] leaves it alone).  So in any run of
    requests, ticks and unload events the [seal] and [sealFile] requests
    that are answered with an envelope number at most 100 minus the send
    counter at the start: at most 100 for a worker that was just
    started. *)
Theorem worker_seals_at_most_100 (evs : list Event) (w : World) :
  remotePublicKey (ratchet w) = None ->
  length (List.filter sealed (fst (run evs w)))
    <= RATCHET_MESSAGES - messagesSent (ratchet w).
Proof.
  intros Hremote. destruct (run_without_remote evs w Hremote) as (_ & _ & Hs & Hmax).
  lia.
Qed.

(** *** The worker from its start *)

Lemma onmessage_idle (req : Request) (w : World) :
  idle w ->
  idle (snd (onmessage req w)) /\
  sealed (Reply (fst (onmessage req w))) = false /\
  opened (Reply (fst (onmessage req w))) = false.
Proof.
  intros (Hroot & Hsend & Hrecv & Hremote & Hns & Hnr & Hseen & Hoff).
  destruct req; unfold onmessage, bind.
  - destruct (initialize_throws preKeyBundle w)
      as ([e He] & Hs & Hr & Hp & Hcs & Hcr & Hsn & Hk & _).
    destruct (initialize_keys preKeyBundle w) as [Hrk _].
    destruct (initialize preKeyBundle w) as [[[]|e'] w1]; cbn in *; [discriminate|].
    split; [|done]. unfold idle.
    rewrite Hs, Hr, Hp, Hcs, Hcr, Hsn, Hk. repeat split; try done.
    destruct Hrk as [-> | ->]; done.
  - pose proof (generatePreKeyBundle_ratchet w) as [Hr Hk].
    destruct (generatePreKeyBundle w) as [[kp|e] w1]; cbn in *.
    all: split; [|done]; unfold idle; by rewrite Hr, Hk.
  - rewrite (encryptMessage_without_key plain false w Hsend)
      by (rewrite Hns; unfold RATCHET_MESSAGES; lia).
    done.
  - destruct (open_without_remote env w Hremote) as [-> _]. done.
  - rewrite (sealFile_without_key fileData0 fileName0 fileType0 w Hsend)
      by (rewrite Hns; unfold RATCHET_MESSAGES; lia).
    done.
  - destruct (open_without_remote env w Hremote) as [_ ->]. done.
  - destruct (cleanup_heap w 0) as (Hok & Hr & _).
    assert (keepAliveInterval (snd (cleanup w)) = false) as Hk.
    { munfold. cbn. repeat mcase. all: done. }
    destruct (cleanup w) as [[[]|e] w1]; cbn in *; [|discriminate].
    split; [|done]. unfold idle. by rewrite Hr, Hk.
  - done.
Qed.

Lemma step_idle (ev : Event) (w : World) :
  idle w ->
  idle (snd (step ev w)) /\
  fruitless (fst (step ev w)) /\
  List.filter keepalive (fst (step ev w)) = [].
Proof.
  intros Hidle. destruct ev as [req| |]; unfold step.
  - destruct (onmessage_idle req w Hidle) as (Hi & Hs & Ho).
    destruct (onmessage req w) as [res w1]. cbn [fst snd] in *.
    split; [done|]. split; [|done].
    intros p Hp. apply list_elem_of_singleton in Hp. by subst.
  - destruct Hidle as (? & ? & ? & ? & ? & ? & ? & Hoff). rewrite Hoff. cbn.
    split; [done|]. split; [|done]. intros p Hp. by apply elem_of_nil in Hp.
  - destruct (onmessage_idle Cleanup w Hidle) as (Hi & _).
    unfold onmessage, bind in Hi.
    destruct (cleanup w) as [[[]|e] w1]; cbn in *.
    all: split; [done|]; split; [|done]; intros p Hp; by apply elem_of_nil in Hp.
Qed.

Lemma run_idle (evs : list Event) (w : World) :
  idle w ->
  idle (snd (run evs w)) /\
  fruitless (fst (run evs w)) /\
  List.filter keepalive (fst (run evs w)) = [].
Proof.
  revert w. induction evs as [|ev rest IH]; intros w Hidle; cbn [run].
  { split; [done|]. split; [|done]. intros p Hp. by apply elem_of_nil in Hp. }
  destruct (step_idle ev w Hidle) as (Hi & Hf & Hq).
  destruct (step ev w) as [posted w1]. cbn [fst snd] in *.
  destruct (IH w1 Hi) as (Hi' & Hf' & Hq').
  destruct (run rest w1) as [posted' w2]. cbn [fst snd] in *.
  split; [done|]. split.
  - intros p Hp. apply elem_of_app in Hp as [Hp | Hp]; eauto.
  - by rewrite List.filter_app, Hq, Hq'.
Qed.

Lemma started_idle : idle started.
Proof. by repeat split. Qed.

(** C1 on the code.  In every state a run of requests, ticks and unload
    events leads a started worker to, [encryptMessage] throws a
    [TypeError] for every plaintext and [decryptMessage] for every
    envelope, each leaving the worker as it was: [initialize] has left no
    chain key and nothing stores a remote key.  No request is answered
    with an envelope or with an opened content, so no envelope makes the
    round trip. *)
Theorem seal_and_open_always_throw (evs : list Event) :
  let w := snd (run evs started) in
  (forall p ka, encryptMessage p ka w = (Throw TypeError, w)) /\
  (forall env, decryptMessage env w = (Throw TypeError, w)) /\
  fruitless (fst (run evs started)).
Proof.
  intros w.
  destruct (run_idle evs started started_idle)
    as ((_ & Hsend & _ & Hremote & Hns & _) & Hf & _).
  fold w in Hsend, Hremote, Hns.
  split; [|split; [|exact Hf]].
  - intros p ka. apply encryptMessage_without_key; [done|].
    rewrite Hns. unfold RATCHET_MESSAGES. lia.
  - intros env. by apply open_without_remote.
Qed.

(** C3 on the code.  The rotation cannot complete in any state: it
    throws, and leaves both counters and both chain keys as they were.
    So a non-keep-alive [encryptMessage] that starts at a send counter of
    100 or more throws as well, with the send counter unchanged: no
    envelope is produced from the threshold on.  A worker run from its
    start does not get there: its send counter stays 0, no request being
    answered with an envelope. *)
Theorem rotation_never_completes :
  (forall w,
     (exists e, fst (rotateRatchet w) = Throw e) /\
     messagesSent (ratchet (snd (rotateRatchet w))) = messagesSent (ratchet w) /\
     messagesReceived (ratchet (snd (rotateRatchet w))) = messagesReceived (ratchet w) /\
     sendingKey (ratchet (snd (rotateRatchet w))) = sendingKey (ratchet w) /\
     receivingKey (ratchet (snd (rotateRatchet w))) = receivingKey (ratchet w)) /\
  (forall w p,
     RATCHET_MESSAGES <= messagesSent (ratchet w) ->
     (exists e, fst (encryptMessage p false w) = Throw e) /\
     messagesSent (ratchet (snd (encryptMessage p false w))) = messagesSent (ratchet w) /\
     messagesReceived (ratchet (snd (encryptMessage p false w)))
       = messagesReceived (ratchet w)) /\
  (forall evs,
     messagesSent (ratchet (snd (run evs started))) = 0 /\
     List.filter sealed (fst (run evs started)) = []).
Proof.
  split; [|split].
  - intros w. destruct (rotateRatchet_throws w) as (He & Hs & Hr & _ & Hns & Hnr & _).
    done.
  - intros w p Hdue.
    destruct (encryptMessage_at_threshold p w Hdue) as [He Hw].
    destruct (rotateRatchet_throws w) as (_ & _ & _ & _ & Hns & Hnr & _).
    rewrite Hw. done.
  - intros evs.
    destruct (run_idle evs started started_idle) as ((_ & _ & _ & _ & Hns & _) & Hf & _).
    split; [exact Hns|].
    induction (fst (run evs started)) as [|p posted IH]; [done|].
    cbn. destruct (Hf p) as [-> _]; [by left|].
    apply IH. intros q Hq. apply Hf. by right.
Qed.


(** *** What stops a delivery *)

Lemma openFile_announcing (w : World) (env : Envelope) (m : FileMessage) (key : bytes) :
  opens_file w env m ->
  dhKey m = Some key ->
  (counter m, timestamp m) ∉ seenMessages (ratchet w) ->
  exists mk w',
    receiving_message_key w = Some mk /\
    openFile env w = (Throw TypeError, w') /\
    ratchet w' = set_seenMessages ({[(counter m, timestamp m)]} ∪ seenMessages (ratchet w))
                   (ratchet w) /\
    heap w' = heap w ++ [mk].
Proof.
  intros Hopens Hkeyed Hfresh. open_up Hopens. unfold openFile. run_decrypt.
  rewrite bool_decide_false by done. cbn. eauto 10.
Qed.

(** X15.  A message that carries a [dhKey] -- as every message that
    [encryptMessage] and [sealFile] build does -- is never delivered.
    When its envelope has passed the signature check, the AEAD, the
    parser and the replay check, [decryptMessage] records the pair
    (counter, timestamp) and then throws a [TypeError]: it hands the parsed
    [Array] to [memcmp].  Nothing of what follows in the source happens:
    the receive counter stays, the remote key is not replaced, no
    rotation starts, the message key is left unwiped in memory.
    [openFile] does the same. *)
Theorem dhKey_stops_delivery (w : World) (env : Envelope) :
  (forall m key,
     opens w env m -> Worker.dhKey m = Some key ->
     (Worker.counter m, Worker.timestamp m) ∉ seenMessages (ratchet w) ->
     exists mk w',
       receiving_message_key w = Some mk /\
       decryptMessage env w = (Throw TypeError, w') /\
       ratchet w' =
         set_seenMessages
           ({[(Worker.counter m, Worker.timestamp m)]} ∪ seenMessages (ratchet w))
           (ratchet w) /\
       heap w' = heap w ++ [mk]) /\
  (forall m key,
     opens_file w env m -> dhKey m = Some key ->
     (counter m, timestamp m) ∉ seenMessages (ratchet w) ->
     exists mk w',
       receiving_message_key w = Some mk /\
       openFile env w = (Throw TypeError, w') /\
       ratchet w' =
         set_seenMessages ({[(counter m, timestamp m)]} ∪ seenMessages (ratchet w))
           (ratchet w) /\
       heap w' = heap w ++ [mk]).
Proof.
  split.
  - intros m key. apply decryptMessage_announcing.
  - intros m key. apply openFile_announcing.
Qed.

(** X16.  The receiver never adopts a key and never rotates.  The branch
    of [decryptMessage] and [openFile] that stores the [dhKey] of a
    message as the remote key and calls [rotateRatchet] lies behind the
    [memcmp] that throws: whatever the envelope and the state, the remote
    key, the key pair, the root key, both chain keys and the send counter
    are after the call what they were before it, and the receive counter
    is as before or one more. *)
Theorem decrypt_never_rotates (w : World) (env : Envelope) :
  let kept (w' : World) :=
    remotePublicKey (ratchet w') = remotePublicKey (ratchet w) /\
    dhKeyPair (ratchet w') = dhKeyPair (ratchet w) /\
    rootKey (ratchet w') = rootKey (ratchet w) /\
    sendingKey (ratchet w') = sendingKey (ratchet w) /\
    receivingKey (ratchet w') = receivingKey (ratchet w) /\
    messagesSent (ratchet w') = messagesSent (ratchet w) /\
    (messagesReceived (ratchet w') = messagesReceived (ratchet w) \/
     messagesReceived (ratchet w') = S (messagesReceived (ratchet w))) in
  kept (snd (decryptMessage env w)) /\ kept (snd (openFile env w)).
Proof.
  cbv zeta. split.
  - decrypt_cases. all: repeat split; auto.
  - unfold openFile. decrypt_cases. all: repeat split; auto.
Qed.

(** X17.  [decryptMessage] wipes the message key it derived only when
    it returns the content.  Once the signature has been verified and the
    key derived, a run that throws (the AEAD refuses, the plaintext does
    not parse, the message is a replay, the comparison of the [dhKey]
    throws) leaves the derived message key in memory with its bytes, as
    the one buffer added to the heap; a run that returns leaves zeros in
    its place. *)
Theorem message_key_wiped_on_success_only (w : World) (env : Envelope)
    (messageKey : bytes) :
  verifies w env ->
  receiving_message_key w = Some messageKey ->
  match fst (decryptMessage env w) with
  | Throw _ => heap (snd (decryptMessage env w)) = heap w ++ [messageKey]
  | Ok _ =>
      heap (snd (decryptMessage env w))
        = heap w ++ [replicate (length messageKey) 0%Z]
  end.
Proof. apply decryptMessage_key_buffer. Qed.

(** X19.  [initialize] never completes.  It stores the key pair it has
    drawn and then throws: at the key agreement when the bundle has not
    the length of a public key or the library refuses it, and otherwise
    at the first key derivation, because the object of the key agreement
    has the properties [sharedRx] and [sharedTx] and [rx] reads
    [undefined].  The chain keys, the remote key, both counters and the
    replay set are as before, no buffer is overwritten, and the root key
    is as before or [undefined].  So the [initialize] request is answered
    with an error and [startKeepAlive] is not reached. *)
Theorem initialize_always_rejects (preKeyBundle : bytes) (w : World) :
  let w' := snd (initialize preKeyBundle w) in
  (exists e, fst (initialize preKeyBundle w) = Throw e) /\
  (exists keys,
     dhKeyPair (ratchet w') = Some keys /\
     heap w' !! publicKey keys = Some (fst (crypto_kx_keypair (draws w))) /\
     heap w' !! privateKey keys = Some (snd (crypto_kx_keypair (draws w)))) /\
  (rootKey (ratchet w') = rootKey (ratchet w) \/ rootKey (ratchet w') = None) /\
  sendingKey (ratchet w') = sendingKey (ratchet w) /\
  receivingKey (ratchet w') = receivingKey (ratchet w) /\
  remotePublicKey (ratchet w') = remotePublicKey (ratchet w) /\
  messagesSent (ratchet w') = messagesSent (ratchet w) /\
  messagesReceived (ratchet w') = messagesReceived (ratchet w) /\
  seenMessages (ratchet w') = seenMessages (ratchet w) /\
  heap w `prefix_of` heap w' /\
  (exists e, fst (onmessage (Initialize preKeyBundle) w) = Throw e) /\
  keepAliveInterval (snd (onmessage (Initialize preKeyBundle) w)) = keepAliveInterval w.
Proof.
  intros w'.
  destruct (initialize_throws preKeyBundle w)
    as ([e He] & Hs & Hr & Hp & Hcs & Hcr & Hsn & Hk & Hh).
  destruct (initialize_keys preKeyBundle w) as [Hrk Hkeys].
  fold w' in Hs, Hr, Hp, Hcs, Hcr, Hsn, Hk, Hh, Hrk, Hkeys.
  repeat (split; [first [eauto; fail | done]|]).
  unfold onmessage, bind. subst w'.
  destruct (initialize preKeyBundle w) as [[[]|e'] w1]; cbn in *; [discriminate|].
  split; [eauto | done].
Qed.

End RpcFacts.
(** ** The worker on concrete states *)

Section ToyRpcFacts.
Import Worker Rpc Toy ToyRpc.
#[local] Existing Instance Toy.sodium.
#[local] Existing Instance Toy.host.
#[local] Existing Instance ToyRpc.files.

Lemma toy_report_opens (seen : gset (nat * Z)) :
  opens_file (receiver 0 seen) report_envelope report.
Proof.
  split.
  { exists signer_public. split; [reflexivity|]. split; [reflexivity|].
    split; [reflexivity | by apply bool_decide_eq_true]. }
  exists (message_key 0), (stringify_file report).
  split; [reflexivity|]. split; [reflexivity|].
  split; [vm_compute; lia|].
  split; [reflexivity|]. split; [apply strip_prefix_app | reflexivity].
Qed.

Lemma worker_never_opens_witness :
  remotePublicKey (ratchet (snd (run session started))) = None /\
  (forall p, p ∈ fst (run session started) -> opened p = false) /\
  (forall env,
     onmessage (Open env) (snd (run session started))
       = (Throw TypeError, snd (run session started)) /\
     onmessage (OpenFile env) (snd (run session started))
       = (Throw TypeError, snd (run session started))).
Proof. apply (worker_never_opens session started). reflexivity. Defined.

Lemma worker_seals_at_most_100_witness :
  length (List.filter sealed (fst (run session started)))
    <= RATCHET_MESSAGES - messagesSent (ratchet started).
Proof. apply (worker_seals_at_most_100 session started). reflexivity. Defined.

Lemma dhKey_stops_delivery_witness :
  let w := receiver 0 ∅ in
  opens w first_envelope hello /\
  exists mk w',
    receiving_message_key w = Some mk /\
    decryptMessage first_envelope w = (Throw TypeError, w') /\
    ratchet w' =
      set_seenMessages
        ({[(Worker.counter hello, Worker.timestamp hello)]} ∪ seenMessages (ratchet w))
        (ratchet w) /\
    heap w' = heap w ++ [mk].
Proof.
  intros w. split; [apply toy_hello_opens|].
  apply (proj1 (dhKey_stops_delivery w first_envelope) hello signer_public).
  - apply toy_hello_opens.
  - reflexivity.
  - apply not_elem_of_empty.
Defined.

Lemma message_key_wiped_on_success_only_witness :
  let w := receiver 1 ∅ in
  let messageKey := message_key 1 in
  verifies w first_envelope /\
  receiving_message_key w = Some messageKey /\
  match fst (decryptMessage first_envelope w) with
  | Throw _ => heap (snd (decryptMessage first_envelope w)) = heap w ++ [messageKey]
  | Ok _ =>
      heap (snd (decryptMessage first_envelope w))
        = heap w ++ [replicate (length messageKey) 0%Z]
  end.
Proof.
  intros w messageKey.
  split; [apply toy_verifies|]. split; [reflexivity|].
  apply (message_key_wiped_on_success_only w first_envelope messageKey).
  - apply toy_verifies.
  - reflexivity.
Defined.

(** The file envelope of a message with [dhKey], opened twice by the
    hand-made receiver: a [TypeError] at the comparison of the key, then
    the replay error. *)
Example report_envelope_twice :
  let w1 := snd (openFile report_envelope (receiver 0 ∅)) in
  fst (openFile report_envelope (receiver 0 ∅)) = Throw TypeError /\
  messagesReceived (ratchet w1) = 0 /\
  fst (openFile report_envelope w1) = Throw (Error "File message replay detected").
Proof. vm_compute. repeat split. Qed.

(** [initialize] on a worker that was just started: the key pair is
    stored, the root key reads [undefined], the key derivation throws, and
    no chain key and no interval is set. *)
Example initialize_on_started_worker :
  fst (initialize bundle started) = Throw TypeError /\
  buffer initialized (publicKey <$> dhKeyPair (ratchet initialized))
    = Some (replicate 32 2%Z) /\
  rootKey (ratchet initialized) = None /\
  sendingKey (ratchet initialized) = None /\
  receivingKey (ratchet initialized) = None /\
  keepAliveInterval initialized = false.
Proof. vm_compute. repeat split. Qed.

(** The session of a started worker, run: every request is answered
    with an error, and the tick posts nothing. *)
Example started_worker_session :
  fst (run session started)
  = [ Reply (Throw TypeError); Reply (Throw TypeError); Reply (Throw TypeError);
      Reply (Throw TypeError); Reply (Throw TypeError) ].
Proof. vm_compute. reflexivity. Qed.

(** The first steps of a peer, and a hundred more [seal] requests: the
    key pair of the bundle comes back, everything else is an error, and
    the send counter is still 0. *)
Example hundred_more_sealed_nothing :
  (fun p => match p with
            | Reply (Ok (PreKeyBundle _ _)) => 1
            | Reply (Ok _) => 2
            | Reply (Throw TypeError) => 3
            | Reply (Throw _) => 4
            | KeepAlive _ => 5
            end) <$> fst (run hundred_more started)
  = 1 :: replicate 102 3 /\
  messagesSent (ratchet (snd (run hundred_more started))) = 0.
Proof. vm_compute. split; reflexivity. Qed.

End ToyRpcFacts.

(** * Properties of the callers *)

Section BridgeFacts.
Import Rpc Bridge.

Lemma run_ok_refl (b : State) : well_formed b -> run_ok b b [].
Proof.
  intros Hwf. split; [done|]. split; [lia|]. split; [by rewrite Nat.sub_diag|].
  split; [constructor|]. split; [intros id Hid; by apply elem_of_nil in Hid|]. auto.
Qed.

Lemma run_ok_trans (b b1 b2 : State) (o1 o2 : list Output) :
  run_ok b b1 o1 -> run_ok b1 b2 o2 -> run_ok b b2 (o1 ++ o2).
Proof.
  intros (Hwf1 & Hc1 & Hp1 & Hn1 & Hs1 & Hq1) (Hwf2 & Hc2 & Hp2 & Hn2 & Hs2 & Hq2).
  split; [done|]. split; [lia|]. rewrite !omap_app. split.
  { rewrite Hp1, Hp2.
    replace (messageCounter b2 - messageCounter b)
      with ((messageCounter b1 - messageCounter b) + (messageCounter b2 - messageCounter b1))
      by lia.
    rewrite seq_app. do 2 f_equal. lia. }
  split.
  { apply NoDup_app. split; [done|]. split; [|done].
    intros id Hin1 Hin2.
    destruct (Hs1 id Hin1) as (_ & Hlt & Hnone).
    destruct (Hs2 id Hin2) as ([[k Hk] | Hge] & _); [congruence | lia]. }
  split.
  - intros id Hin. apply elem_of_app in Hin as [Hin | Hin].
    + destruct (Hs1 id Hin) as (Hfrom & Hlt & Hnone).
      split; [done|]. split; [lia|].
      destruct (messageQueue b2 !! id) as [k|] eqn:Hk; [|done].
      destruct (Hq2 id (mk_is_Some _ _ Hk)) as [[k' Hk'] | Hge]; [congruence | lia].
    + destruct (Hs2 id Hin) as (Hfrom & Hlt & Hnone).
      split; [|done]. destruct Hfrom as [Hpending | Hge]; [|right; lia].
      destruct (Hq1 id Hpending); auto.
  - intros id Hpending. destruct (Hq2 id Hpending) as [Hpending1 | Hge]; [|right; lia].
    destruct (Hq1 id Hpending1); auto.
Qed.

Lemma seq_one (n : nat) : seq n (S n - n) = [n].
Proof. by replace (S n - n) with 1 by lia. Qed.

Lemma sendToWorker_ok (b : State) (req : Request) (k : Continuation) :
  well_formed b -> run_ok b (fst (sendToWorker b req k)) (snd (sendToWorker b req k)).
Proof.
  intros Hwf. unfold sendToWorker. destruct (worker b); [|by apply run_ok_refl].
  unfold run_ok. cbn. split.
  { intros id [x Hx]. cbn in *. destruct (decide (id = messageCounter b)) as [->|Hne].
    - lia.
    - rewrite lookup_insert_ne in Hx by done.
      assert (id < messageCounter b) by (apply Hwf; by eexists). lia. }
  split; [lia|]. split; [by rewrite seq_one|]. split; [constructor|].
  split; [intros id Hid; by apply elem_of_nil in Hid|].
  intros id [x Hx]. destruct (decide (id = messageCounter b)) as [->|Hne]; [right; lia|].
  rewrite lookup_insert_ne in Hx by done. left. by eexists.
Qed.

(** A step that posts nothing and settles the ids [settled], all of them
    pending before, leaving pending only what was pending. *)
Lemma settling_ok (b b' : State) (outs : list Output) :
  well_formed b ->
  messageCounter b' = messageCounter b ->
  omap posted_id outs = [] ->
  NoDup (omap settled_id outs) ->
  (forall id, id ∈ omap settled_id outs ->
     is_Some (messageQueue b !! id) /\ messageQueue b' !! id = None) ->
  (forall id, is_Some (messageQueue b' !! id) -> is_Some (messageQueue b !! id)) ->
  run_ok b b' outs.
Proof.
  intros Hwf Hc Hp Hn Hs Hq. unfold run_ok. rewrite Hc, Hp, Nat.sub_diag.
  split; [intros id Hid; rewrite Hc; by apply Hwf, Hq|].
  split; [done|]. split; [done|]. split; [done|]. split.
  - intros id Hid. destruct (Hs id Hid) as [Hpending Hnone].
    split; [by left|]. split; [by apply Hwf | done].
  - intros id Hid. left. by apply Hq.
Qed.

Lemma rejections_ids (pending : list (nat * Continuation)) :
  omap settled_id ((fun entry => Rejected (fst entry) "Worker terminated") <$> pending)
    = fst <$> pending /\
  omap posted_id ((fun entry => Rejected (fst entry) "Worker terminated") <$> pending)
    = [].
Proof. induction pending as [|[id k] rest [IH1 IH2]]; [done|]. cbn. by rewrite IH1, IH2. Qed.

Lemma terminate_ok (b : State) :
  well_formed b -> run_ok b (fst (terminate b)) (snd (terminate b)).
Proof.
  intros Hwf. unfold terminate. destruct (worker b); [|by apply run_ok_refl].
  apply settling_ok; try done.
  - constructor.
  - intros id Hid. by apply elem_of_nil in Hid.
Qed.

Lemma terminateWorker_ok (b : State) :
  well_formed b -> run_ok b (fst (terminateWorker b)) (snd (terminateWorker b)).
Proof.
  intros Hwf. unfold terminateWorker. destruct (worker b) eqn:Hw; [|by apply run_ok_refl].
  set (emptied := {| worker := true; messageQueue := ∅;
                     messageCounter := messageCounter b;
                     awaiting := awaiting b; resuming := resuming b |}).
  set (pending := map_to_list (messageQueue b)).
  assert (run_ok b emptied
            ((fun entry => Rejected (fst entry) "Worker terminated") <$> pending))
    as Hrejected.
  { destruct (rejections_ids pending) as [Hsettled Hposted].
    apply settling_ok; try done.
    - rewrite Hsettled. apply NoDup_fst_map_to_list.
    - intros id. rewrite Hsettled, list_elem_of_fmap.
      intros ([id' k] & -> & Hin). apply elem_of_map_to_list in Hin.
      split; [by eexists | done].
    - intros id [k Hk]. unfold emptied in Hk. cbn in Hk. by rewrite lookup_empty in Hk. }
  assert (well_formed emptied) as Hwf' by apply Hrejected.
  pose proof (sendToWorker_ok emptied Cleanup FinallyTerminate Hwf') as Hposted.
  destruct (sendToWorker emptied Cleanup FinallyTerminate) as [b1 posted].
  cbn [fst snd] in *.
  pose proof (run_ok_trans _ _ _ _ _ Hrejected Hposted) as Hboth.
  destruct (existsb _ pending); cbn [fst snd]; [|by rewrite app_nil_r].
  pose proof (terminate_ok b1 (proj1 Hposted)) as Hended.
  destruct (terminate b1) as [b2 ended]. cbn [fst snd] in *.
  rewrite app_assoc. by apply (run_ok_trans _ b1).
Qed.

(** A step that changes neither the pending requests nor the counter. *)
Lemma quiet_ok (b b' : State) (outs : list Output) :
  well_formed b ->
  messageQueue b' = messageQueue b ->
  messageCounter b' = messageCounter b ->
  omap posted_id outs = [] ->
  omap settled_id outs = [] ->
  run_ok b b' outs.
Proof.
  intros Hwf Hq Hc Hp Hs. apply settling_ok; try done.
  - rewrite Hs. constructor.
  - intros id Hid. rewrite Hs in Hid. by apply elem_of_nil in Hid.
  - intros id. by rewrite Hq.
Qed.

Lemma post_all_ok (bundles : list bytes) (b : State) :
  well_formed b -> run_ok b (fst (post_all b bundles)) (snd (post_all b bundles)).
Proof.
  revert b. induction bundles as [|preKeyBundle rest IH]; intros b Hwf; cbn [post_all].
  { by apply run_ok_refl. }
  pose proof (sendToWorker_ok b (Initialize preKeyBundle) Caller Hwf) as Hsend.
  destruct (sendToWorker b (Initialize preKeyBundle) Caller) as [b1 posted].
  cbn [fst snd] in *.
  pose proof (IH b1 ltac:(apply Hsend)) as Hrest.
  destruct (post_all b1 rest) as [b2 posted']. cbn [fst snd] in *.
  by apply (run_ok_trans b b1).
Qed.

Lemma drain_ok (b : State) :
  well_formed b -> run_ok b (fst (drain b)) (snd (drain b)).
Proof.
  intros Hwf. unfold drain.
  set (b0 := {| worker := worker b; messageQueue := messageQueue b;
                messageCounter := messageCounter b;
                awaiting := awaiting b; resuming := [] |}).
  assert (run_ok b b0 []) as Hfirst by by apply quiet_ok.
  pose proof (post_all_ok (resuming b) b0 ltac:(apply Hfirst)) as Hrest.
  by apply (run_ok_trans b b0 _ [] _).
Qed.

Lemma resume_ok (b : State) :
  well_formed b -> run_ok b (fst (resume b)) (snd (resume b)).
Proof.
  intros Hwf. unfold resume. destruct (resuming b) as [|preKeyBundle rest].
  { by apply run_ok_refl. }
  set (b0 := {| worker := worker b; messageQueue := messageQueue b;
                messageCounter := messageCounter b;
                awaiting := awaiting b; resuming := rest |}).
  assert (run_ok b b0 []) as Hfirst by by apply quiet_ok.
  pose proof (sendToWorker_ok b0 (Initialize preKeyBundle) Caller ltac:(apply Hfirst))
    as Hrest.
  by apply (run_ok_trans b b0 _ [] _).
Qed.

Lemma initWorker_ok (b : State) (waiter : option bytes) :
  well_formed b -> run_ok b (fst (initWorker b waiter)) (snd (initWorker b waiter)).
Proof.
  intros Hwf. unfold initWorker. destruct (worker b); [by apply run_ok_refl|].
  by apply quiet_ok.
Qed.

Lemma onmessage_ok (b : State) (data : Incoming) :
  well_formed b -> run_ok b (fst (onmessage b data)) (snd (onmessage b data)).
Proof.
  intros Hwf. destruct data as [|[id|] res err]; cbn [onmessage];
    [ | | by apply run_ok_refl].
  { destruct (awaiting b) as [preKeyBundle|]; [|by apply run_ok_refl].
    set (b0 := {| worker := worker b; messageQueue := messageQueue b;
                  messageCounter := messageCounter b;
                  awaiting := None; resuming := resuming b |}).
    assert (run_ok b b0 []) as Hfirst by by apply quiet_ok.
    pose proof (sendToWorker_ok b0 (Initialize preKeyBundle) Caller ltac:(apply Hfirst))
      as Hrest.
    by apply (run_ok_trans b b0 _ [] _). }
  destruct (messageQueue b !! id) as [k|] eqn:Hk; [|by apply run_ok_refl].
  set (b1 := {| worker := worker b; messageQueue := delete id (messageQueue b);
                messageCounter := messageCounter b;
                awaiting := awaiting b; resuming := resuming b |}).
  assert (forall o, settled_id o = Some id -> posted_id o = None -> run_ok b b1 [o])
    as Hsettle.
  { intros o Ho Hp. apply settling_ok; try done; cbn; rewrite ?Ho, ?Hp; try done.
    - apply NoDup_singleton.
    - intros id' Hid. apply list_elem_of_singleton in Hid as ->.
      split; [by eexists | apply lookup_delete_eq].
    - intros id' [k' Hk']. apply lookup_delete_Some in Hk' as [_ Hk']. by eexists. }
  assert (well_formed b1) as Hwf1 by apply (Hsettle (Resolved id None) eq_refl eq_refl).
  pose proof (terminate_ok b1 Hwf1) as Hterminate.
  destruct (truthy err).
  - destruct (ends_worker k); cbn [fst snd].
    + destruct (terminate b1) as [b2 ended]. cbn [fst snd] in *.
      apply (run_ok_trans b b1 _ [_] _); [by apply Hsettle | exact Hterminate].
    + by apply Hsettle.
  - destruct k; cbn [fst snd].
    + by apply Hsettle.
    + pose proof (terminateWorker_ok b1 Hwf1) as Hrest.
      destruct (terminateWorker b1) as [b2 outs]. cbn [fst snd] in *.
      apply (run_ok_trans b b1 _ [_] _); [by apply Hsettle | exact Hrest].
    + destruct (terminate b1) as [b2 ended]. cbn [fst snd] in *.
      apply (run_ok_trans b b1 _ [_] _); [by apply Hsettle | exact Hterminate].
Qed.

Lemma onerror_ok (b : State) :
  well_formed b -> run_ok b (fst (onerror b)) (snd (onerror b)).
Proof.
  intros Hwf. unfold onerror.
  set (b0 := {| worker := worker b; messageQueue := messageQueue b;
                messageCounter := messageCounter b;
                awaiting := None; resuming := resuming b |}).
  assert (run_ok b b0 match awaiting b with Some _ => [RejectedWorkerError] | None => [] end)
    as Hfirst.
  { apply quiet_ok; try done; by destruct (awaiting b). }
  pose proof (terminateWorker_ok b0 ltac:(apply Hfirst)) as Hrest.
  destruct (terminateWorker b0) as [b1 outs]. cbn [fst snd] in *.
  by apply (run_ok_trans b b0).
Qed.

Lemma step_ok (b : State) (ev : Event) :
  well_formed b -> run_ok b (fst (step b ev)) (snd (step b ev)).
Proof.
  intros Hwf. destruct ev as [f | preKeyBundle | | | data |]; cbn [step].
  - unfold request.
    pose proof (initWorker_ok b None Hwf) as Hinit.
    destruct (initWorker b None) as [b1 spawned]. cbn [fst snd] in *.
    pose proof (sendToWorker_ok b1 (request_of f) Caller ltac:(apply Hinit)) as Hsend.
    destruct (sendToWorker b1 (request_of f) Caller) as [b2 posted]. cbn [fst snd] in *.
    by apply (run_ok_trans b b1).
  - unfold initializeCrypto. destruct (worker b) eqn:Hw.
    + by apply quiet_ok.
    + by apply initWorker_ok.
  - unfold cleanup. destruct (worker b) eqn:Hw; [|by apply run_ok_refl].
    by apply sendToWorker_ok.
  - by apply resume_ok.
  - pose proof (drain_ok b Hwf) as Hdrain.
    destruct (drain b) as [b1 resumed]. cbn [fst snd] in *.
    pose proof (onmessage_ok b1 data ltac:(apply Hdrain)) as Hrest.
    destruct (onmessage b1 data) as [b2 outs]. cbn [fst snd] in *.
    by apply (run_ok_trans b b1).
  - pose proof (drain_ok b Hwf) as Hdrain.
    destruct (drain b) as [b1 resumed]. cbn [fst snd] in *.
    pose proof (onerror_ok b1 ltac:(apply Hdrain)) as Hrest.
    destruct (onerror b1) as [b2 outs]. cbn [fst snd] in *.
    by apply (run_ok_trans b b1).
Qed.

Lemma run_run_ok (evs : list Event) (b : State) :
  well_formed b -> run_ok b (fst (run b evs)) (snd (run b evs)).
Proof.
  revert b. induction evs as [|ev rest IH]; intros b Hwf; cbn [run].
  { by apply run_ok_refl. }
  pose proof (step_ok b ev Hwf) as Hstep.
  destruct (step b ev) as [b1 outs]. cbn [fst snd] in *.
  pose proof (IH b1 ltac:(apply Hstep)) as Hrest.
  destruct (run b1 rest) as [b2 outs']. cbn [fst snd] in *.
  by apply (run_ok_trans b b1).
Qed.

(** X21.  The bridge never reuses a request id and settles a request at
    most once.  From a state in which every pending id is below the
    counter (the initial state is one), over any sequence of exported
    calls, [initializeCrypto] among them with its wait for the worker's
    [init] notice, of worker messages and of worker errors: the ids
    posted to the worker are pairwise different and none of them was
    pending at the start; no id is resolved or rejected twice, whatever
    the worker answers and however often; a settled id was pending at
    the start or was posted on the way, and is not pending at the end.
    An answer without an id, as the worker's keep-alive notice is,
    settles nothing. *)
Theorem requests_settled_once (evs : list Event) (b : State) :
  well_formed b ->
  let outs := snd (run b evs) in
  NoDup (omap posted_id outs) /\
  NoDup (omap settled_id outs) /\
  (forall id, id ∈ omap posted_id outs -> messageQueue b !! id = None) /\
  (forall id, id ∈ omap settled_id outs ->
     is_Some (messageQueue b !! id) \/ id ∈ omap posted_id outs) /\
  (forall id, id ∈ omap settled_id outs -> messageQueue (fst (run b evs)) !! id = None).
Proof.
  intros Hwf outs.
  destruct (run_run_ok evs b Hwf) as (Hwf' & Hc & Hp & Hn & Hs & Hq).
  fold outs in Hp, Hn, Hs.
  split; [rewrite Hp; apply NoDup_seq|]. split; [done|]. split.
  { intros id Hid. rewrite Hp in Hid. apply elem_of_seq in Hid.
    destruct (messageQueue b !! id) as [k|] eqn:Hk; [|done].
    assert (id < messageCounter b) by (apply Hwf; by eexists). lia. }
  split.
  - intros id Hid. destruct (Hs id Hid) as ([Hpending | Hge] & Hlt & _); [by left|].
    right. rewrite Hp. apply elem_of_seq. lia.
  - intros id Hid. by destruct (Hs id Hid) as (_ & _ & Hnone).
Qed.

End BridgeFacts.

Section LoggingFacts.
Import Network Logging.
Context (toLowerCase : string -> string) (fields : gset string).

Lemma sanitizeData_JObj (fs : list (string * Json)) :
  sanitizeData toLowerCase fields (JObj fs)
  = JObj ((fun kv => (fst kv, stored toLowerCase fields (fst kv) (snd kv))) <$> fs).
Proof.
  cbn [Logging.sanitizeData]. f_equal.
  induction fs as [|[key v] rest IH]; [done|].
  rewrite fmap_cons, <- IH. cbn [fst snd]. f_equal. f_equal.
  unfold Logging.stored.
  destruct (sensitive toLowerCase fields key); [done|]. by destruct v.
Qed.

Lemma sanitizeData_JArr (items : list Json) :
  sanitizeData toLowerCase fields (JArr items)
  = JObj (imap (fun i v => (pretty i, stored toLowerCase fields (pretty i) v)) items).
Proof.
  cbn [Logging.sanitizeData]. f_equal.
  change (fun i v => (pretty i, stored toLowerCase fields (pretty i) v))
    with (fun i v => (pretty (0 + i), stored toLowerCase fields (pretty (0 + i)) v)).
  generalize 0 as start. induction items as [|v rest IH]; intros start; [done|].
  cbn [imap]. rewrite Nat.add_0_r. f_equal.
  - f_equal. unfold Logging.stored.
    destruct (sensitive toLowerCase fields (pretty start)); [done|]. by destruct v.
  - rewrite IH. apply imap_ext. intros i x _. cbn. by rewrite Nat.add_succ_r.
Qed.

Lemma sanitizeData_JStr (s : string) :
  sanitizeData toLowerCase fields (JStr s)
  = JObj (imap (fun i v => (pretty i, stored toLowerCase fields (pretty i) v))
            (characters s)).
Proof.
  cbn [Logging.sanitizeData]. f_equal. apply imap_ext. intros i c Hc. f_equal.
  unfold characters in Hc. rewrite list_lookup_fmap in Hc.
  destruct (_ !! i) as [a|]; [|done]. injection Hc as <-.
  unfold Logging.stored. by destruct (sensitive toLowerCase fields (pretty i)).
Qed.

Lemma redacted_JObj (fs : list (string * Json)) :
  redacted toLowerCase fields (JObj fs) <->
  Forall (fun kv => if sensitive toLowerCase fields (fst kv)
                    then snd kv = REDACTED
                    else redacted toLowerCase fields (snd kv)) fs.
Proof.
  cbn [Logging.redacted]. induction fs as [|[key v] rest IH].
  { split; [constructor | done]. }
  rewrite Forall_cons, <- IH. reflexivity.
Qed.

Lemma stored_redacted (key : string) (v : Json) :
  (typeof_object v = true -> settled toLowerCase fields v) ->
  (if sensitive toLowerCase fields key
   then stored toLowerCase fields key v = REDACTED
   else redacted toLowerCase fields (stored toLowerCase fields key v)) /\
  stored toLowerCase fields key (stored toLowerCase fields key v)
  = stored toLowerCase fields key v.
Proof.
  intros Hv. unfold Logging.stored.
  destruct (sensitive toLowerCase fields key) eqn:Hs; [done|].
  destruct (typeof_object v) eqn:Hobj.
  - destruct (Hv eq_refl) as [Hred Hidem]. split; [exact Hred|].
    assert (typeof_object (sanitizeData toLowerCase fields v) = true) as ->
      by (by destruct v).
    exact Hidem.
  - rewrite Hobj. split; [by destruct v | done].
Qed.

Lemma indexed_settled (items : list Json) :
  Forall (fun v => typeof_object v = true -> settled toLowerCase fields v) items ->
  let fs := imap (fun i v => (pretty i, stored toLowerCase fields (pretty i) v)) items in
  redacted toLowerCase fields (JObj fs) /\
  sanitizeData toLowerCase fields (JObj fs) = JObj fs.
Proof.
  intros Hitems fs. split.
  - apply redacted_JObj. subst fs. apply Forall_lookup. intros i [k x] Hi.
    apply list_lookup_imap_Some in Hi as (v & Hv & [= -> ->]).
    cbn [fst snd]. apply stored_redacted.
    apply (Forall_lookup_1 _ _ _ _ Hitems Hv).
  - rewrite sanitizeData_JObj. f_equal. subst fs.
    apply list_eq. intros i. rewrite list_lookup_fmap, !list_lookup_imap.
    destruct (items !! i) as [v|] eqn:Hv; [|done]. cbn. f_equal. f_equal.
    apply stored_redacted. apply (Forall_lookup_1 _ _ _ _ Hitems Hv).
Qed.

(** Every value is handled well. *)
Lemma sanitizeData_settled (data : Json) : settled toLowerCase fields data.
Proof.
  induction data as [| | | s | items IH | fs IH] using Json_nested_ind.
  1-3: done.
  - unfold Logging.settled. rewrite sanitizeData_JStr. apply indexed_settled.
    unfold characters. apply Forall_fmap, Forall_forall. by intros c _.
  - unfold Logging.settled. rewrite sanitizeData_JArr. apply indexed_settled.
    eapply Forall_impl; [exact IH|]. by intros v Hv _.
  - unfold Logging.settled. rewrite sanitizeData_JObj. split.
    + apply redacted_JObj, Forall_fmap. eapply Forall_impl; [exact IH|].
      intros [key v] Hv. cbn [fst snd compose] in *. by apply stored_redacted.
    + rewrite sanitizeData_JObj. f_equal. rewrite <- list_fmap_compose.
      apply Forall_fmap_ext_1. eapply Forall_impl; [exact IH|].
      intros [key v] Hv. cbn [fst snd compose] in *. f_equal.
      by apply stored_redacted.
Qed.

(** X22.  [sanitizeData] redacts at every depth: in its result, no
    property whose lower-cased key is a sensitive field has another value
    than ['[REDACTED]'], however deeply the property is nested in objects
    and arrays; and sanitising the result again changes nothing.  This is
    for acyclic plain data; arrays come out as objects keyed by index. *)
Theorem sanitizeData_redacts (data : Json) :
  redacted toLowerCase fields (sanitizeData toLowerCase fields data) /\
  sanitizeData toLowerCase fields (sanitizeData toLowerCase fields data)
  = sanitizeData toLowerCase fields data.
Proof. exact (sanitizeData_settled data). Qed.

Lemma log_length (lg : Logger) (level : nat) (category message : string)
    (data : LogData) (now : Z) :
  length (logs lg) <= maxLogs lg ->
  let result := log toLowerCase fields lg level category message data now in
  logs (fst result)
    = drop (length (logs lg ++ [snd result]) - maxLogs lg) (logs lg ++ [snd result]) /\
  length (logs (fst result)) <= maxLogs lg /\
  maxLogs (fst result) = maxLogs lg /\
  sensitiveFields (fst result) = sensitiveFields lg.
Proof.
  intros Hlen. cbn. rewrite length_app. cbn [length].
  case_decide as Hfull.
  - replace (length (logs lg) + 1 - maxLogs lg) with 1 by lia.
    split; [done|]. split; [|done]. rewrite length_drop, length_app. cbn [length]. lia.
  - replace (length (logs lg) + 1 - maxLogs lg) with 0 by lia.
    split; [done|]. split; [|done]. rewrite length_app. cbn [length]. lia.
Qed.

(** X23.  The in-memory log is a window on the most recent entries.
    On a logger that holds at most [maxLogs] entries, after any sequence
    of calls of [log] the list holds the old entries followed by the new
    ones, cut from the front down to the last [maxLogs]; one entry is
    built per call, and the data of every entry built (the one stored,
    persisted and handed to the listeners) has its sensitive properties
    redacted. *)
Theorem log_keeps_latest (calls : list (nat * string * string * LogData * Z))
    (lg : Logger) :
  length (logs lg) <= maxLogs lg ->
  sensitiveFields lg = fields ->
  let result := log_all toLowerCase lg calls in
  logs (fst result)
    = drop (length (logs lg ++ snd result) - maxLogs lg) (logs lg ++ snd result) /\
  length (logs (fst result)) <= maxLogs lg /\
  length (snd result) = length calls /\
  Forall (fun entry => redacted toLowerCase fields (data entry)) (snd result).
Proof.
  revert lg. induction calls as [|[[[[level category] message] d] now] rest IH];
    intros lg Hlen Hfields; cbn [log_all].
  { cbn [fst snd]. rewrite app_nil_r.
    replace (length (logs lg) - maxLogs lg) with 0 by lia. done. }
  rewrite Hfields.
  destruct (log_length lg level category message d now Hlen)
    as (Hlogs & Hlen1 & Hmax & Hf).
  assert (redacted toLowerCase fields
            (data (snd (log toLowerCase fields lg level category message d now))))
    as Hentry.
  { cbn. destruct d; [apply sanitizeData_settled | done]. }
  destruct (log toLowerCase fields lg level category message d now) as [lg1 entry].
  cbn [fst snd] in *.
  specialize (IH lg1). rewrite Hmax in IH.
  destruct IH as (IHlogs & IHlen & IHcount & IHred); [done | congruence |].
  destruct (log_all toLowerCase lg1 rest) as [lg2 entries]. cbn [fst snd] in *.
  split; [|split; [done|split; [cbn; by rewrite IHcount | by constructor]]].
  rewrite IHlogs, Hlogs. rewrite !length_app, length_drop, !length_app. cbn [length].
  rewrite <- drop_app_le by (rewrite length_app; cbn [length]; lia).
  rewrite drop_drop, <- app_assoc. cbn [app]. f_equal. lia.
Qed.

End LoggingFacts.

Section RateLimitFacts.
Import RateLimit.

Lemma isAllowed_config (rl : RateLimiter) (userId : string) (now : Z) :
  windowMs (snd (isAllowed rl userId now)) = windowMs rl /\
  maxRequests (snd (isAllowed rl userId now)) = maxRequests rl.
Proof. unfold isAllowed. by case_decide. Qed.

Lemma filter_filter_impl {A} (P Q : A -> Prop) `{!forall x, Decision (P x)}
    `{!forall x, Decision (Q x)} (l : list A) :
  (forall x, P x -> Q x) -> filter P (filter Q l) = filter P l.
Proof.
  intros Himpl. induction l as [|x l IH]; [done|].
  rewrite (filter_cons Q). destruct (decide (Q x)) as [HQ|HQ].
  - rewrite !filter_cons. destruct (decide (P x)); by rewrite IH.
  - rewrite IH, filter_cons. destruct (decide (P x)) as [HP|]; [|done].
    by apply Himpl in HP.
Qed.

Lemma agree_step (T : Z) (rl : RateLimiter) (granted : list (string * Z))
    (userId : string) (now : Z) :
  (T <= now)%Z ->
  agree T rl granted ->
  let '(allowed, rl') := isAllowed rl userId now in
  agree now rl' (granted ++ if allowed then [(userId, now)] else []).
Proof.
  intros Hlater Hagree. unfold isAllowed. cbv zeta. case_decide as Hfull.
  - rewrite app_nil_r. intros u t Ht. apply Hagree. lia.
  - intros u t Ht. unfold validRequests at 1. cbn [requests windowMs].
    rewrite filter_app, fmap_app, filter_app.
    destruct (decide (u = userId)) as [->|Hne].
    + rewrite lookup_insert_eq. cbn [default]. unfold id.
      rewrite filter_app. f_equal.
      * unfold validRequests.
        rewrite filter_filter_impl by (intros x; lia).
        apply (Hagree userId t). lia.
      * rewrite (filter_cons (fun c => fst c = _)), decide_True by done. done.
    + rewrite lookup_insert_ne by done. fold (validRequests rl u t).
      rewrite (filter_cons (fun c => fst c = _)), decide_False by (cbn; congruence).
      rewrite filter_nil, app_nil_r. apply (Hagree u t). lia.
Qed.

Lemma in_window_valid (W : Z) (userId : string) (t now : Z) (granted : list (string * Z)) :
  (now <= t)%Z ->
  length (in_window W userId t granted)
  <= length (filter (fun time => (now - time < W)%Z)
               (snd <$> filter (fun c => fst c = userId) granted)).
Proof.
  intros Hnow. unfold in_window. induction granted as [|[u time] l IH]; [done|].
  rewrite !filter_cons. cbn [fst snd].
  destruct (decide (u = userId)) as [->|Hne].
  - rewrite fmap_cons, filter_cons. cbn [snd].
    destruct (decide (userId = userId /\ (t - time < W)%Z /\ (time <= t)%Z))
      as [(_ & Hin & _)|Hout].
    + rewrite decide_True by lia. cbn [length]. lia.
    + destruct (decide (now - time < W)%Z); cbn [length]; lia.
  - rewrite decide_False by (intros [? _]; done). exact IH.
Qed.

Lemma bounded_step (T : Z) (rl : RateLimiter) (granted : list (string * Z))
    (userId : string) (now : Z) :
  (T <= now)%Z ->
  agree T rl granted ->
  bounded (windowMs rl) (maxRequests rl) granted ->
  let '(allowed, rl') := isAllowed rl userId now in
  bounded (windowMs rl) (maxRequests rl)
    (granted ++ if allowed then [(userId, now)] else []).
Proof.
  intros Hlater Hagree Hbounded. unfold isAllowed. case_decide as Hfull.
  { by rewrite app_nil_r. }
  intros u t. unfold in_window. rewrite filter_app, length_app.
  fold (in_window (windowMs rl) u t granted).
  rewrite filter_cons, filter_nil. cbn [fst snd].
  destruct (decide (userId = u /\ (t - now < windowMs rl)%Z /\ (now <= t)%Z))
    as [(-> & _ & Hle)|Hout].
  - pose proof (in_window_valid (windowMs rl) u t now granted Hle) as Hvalid.
    rewrite <- (Hagree u now Hlater) in Hvalid. cbn [length]. lia.
  - specialize (Hbounded u t). cbn [length]. lia.
Qed.

Lemma run_bounded (calls : list (string * Z)) (T : Z) (rl : RateLimiter)
    (granted : list (string * Z)) :
  agree T rl granted ->
  bounded (windowMs rl) (maxRequests rl) granted ->
  Sorted Z.le (T :: (snd <$> calls)) ->
  bounded (windowMs rl) (maxRequests rl) (granted ++ fst (run rl calls)).
Proof.
  revert T rl granted. induction calls as [|[userId now] rest IH];
    intros T rl granted Hagree Hbounded Hsorted; cbn [run].
  { by rewrite app_nil_r. }
  cbn [fmap list_fmap snd] in Hsorted.
  apply Sorted_inv in Hsorted as [Hsorted Hhd]. apply HdRel_inv in Hhd.
  pose proof (agree_step T rl granted userId now Hhd Hagree) as Hagree'.
  pose proof (bounded_step T rl granted userId now Hhd Hagree Hbounded) as Hbounded'.
  destruct (isAllowed_config rl userId now) as [HW HN].
  destruct (isAllowed rl userId now) as [allowed rl1]. cbn [snd] in HW, HN.
  rewrite <- HW, <- HN in Hbounded'.
  specialize (IH now rl1 _ Hagree' Hbounded' Hsorted).
  destruct (run rl1 rest) as [granted' rl2]. cbn [fst] in *.
  rewrite HW, HN in IH. destruct allowed; [|by rewrite app_nil_r in IH].
  by rewrite <- app_assoc in IH.
Qed.

(** X24.  The limiter keeps its promise in every window, not only in
    the one that ends now.  For calls of [isAllowed] made at
    non-decreasing times on a new limiter, the allowed calls of any one
    user whose times lie within any span of [windowMs] milliseconds (the
    span ending at any time [t], its start excluded) number at most
    [maxRequests]; none is allowed when [maxRequests] is not positive. *)
Theorem rate_limit_in_every_window (W N : Z) (calls : list (string * Z))
    (userId : string) (t : Z) :
  Sorted Z.le (snd <$> calls) ->
  (Z.of_nat (length (in_window W userId t (fst (run (new_RateLimiter W N) calls))))
   <= Z.max 0 N)%Z.
Proof.
  intros Hsorted.
  destruct calls as [|[u now] rest].
  { cbn. lia. }
  apply (run_bounded ((u, now) :: rest) now (new_RateLimiter W N) []).
  - intros u' t' _. unfold validRequests. cbn. by rewrite lookup_empty.
  - intros u' t'. cbn. lia.
  - cbn [fmap list_fmap snd] in *. constructor; [done|]. constructor. lia.
Qed.

Lemma filter_idemp {A} (P : A -> Prop) `{!forall x, Decision (P x)} (l : list A) :
  filter P (filter P l) = filter P l.
Proof. by apply filter_filter_impl. Qed.

(** X30.  The two queries of the limiter agree.  [isAllowed] admits a
    call exactly when [getRemainingRequests] at the same instant is
    positive; a refused call leaves the limiter as it was; and, for a
    positive window, an admitted call lowers the remaining count at that
    instant by one. *)
Theorem remaining_requests_agree (rl : RateLimiter) (userId : string) (now : Z) :
  (fst (isAllowed rl userId now) = true
   <-> (0 < getRemainingRequests rl userId now)%Z) /\
  (fst (isAllowed rl userId now) = false -> snd (isAllowed rl userId now) = rl) /\
  (fst (isAllowed rl userId now) = true -> (0 < windowMs rl)%Z ->
   getRemainingRequests (snd (isAllowed rl userId now)) userId now
   = (getRemainingRequests rl userId now - 1)%Z).
Proof.
  unfold isAllowed, getRemainingRequests. cbv zeta.
  case_decide as Hfull; cbn [fst snd].
  - split; [split; [done | lia]|]. split; done.
  - split; [split; [lia | done]|]. split; [done|]. intros _ HW.
    set (valid := validRequests rl userId now) in *.
    unfold validRequests. cbn [requests windowMs maxRequests].
    rewrite lookup_insert_eq. cbn [default]. unfold id.
    rewrite filter_app. subst valid. unfold validRequests. rewrite filter_idemp.
    rewrite filter_cons_True by (cbn beta; lia). rewrite filter_nil.
    unfold validRequests in Hfull. rewrite length_app. cbn [length]. lia.
Qed.

End RateLimitFacts.

(** ** The callers on concrete inputs *)

Section CallerWitnesses.
Import Network Rpc.

Lemma requests_settled_once_witness :
  let outs := snd (Bridge.run Bridge.initial Bridge.page_session) in
  NoDup (omap Bridge.posted_id outs) /\
  NoDup (omap Bridge.settled_id outs) /\
  (forall id, id ∈ omap Bridge.posted_id outs ->
     Bridge.messageQueue Bridge.initial !! id = None) /\
  (forall id, id ∈ omap Bridge.settled_id outs ->
     is_Some (Bridge.messageQueue Bridge.initial !! id)
     \/ id ∈ omap Bridge.posted_id outs) /\
  (forall id, id ∈ omap Bridge.settled_id outs ->
     Bridge.messageQueue (fst (Bridge.run Bridge.initial Bridge.page_session)) !! id
       = None).
Proof.
  apply (requests_settled_once Bridge.page_session Bridge.initial).
  intros id [k Hk]. cbn in Hk. by rewrite lookup_empty in Hk.
Defined.

(** The page session, run: [initializeCrypto] creates the worker and
    posts nothing; the [seal] goes out as request 0; the [init] notice
    lets the first bundle out as request 1; request 0 is resolved and
    request 1 rejected; the second [initializeCrypto] is posted as
    request 2 when it resumes; the cleanup goes out as request 3, its
    answer makes the bridge reject request 2 and post a last cleanup,
    request 4; the second answer to request 0 and the keep-alive notice
    do nothing. *)
Example page_session_outputs :
  snd (Bridge.run Bridge.initial Bridge.page_session)
  = [ Bridge.Spawned;
      Bridge.PostMessage 0 (Seal (Worker.Text "hi"));
      Bridge.PostMessage 1 (Initialize [1; 2; 3]%Z);
      Bridge.Resolved 0 (Some Success);
      Bridge.Rejected 1 "invalid key";
      Bridge.PostMessage 2 (Initialize [4]%Z);
      Bridge.PostMessage 3 Cleanup;
      Bridge.Resolved 3 (Some Success);
      Bridge.Rejected 2 "Worker terminated";
      Bridge.PostMessage 4 Cleanup ].
Proof. vm_compute. reflexivity. Qed.

Lemma log_keeps_latest_witness :
  let lg := Logging.new_Logger in
  let result := Logging.log_all Logging.ascii_toLowerCase lg Logging.three_calls in
  Logging.logs (fst result)
    = drop (length (Logging.logs lg ++ snd result) - Logging.maxLogs lg)
        (Logging.logs lg ++ snd result) /\
  length (Logging.logs (fst result)) <= Logging.maxLogs lg /\
  length (snd result) = length Logging.three_calls /\
  Forall (fun entry =>
            Logging.redacted Logging.ascii_toLowerCase (Logging.sensitiveFields lg)
              (Logging.data entry))
    (snd result).
Proof.
  intros lg.
  apply (log_keeps_latest Logging.ascii_toLowerCase (Logging.sensitiveFields lg)
           Logging.three_calls lg).
  - cbn. lia.
  - reflexivity.
Defined.

(** The data of the three entries, as stored. *)
Example three_calls_stored :
  Logging.data <$> snd (Logging.log_all Logging.ascii_toLowerCase Logging.new_Logger
                          Logging.three_calls)
  = [ JObj [("user", JStr "ann"); ("Password", JStr "[REDACTED]");
            ("session", JObj [("token", JStr "[REDACTED]"); ("age", JNum 3)])];
      JObj [];
      JObj [("0", JStr "a"); ("1", JObj [])] ].
Proof. vm_compute. reflexivity. Qed.

Lemma rate_limit_in_every_window_witness :
  (Z.of_nat (length (RateLimit.in_window 60000 "ann" 60005
                       (fst (RateLimit.run (RateLimit.new_RateLimiter 60000 2)
                               RateLimit.busy_minute))))
   <= Z.max 0 2)%Z.
Proof.
  apply (rate_limit_in_every_window 60000 2 RateLimit.busy_minute "ann" 60005).
  repeat constructor; cbn; lia.
Defined.

(** The calls that were allowed: the third call of [ann] within the
    minute is refused, the one after the window is allowed again. *)
Example busy_minute_granted :
  fst (RateLimit.run (RateLimit.new_RateLimiter 60000 2) RateLimit.busy_minute)
  = [("ann", 0); ("ann", 10); ("bob", 10); ("ann", 70000)]%Z.
Proof. vm_compute. reflexivity. Qed.

End CallerWitnesses.

(** * Timeouts, transport changes and the replay set *)

Section TimeoutFacts.
Import Framer Network Session.
Context {wire : Wire} {auth : Auth}.

(** A response that carries the right tag verifies the socket it comes
    from whenever a verification is pending for it. *)
Lemma response_verifies (nm : NetworkManager) (socket : Socket)
    (pending : Verification) (psk tag : bytes) (now : Z) :
  pendingVerifications nm !! socket = Some pending ->
  roomPSK nm = Some psk ->
  array_roundtrip tag ->
  crypto_auth_verify tag (challenge pending) psk = true ->
  travels (response_object tag) ->
  (Z.of_nat (length (JSON_stringify (success_object now))) < 2 ^ 32)%Z ->
  exists response success verified,
    padPacket (JSON_stringify (response_object tag)) = Ok response /\
    handleIncomingData nm response socket now
      = (verified, [ClearTimeout (timeout pending); SocketWrite socket success]) /\
    verifiedPeers verified !! socket
      = Some {| verifiedAt := now; verifiedChallenge := challenge pending |} /\
    socket ∈ sockets verified /\
    isConnected verified = true.
Proof.
  intros Hpending Hpsk Htag Hverify Hresp Hsucc.
  destruct (decode_frame_travels _ _ Hresp eq_refl) as (f2 & Hpad2 & Hdec2).
  destruct (padPacket_ok _ Hsucc) as [Hpad3 _].
  eexists f2, _, _. split; [exact Hpad2|]. split.
  { unfold handleIncomingData. rewrite Hdec2.
    change (is_str (Some (JStr "verification_response")) "verification_challenge")
      with false.
    change (is_str (Some (JStr "verification_response")) "verification_response")
      with true. cbv iota.
    change (prop_or_undefined (response_object tag) "response")
      with (Some (Array_from tag)).
    unfold verifyPeer. rewrite Hpending, Hpsk, Htag, Hverify.
    change (JObj [("type", JStr "verification_success"); ("timestamp", JNum now)])
      with (success_object now).
    rewrite Hpad3. reflexivity. }
  cbn. rewrite lookup_insert_eq.
  repeat split; try done. apply elem_of_union_r, elem_of_singleton_2. done.
Qed.

(** X25.  The verification timeout does not expire the challenge.  When
    it fires for a socket whose verification is still pending, the socket
    is taken out of the broadcast set, but the pending entry stays; a
    response with the right tag that arrives afterwards is accepted as if
    in time: the socket is recorded as verified, put back in the
    broadcast set, and the manager is marked connected. *)
Theorem verification_timeout_keeps_challenge (nm : NetworkManager) (socket : Socket)
    (pending : Verification) (psk tag : bytes) (now : Z) :
  pendingVerifications nm !! socket = Some pending ->
  roomPSK nm = Some psk ->
  array_roundtrip tag ->
  crypto_auth_verify tag (challenge pending) psk = true ->
  travels (response_object tag) ->
  (Z.of_nat (length (JSON_stringify (success_object now))) < 2 ^ 32)%Z ->
  let expired := fst (onVerificationTimeout nm socket) in
  (socket ∉ sockets expired) /\
  pendingVerifications expired !! socket = Some pending /\
  exists response success verified,
    padPacket (JSON_stringify (response_object tag)) = Ok response /\
    handleIncomingData expired response socket now
      = (verified, [ClearTimeout (timeout pending); SocketWrite socket success]) /\
    verifiedPeers verified !! socket
      = Some {| verifiedAt := now; verifiedChallenge := challenge pending |} /\
    socket ∈ sockets verified /\
    isConnected verified = true.
Proof.
  intros Hpending Hpsk Htag Hverify Hresp Hsucc expired.
  assert (expired = fst (handlePeerDisconnect nm socket)) as Hexpired.
  { subst expired. unfold onVerificationTimeout.
    rewrite decide_True by (by eexists).
    by destruct (handlePeerDisconnect nm socket). }
  destruct (handlePeerDisconnect_fields nm socket) as (Hs & _ & Hp & Hk).
  rewrite <- Hexpired in Hs, Hp, Hk.
  split; [rewrite Hs; set_unfold; tauto|].
  split; [by rewrite Hp|].
  apply (response_verifies expired socket pending psk tag now); try done.
  - by rewrite Hp.
  - by rewrite Hk.
Qed.

End TimeoutFacts.


Section TransportFacts.
Import Network Session Transport.
Context {hash : Hash}.

Lemma cleaned_joins (actions : list Action) :
  List.filter joins (Cleaned <$> actions) = [].
Proof. induction actions as [|a l IH]; [done|]. by cbn. Qed.

Lemma step_joins (node : Node) (ev : Event) :
  savedParams node = None ->
  savedParams (fst (step node ev)) = None /\
  length (List.filter joins (snd (step node ev))) = (if initializes ev then 1 else 0).
Proof.
  intros Hsaved. destruct ev as [params | mode | |]; cbn [step initializes].
  - done.
  - unfold setTransportMode. rewrite Hsaved.
    destruct (_ && _); [done|]. case_bool_decide; [done|]. cbn [manager].
    destruct (swarm (manager node)); [|done].
    destruct (cleanup (manager node)) as [m actions]. cbn.
    by rewrite cleaned_joins.
  - unfold onConnectionTimeout, setTransportMode. rewrite Hsaved.
    destruct (isConnected _); [done|].
    destruct (_ && _); [done|]. case_bool_decide; [done|]. cbn [manager].
    destruct (swarm (manager node)); [|done].
    destruct (cleanup (manager node)) as [m actions]. cbn.
    by rewrite cleaned_joins.
  - destruct (cleanup (manager node)) as [m actions]. cbn.
    by rewrite cleaned_joins.
Qed.

(** X26.  In this version of the manager nothing assigns [savedParams],
    so a change of transport never brings the network back up.  Over any
    sequence of [initialize] calls, [setTransportMode] calls, connection
    timeouts and [cleanup] calls, starting where [savedParams] is unset,
    it stays unset and the swarm is joined exactly once per [initialize]
    call: [setTransportMode], and the fallback of the connection timeout
    through it, only tear down. *)
Theorem transport_switch_never_rejoins (node : Node) (evs : list Event) :
  savedParams node = None ->
  savedParams (fst (run node evs)) = None /\
  length (List.filter joins (snd (run node evs)))
    = length (List.filter initializes evs).
Proof.
  revert node. induction evs as [|ev rest IH]; intros node Hsaved; cbn [run]; [done|].
  destruct (step_joins node ev Hsaved) as [Hsaved1 Hcount].
  destruct (step node ev) as [node1 steps]. cbn [fst snd] in *.
  destruct (IH node1 Hsaved1) as [Hsaved2 Hcount2].
  destruct (run node1 rest) as [node2 steps']. cbn [fst snd] in *.
  split; [done|]. rewrite List.filter_app, length_app, Hcount, Hcount2.
  cbn [List.filter]. by destruct (initializes ev).
Qed.

End TransportFacts.

Section ReplayFacts.
Import Worker Rpc.
Context {sodium : Sodium} {host : Host} {files : FileCodec}.

Lemma encryptMessage_seen (p : Content) (w : World) :
  seenMessages (ratchet (snd (encryptMessage p false w))) = seenMessages (ratchet w).
Proof. by destruct (encryptMessage_cases p w) as (_ & _ & Hs & _). Qed.

Lemma sealFile_seen (data : bytes) (name type : string) (w : World) :
  seenMessages (ratchet (snd (sealFile data name type w))) = seenMessages (ratchet w).
Proof. by destruct (sealFile_cases data name type w) as (_ & _ & Hs & _). Qed.

Lemma decryptMessage_seen_grows (env : Envelope) (w : World) :
  seenMessages (ratchet w) ⊆ seenMessages (ratchet (snd (decryptMessage env w))).
Proof.
  decrypt_cases.
  all: try done.
  all: try match goal with H : seenMessages _ = _ |- _ => rewrite H end.
  all: apply union_subseteq_r.
Qed.

Lemma openFile_seen_grows (env : Envelope) (w : World) :
  seenMessages (ratchet w) ⊆ seenMessages (ratchet (snd (openFile env w))).
Proof.
  unfold openFile. decrypt_cases.
  all: try done.
  all: try match goal with H : seenMessages _ = _ |- _ => rewrite H end.
  all: apply union_subseteq_r.
Qed.

Lemma onmessage_seen_grows (req : Request) (w : World) :
  seenMessages (ratchet w) ⊆ seenMessages (ratchet (snd (onmessage req w))).
Proof.
  destruct req; unfold onmessage, bind.
  - destruct (initialize_throws preKeyBundle w) as (_ & _ & _ & _ & _ & _ & Hs & _).
    destruct (initialize preKeyBundle w) as [[[]|e] w1]; cbn in *; by rewrite Hs.
  - pose proof (generatePreKeyBundle_ratchet w) as [Hr _].
    destruct (generatePreKeyBundle w) as [[kp|e] w1]; cbn in *; by rewrite Hr.
  - pose proof (encryptMessage_seen plain w) as Hs.
    destruct (encryptMessage plain false w) as [[env|e] w1]; cbn in *; by rewrite Hs.
  - pose proof (decryptMessage_seen_grows env w) as Hs.
    by destruct (decryptMessage env w) as [[p|e] w1].
  - pose proof (sealFile_seen fileData0 fileName0 fileType0 w) as Hs.
    destruct (sealFile fileData0 fileName0 fileType0 w) as [[env|e] w1]; cbn in *;
      by rewrite Hs.
  - pose proof (openFile_seen_grows env w) as Hs.
    by destruct (openFile env w) as [[p|e] w1].
  - destruct (cleanup_heap w 0) as (Hok & Hr & _).
    destruct (cleanup w) as [[[]|e] w1]; cbn in *; by rewrite Hr.
  - done.
Qed.

Lemma run_seen_grows (evs : list Event) (w : World) :
  seenMessages (ratchet w) ⊆ seenMessages (ratchet (snd (run evs w))).
Proof.
  revert w. induction evs as [|ev rest IH]; intros w; cbn [run]; [done|].
  assert (seenMessages (ratchet w) ⊆ seenMessages (ratchet (snd (step ev w)))) as Hstep.
  { destruct ev as [req| |]; unfold step.
    - pose proof (onmessage_seen_grows req w) as Hs.
      by destruct (onmessage req w).
    - destruct (keepAliveInterval w); [|done].
      pose proof (keepAliveTick_ratchet w) as Hr.
      destruct (keepAliveTick w) as [[env|] w1]; cbn in *; by rewrite Hr.
    - destruct (cleanup_heap w 0) as (_ & Hr & _). cbn [fst snd]. by rewrite Hr. }
  destruct (step ev w) as [posted w1]. cbn [snd] in Hstep.
  specialize (IH w1). destruct (run rest w1) as [posted' w2]. cbn [snd] in *.
  by transitivity (seenMessages (ratchet w1)).
Qed.

(** X27.  The replay set never forgets.  Whatever requests, ticks and
    unload events the worker goes through -- [cleanup] and another
    [initialize] included -- every pair (counter, timestamp) in
    the replay set stays in it, so an envelope that [decryptMessage]
    accepts afterwards opens to a message whose pair was not in the set
    at the start. *)
Theorem replay_set_never_forgets (evs : list Event) (w : World) (env : Envelope) :
  let later := snd (run evs w) in
  seenMessages (ratchet w) ⊆ seenMessages (ratchet later) /\
  forall p w',
    decryptMessage env later = (Ok p, w') ->
    exists m, opens later env m /\ content m = p /\
              (Worker.counter m, Worker.timestamp m) ∉ seenMessages (ratchet w).
Proof.
  intros later. pose proof (run_seen_grows evs w) as Hgrows. fold later in Hgrows.
  split; [exact Hgrows|].
  intros p w' Hrun.
  destruct (decryptMessage_accepted _ _ _ _ Hrun) as (m & Hopens & Hcontent & _ & Hfresh & _).
  exists m. split; [done|]. split; [done|].
  intros Hin. apply Hfresh. by apply Hgrows.
Qed.

End ReplayFacts.

Section LaterWitnesses.
Import Framer Network Session Worker Rpc.
#[local] Existing Instance ToyControl.wire.
#[local] Existing Instance Toy.auth.
#[local] Existing Instance Toy.sodium.
#[local] Existing Instance Toy.host.
#[local] Existing Instance ToyRpc.files.
#[local] Existing Instance ToyTransport.hash.

Lemma verification_timeout_keeps_challenge_witness :
  let waiting := fst (onConnection Toy.fresh_manager 7 [1; 2; 3]%Z 9) in
  let pending := {| challenge := [1; 2; 3]%Z; timeout := 9 |} in
  let tag := [5; 5; 1; 2; 3]%Z in
  let expired := fst (onVerificationTimeout waiting 7) in
  (7 ∉ sockets expired) /\
  pendingVerifications expired !! 7 = Some pending /\
  exists response success verified,
    padPacket (Network.JSON_stringify (response_object tag)) = Ok response /\
    handleIncomingData expired response 7 200%Z
      = (verified, [ClearTimeout (timeout pending); SocketWrite 7 success]) /\
    verifiedPeers verified !! 7
      = Some {| verifiedAt := 200%Z; verifiedChallenge := challenge pending |} /\
    7 ∈ sockets verified /\
    isConnected verified = true.
Proof.
  intros waiting pending tag.
  apply (verification_timeout_keeps_challenge waiting 7 pending [5; 5]%Z tag 200%Z).
  - reflexivity.
  - reflexivity.
  - reflexivity.
  - reflexivity.
  - split; [vm_compute; reflexivity | reflexivity].
  - vm_compute. reflexivity.
Defined.

Lemma transport_switch_never_rejoins_witness :
  Transport.savedParams
    (fst (Transport.run Transport.new_NetworkManager ToyTransport.fallback)) = None /\
  length (List.filter Transport.joins
            (snd (Transport.run Transport.new_NetworkManager ToyTransport.fallback)))
    = length (List.filter Transport.initializes ToyTransport.fallback).
Proof.
  apply (transport_switch_never_rejoins Transport.new_NetworkManager
           ToyTransport.fallback).
  reflexivity.
Defined.

(** The fallback, run: the swarm is created and joined once; the timeout
    stops the keep-alive and destroys the swarm; nothing follows. *)
Example fallback_steps :
  snd (Transport.run Transport.new_NetworkManager ToyTransport.fallback)
  = [ Transport.Created false; Transport.TimeoutArmed;
      Transport.Joined [114; 111; 111; 109]%Z;
      Transport.Cleaned ClearInterval; Transport.Cleaned SwarmDestroy;
      Transport.Cleaned SwarmDestroy ].
Proof. vm_compute. reflexivity. Qed.

End LaterWitnesses.

(** * Invariants of the broadcast set and of the keep-alive *)

Section EventFacts.
Import Framer Network Session.
Context {wire : Wire} {auth : Auth}.

Lemma handlePeerDisconnect_verified (nm : NetworkManager) (socket : Socket) :
  broadcast_verified nm -> broadcast_verified (fst (handlePeerDisconnect nm socket)).
Proof.
  intros Hinv s. destruct (handlePeerDisconnect_fields nm socket) as (Hs & Hv & _).
  rewrite Hs, Hv. intros Hin. apply Hinv. by apply elem_of_difference in Hin as [Hin _].
Qed.

Lemma handleIncomingData_verified (nm : NetworkManager) (data : bytes)
    (socket : Socket) (now : Z) :
  broadcast_verified nm ->
  broadcast_verified (fst (handleIncomingData nm data socket now)).
Proof.
  intros Hinv. unfold handleIncomingData.
  destruct (decode_frame data) as [[message ty] | err]; [|done].
  destruct (is_str ty "verification_challenge"); [done|].
  destruct (is_str ty "verification_response").
  2: { case_decide; [done|]. by destruct (is_str ty "keepalive"). }
  unfold verifyPeer.
  destruct (pendingVerifications nm !! socket) as [pending|].
  2: { pose proof (handlePeerDisconnect_verified nm socket Hinv) as Hd.
       by destruct (handlePeerDisconnect nm socket). }
  set (nm1 := {| sockets := sockets nm; verifiedPeers := verifiedPeers nm;
                 pendingVerifications := delete socket (pendingVerifications nm);
                 isConnected := isConnected nm; reconnectTimer := reconnectTimer nm;
                 connectionTimeout := connectionTimeout nm; roomPSK := roomPSK nm |}).
  assert (broadcast_verified nm1) as Hinv1 by exact Hinv.
  destruct (roomPSK nm) as [psk|].
  2: { pose proof (handlePeerDisconnect_verified nm1 socket Hinv1) as Hd.
       by destruct (handlePeerDisconnect nm1 socket). }
  destruct (crypto_auth_verify _ _ psk).
  2: { pose proof (handlePeerDisconnect_verified nm1 socket Hinv1) as Hd.
       by destruct (handlePeerDisconnect nm1 socket). }
  match goal with
  | |- context [padPacket ?x] => destruct (padPacket x)
  end.
  all: match goal with
       | |- context [{| sockets := ?s; verifiedPeers := ?v; pendingVerifications := ?p;
                        isConnected := true; reconnectTimer := ?r;
                        connectionTimeout := ?c; roomPSK := ?k |}] =>
           set (nm2 := {| sockets := s; verifiedPeers := v; pendingVerifications := p;
                          isConnected := true; reconnectTimer := r;
                          connectionTimeout := c; roomPSK := k |});
           assert (broadcast_verified nm2) as Hinv2
       end.
  1,3: intros s Hin; cbn in Hin |- *;
       destruct (decide (s = socket)) as [->|Hne];
       [ rewrite lookup_insert_eq; by eexists
       | rewrite lookup_insert_ne by done; apply Hinv;
         apply elem_of_union in Hin as [Hin | Hin];
         [done | by apply elem_of_singleton in Hin] ].
  - done.
  - pose proof (handlePeerDisconnect_verified nm2 socket Hinv2) as Hd.
    by destruct (handlePeerDisconnect nm2 socket).
Qed.

Lemma step_verified (nm : NetworkManager) (ev : Event) :
  broadcast_verified nm -> broadcast_verified (fst (step nm ev)).
Proof.
  intros Hinv.
  destruct ev as [socket challenge timer | socket data now | socket | socket
                 | | swarm rejoin]; cbn [step].
  - exact Hinv.
  - by apply handleIncomingData_verified.
  - by apply handlePeerDisconnect_verified.
  - unfold onVerificationTimeout. case_decide as Hpending; [|done].
    pose proof (handlePeerDisconnect_verified nm socket Hinv) as Hd.
    by destruct (handlePeerDisconnect nm socket).
  - unfold onSwarmError, attemptReconnect. by destruct (reconnectTimer nm).
  - by destruct (reconnectTimer nm).
Qed.

Lemma run_verified (evs : list Event) (nm : NetworkManager) :
  broadcast_verified nm -> broadcast_verified (fst (run nm evs)).
Proof.
  revert nm. induction evs as [|ev rest IH]; intros nm Hinv; cbn [run]; [done|].
  pose proof (step_verified nm ev Hinv) as Hstep.
  destruct (step nm ev) as [nm1 effs]. cbn [fst] in Hstep.
  specialize (IH nm1 Hstep). by destruct (run nm1 rest).
Qed.

(** X28.  Broadcasts reach verified peers only.  A socket enters the
    broadcast set in [verifyPeer] alone, together with its entry in the
    table of verified peers, and that table never loses an entry.  So
    from a manager whose broadcast set holds verified sockets only (a new
    manager is one), after any sequence of connections, inbound frames,
    ended sockets, verification timeouts, swarm errors and firings of the
    reconnect timer, every socket that [sendMessage] or
    [broadcastKeepAlive] writes to is a verified peer. *)
Theorem broadcasts_reach_verified_peers_only (nm : NetworkManager) (evs : list Event) :
  broadcast_verified nm ->
  let later := fst (run nm evs) in
  broadcast_verified later /\
  (forall message now jitter effs socket frame,
     sendMessage later message now jitter = Ok effs ->
     SocketWrite socket frame ∈ effs -> is_Some (verifiedPeers later !! socket)) /\
  (forall now jitter effs socket frame,
     broadcastKeepAlive later now jitter = Ok effs ->
     SocketWrite socket frame ∈ effs -> is_Some (verifiedPeers later !! socket)).
Proof.
  intros Hinv later. pose proof (run_verified evs nm Hinv) as Hlater. fold later in Hlater.
  split; [exact Hlater|]. split.
  - intros message now jitter effs socket frame Hsend Hin.
    unfold sendMessage in Hsend. destruct (negb _); [discriminate|].
    destruct (padPacket _); [|discriminate]. injection Hsend as <-.
    apply list_elem_of_fmap in Hin as (s & [= -> _] & Hs).
    apply Hlater. by apply elem_of_elements.
  - intros now jitter effs socket frame Hsend Hin.
    unfold broadcastKeepAlive in Hsend.
    destruct (padPacket _); [|discriminate]. injection Hsend as <-.
    apply list_elem_of_fmap in Hin as (s & [= -> _] & Hs).
    apply Hlater. by apply elem_of_elements.
Qed.

End EventFacts.

Section KeepAliveFacts.
Import Worker Rpc.
Context {sodium : Sodium} {host : Host} {files : FileCodec}.

Lemma encryptMessage_interval (p : Content) (w : World) :
  keepAliveInterval (snd (encryptMessage p false w)) = keepAliveInterval w.
Proof. by destruct (encryptMessage_cases p w) as (_ & _ & _ & Hk & _). Qed.

Lemma sealFile_interval (data : bytes) (name type : string) (w : World) :
  keepAliveInterval (snd (sealFile data name type w)) = keepAliveInterval w.
Proof. by destruct (sealFile_cases data name type w) as (_ & _ & _ & Hk & _). Qed.

Lemma decryptMessage_interval (env : Envelope) (w : World) :
  keepAliveInterval (snd (decryptMessage env w)) = keepAliveInterval w.
Proof. decrypt_cases. all: congruence. Qed.

Lemma openFile_interval (env : Envelope) (w : World) :
  keepAliveInterval (snd (openFile env w)) = keepAliveInterval w.
Proof. unfold openFile. decrypt_cases. all: congruence. Qed.

Lemma generatePreKeyBundle_interval (w : World) :
  keepAliveInterval (snd (generatePreKeyBundle w)) = keepAliveInterval w.
Proof. by destruct (generatePreKeyBundle_ratchet w). Qed.

Lemma cleanup_interval (w : World) : keepAliveInterval (snd (cleanup w)) = false.
Proof. munfold. cbn. repeat mcase. all: done. Qed.

Lemma step_quiet (ev : Event) (w : World) :
  keepAliveInterval w = false -> arms ev = false ->
  keepAliveInterval (snd (step ev w)) = false /\
  List.filter keepalive (fst (step ev w)) = [].
Proof.
  intros Hoff Hev. destruct ev as [req| |]; unfold step.
  - assert (keepAliveInterval (snd (onmessage req w)) = false) as Hreq.
    { destruct req; try discriminate; unfold onmessage, bind.
      - pose proof (generatePreKeyBundle_interval w) as Hk.
        destruct (generatePreKeyBundle w) as [[kp|e] w1]; cbn in *; congruence.
      - pose proof (encryptMessage_interval plain w) as Hk.
        destruct (encryptMessage plain false w) as [[env|e] w1]; cbn in *; congruence.
      - pose proof (decryptMessage_interval env w) as Hk.
        destruct (decryptMessage env w) as [[p|e] w1]; cbn in *; congruence.
      - pose proof (sealFile_interval fileData0 fileName0 fileType0 w) as Hk.
        destruct (sealFile fileData0 fileName0 fileType0 w) as [[env|e] w1]; cbn in *;
          congruence.
      - pose proof (openFile_interval env w) as Hk.
        destruct (openFile env w) as [[p|e] w1]; cbn in *; congruence.
      - pose proof (cleanup_interval w) as Hk.
        destruct (cleanup w) as [[[]|e] w1]; cbn in *; congruence.
      - done. }
    by destruct (onmessage req w).
  - by rewrite Hoff.
  - cbn [fst snd]. split; [apply cleanup_interval | done].
Qed.

(** X29.  [cleanup] silences the keep-alive.  After [cleanup] the
    interval is cleared, and no request but [initialize] has a call of
    [startKeepAlive]: over any sequence of other requests, ticks and
    unload events the worker posts no keep-alive notice. *)
Theorem cleanup_silences_keepalive (evs : list Event) (w : World) :
  Forall (fun ev => arms ev = false) evs ->
  let stopped := snd (cleanup w) in
  keepAliveInterval (snd (run evs stopped)) = false /\
  List.filter keepalive (fst (run evs stopped)) = [].
Proof.
  intros Hevs stopped.
  assert (keepAliveInterval stopped = false) as Hoff by apply cleanup_interval.
  clearbody stopped. revert stopped Hoff.
  induction Hevs as [|ev rest Hev _ IH]; intros w0 Hoff; cbn [run]; [done|].
  destruct (step_quiet ev w0 Hoff Hev) as [Hoff1 Hquiet].
  destruct (step ev w0) as [posted w1]. cbn [fst snd] in *.
  destruct (IH w1 Hoff1) as [Hoff2 Hquiet2].
  destruct (run rest w1) as [posted' w2]. cbn [fst snd] in *.
  split; [done|]. by rewrite List.filter_app, Hquiet, Hquiet2.
Qed.

End KeepAliveFacts.

Section InvariantWitnesses.
Import Network Worker Rpc.
#[local] Existing Instance ToyControl.wire.
#[local] Existing Instance Toy.auth.
#[local] Existing Instance Toy.sodium.
#[local] Existing Instance Toy.host.
#[local] Existing Instance ToyRpc.files.

Lemma broadcasts_reach_verified_peers_only_witness :
  let later := fst (Session.run Toy.fresh_manager ToyControl.visit) in
  Session.broadcast_verified later /\
  (forall message now jitter effs socket frame,
     sendMessage later message now jitter = Ok effs ->
     SocketWrite socket frame ∈ effs -> is_Some (verifiedPeers later !! socket)) /\
  (forall now jitter effs socket frame,
     broadcastKeepAlive later now jitter = Ok effs ->
     SocketWrite socket frame ∈ effs -> is_Some (verifiedPeers later !! socket)).
Proof.
  apply (broadcasts_reach_verified_peers_only Toy.fresh_manager ToyControl.visit).
  intros socket Hin. by apply elem_of_empty in Hin.
Defined.

(** The visit, run: the challenge goes out, the answer is accepted, the
    timeout finds nothing pending, the end of the socket schedules a
    reconnect, and the chat frame is still delivered. *)
Example visit_effects :
  (fun e => match e with
            | SocketWrite _ _ => 1
            | OnMessage _ => 2
            | ClearTimeout _ => 3
            | ScheduleReconnect => 4
            | Console _ => 5
            | SwarmRejoin => 6
            end) <$> snd (Session.run Toy.fresh_manager ToyControl.visit)
  = [1; 3; 1; 4; 2].
Proof. vm_compute. reflexivity. Qed.

Lemma cleanup_silences_keepalive_witness :
  let stopped := snd (cleanup (Toy.sender 0)) in
  keepAliveInterval (snd (run ToyRpc.afterwards stopped)) = false /\
  List.filter keepalive (fst (run ToyRpc.afterwards stopped)) = [].
Proof.
  apply (cleanup_silences_keepalive ToyRpc.afterwards (Toy.sender 0)).
  repeat constructor.
Defined.

End InvariantWitnesses.
